(** * The entity cache of the stream overlay client

    A shallow embedding of the synchronisation core of the client: the
    deep-merge, diff and dotted-path utilities of [utils.js], the permission
    queries and the create / update / delete workflows of
    [entities/entity.js] with their embedded counterparts, and the keyed
    store of [entities/entityCollection.js].

    Scope of the embedding.
    - JavaScript values are the plain data the server sends: [undefined],
      [null], booleans, integral numbers, strings, arrays and plain objects.
    - A plain object is its list of own properties in insertion order.  Keys
      are ordinary property names: the prototype chain ([__proto__],
      [constructor], [hasOwnProperty] used as data keys) is not part of the
      model, and index-like keys keep their insertion position.
    - Top-level record objects live in a heap and are referred to by
      location, so that an Entity and the raw source array of its collection
      share one object; objects nested inside a record are values.
    - An awaited transport round trip is a call of a server function; what
      other event-loop turns do between dispatch and response is not
      modelled.  Hooks and [prepareData] are those of the base class
      [Entity]; a subclass enters through its [config] and its
      [_constructEmbeddedEntity], an attached application through its
      [close]. *)

From Stdlib Require Import List String Ascii ZArith Bool Lia.
From stdpp Require Import base list.
Import ListNotations.
Local Open Scope string_scope.

(** ** Values *)

Unset Elimination Schemes.
Inductive value : Type :=
| VUndefined
| VNull
| VBool (b : bool)
| VNum (n : Z)
| VStr (s : string)
| VArr (items : list value)
| VObj (fields : list (string * value)).
Set Elimination Schemes.

(** A plain object: own properties in insertion order. *)
Definition obj : Type := list (string * value).

(** Outcome of code that may throw. *)
Inductive error : Type :=
| NotObjects          (* "One of original or other are not Objects!" *)
| TypeMismatch        (* "Mismatched data types encountered during object merge." *)
| MaxDepth            (* "Maximum depth exceeded" *)
| NotAnObject         (* "The provided data is not an object!" *)
| TypeError           (* property access on null/undefined, write on a primitive *)
| MissingId           (* "You must provide an _id for every ..." *)
| KeyMissing          (* "The key ... does not exist in the ... Collection" *)
| ConfigMissing       (* "The ... subclass must define the Entity.config object" *)
| NoBaseEntity        (* "An Entity subclass must configure the baseEntity it represents." *)
| NoCollection        (* "An Entity subclass must configure the EntityCollection it belongs to." *)
| NoConstructEmbedded (* "... must define the _constructEmbeddedEntity() method" *)
| InvalidEmbedded     (* "... is not a valid Embedded Entity in a ..." *)
| WrongClass          (* "You may only push instances of ..." *)
| ServerError         (* the transport rejected the request *)
| Unmodelled.         (* behaviour outside plain-object data *)

Inductive res (A : Type) : Type :=
| Ok (a : A)
| Err (e : error).
Arguments Ok {A} a.
Arguments Err {A} e.

Definition rbind {A B : Type} (r : res A) (f : A -> res B) : res B :=
  match r with
  | Ok a => f a
  | Err e => Err e
  end.

Notation "'let*' x ':=' c 'in' k" := (rbind c (fun x => k))
  (at level 10, x name, c at level 100, k at level 200).

(** ** Primitive operators *)

(** [typeof]-based classification, [getType] of utils.js. *)
Definition getType (token : value) : string :=
  match token with
  | VUndefined => "undefined"
  | VNull => "null"
  | VBool _ => "boolean"
  | VNum _ => "number"
  | VStr _ => "string"
  | VArr _ => "Array"
  | VObj _ => "Object"
  end.

(** ToBoolean. *)
Definition truthy (v : value) : bool :=
  match v with
  | VUndefined | VNull => false
  | VBool b => b
  | VNum n => negb (n =? 0)%Z
  | VStr s => negb (s =? "")
  | VArr _ | VObj _ => true
  end.

(** [===].  Two composite operands are two objects: no code modelled here
    compares an object with itself through [===]. *)
Definition strict_equal (a b : value) : bool :=
  match a, b with
  | VUndefined, VUndefined => true
  | VNull, VNull => true
  | VBool x, VBool y => Bool.eqb x y
  | VNum x, VNum y => (x =? y)%Z
  | VStr x, VStr y => (x =? y)
  | _, _ => false
  end.

(** Structural equality of plain data. *)
Fixpoint value_eqb (a b : value) {struct a} : bool :=
  match a, b with
  | VUndefined, VUndefined => true
  | VNull, VNull => true
  | VBool x, VBool y => Bool.eqb x y
  | VNum x, VNum y => (x =? y)%Z
  | VStr x, VStr y => (x =? y)
  | VArr xs, VArr ys =>
      (fix items (xs ys : list value) {struct xs} : bool :=
         match xs, ys with
         | [], [] => true
         | x :: xs', y :: ys' => value_eqb x y && items xs' ys'
         | _, _ => false
         end) xs ys
  | VObj xs, VObj ys =>
      (fix fields (xs ys : list (string * value)) {struct xs} : bool :=
         match xs, ys with
         | [], [] => true
         | (k, x) :: xs', (k', y) :: ys' => (k =? k') && value_eqb x y && fields xs' ys'
         | _, _ => false
         end) xs ys
  | _, _ => false
  end.

(** ** Own properties *)

(** Own-property lookup. *)
Fixpoint get (o : obj) (k : string) : option value :=
  match o with
  | [] => None
  | (k', v) :: rest => if k' =? k then Some v else get rest k
  end.

(** [o.hasOwnProperty(k)] *)
Definition hasOwnProperty (o : obj) (k : string) : bool :=
  match get o k with Some _ => true | None => false end.

(** [o[k]] *)
Definition prop (o : obj) (k : string) : value :=
  match get o k with Some v => v | None => VUndefined end.

(** [o[k] = v]: an existing key keeps its position, a new one is appended. *)
Fixpoint set (o : obj) (k : string) (v : value) : obj :=
  match o with
  | [] => [(k, v)]
  | (k', v') :: rest => if k' =? k then (k', v) :: rest else (k', v') :: set rest k v
  end.

(** [delete o[k]] *)
Fixpoint delete (o : obj) (k : string) : obj :=
  match o with
  | [] => []
  | (k', v') :: rest => if k' =? k then delete rest k else (k', v') :: delete rest k
  end.

(** [Object.keys(o)] *)
Definition keys (o : obj) : list string := map fst o.

(** Property read on an arbitrary value, [v[k]]. *)
Definition member (v : value) (k : string) : res value :=
  match v with
  | VObj o => Ok (prop o k)
  | VUndefined | VNull => Err TypeError
  | VBool _ | VNum _ => Ok VUndefined
  | VStr _ | VArr _ => Err Unmodelled
  end.

(** ** Strings *)

(** [/\./.test(k)] *)
Fixpoint has_dot (k : string) : bool :=
  match k with
  | EmptyString => false
  | String c rest => Ascii.eqb c "."%char || has_dot rest
  end.

(** [k.split(".")] *)
Fixpoint split_dot (k : string) : list string :=
  match k with
  | EmptyString => [EmptyString]
  | String c rest =>
      if Ascii.eqb c "."%char then EmptyString :: split_dot rest
      else match split_dot rest with
           | [] => [String c EmptyString]
           | p :: ps => String c p :: ps
           end
  end.

(** [k.startsWith("-=")] *)
Definition is_deletion_key (k : string) : bool := String.prefix "-=" k.

(** [k.slice(2)] *)
Definition slice2 (k : string) : string := String.substring 2 (String.length k - 2) k.

(** ** utils.js *)

(** The names every plain object inherits: the string keys of
    [Object.prototype].  All of them are methods, [__proto__] apart, which is
    the accessor of the prototype itself. *)
Definition Object_prototype : list string :=
  ["constructor"; "__defineGetter__"; "__defineSetter__"; "hasOwnProperty";
   "__lookupGetter__"; "__lookupSetter__"; "isPrototypeOf"; "propertyIsEnumerable";
   "toString"; "valueOf"; "__proto__"; "toLocaleString"].

(** Whether [o[k]] and [k in o] find a member of [Object.prototype] when
    the object does not own the key. *)
Definition inherited (k : string) : bool := existsb (String.eqb k) Object_prototype.

(** Whether [n[k]] on a number or [b[k]] on a boolean finds a method of
    [Number.prototype], [Boolean.prototype] or [Object.prototype]. *)
Definition inherited_by_primitive (target : value) (k : string) : bool :=
  match target with
  | VNum _ => inherited k || existsb (String.eqb k) ["toExponential"; "toFixed"; "toPrecision"]
  | _ => inherited k
  end.

(** The update of the target at the end of [setProperty]:
    [if (target[key] !== value) target[key] = value], on an object.  A key the
    object does not own reads as the method of that name, which no plain
    value is [===] to, or as [undefined]: a new key given [undefined] is not
    created.  Assigning [__proto__] where it is not an own key goes to the
    accessor, which replaces the prototype or does nothing: outside
    plain-object data. *)
Definition assign (o : obj) (key : string) (v : value) : res obj :=
  match get o key with
  | Some x => Ok (if strict_equal x v then o else set o key v)
  | None =>
      if key =? "__proto__" then Err Unmodelled
      else if negb (inherited key) && strict_equal VUndefined v then Ok o
      else Ok (set o key v)
  end.

(** The walk of [setProperty] along the segments [parts] of a dotted key,
    then the update of the last segment [key]: the value [target] is left
    with.  A missing segment is created as [{}]; [o.hasOwnProperty] is no
    function on an object that owns a key of that name.  Reading a property of
    [null] or [undefined] throws, and so does creating one on a boolean or a
    number (the module is strict code); on these the final assignment is
    skipped, as [target[key] !== value] is false, only when the value is
    [undefined] and the key names no method.  Walking through a string or an
    array, or into the prototype through [__proto__], is outside plain-object
    data. *)
Fixpoint set_path (target : value) (parts : list string) (key : string) (v : value)
  : res value :=
  match target with
  | VObj o =>
      match parts with
      | [] => let* o' := assign o key v in Ok (VObj o')
      | i :: rest =>
          if hasOwnProperty o "hasOwnProperty" then Err TypeError
          else if negb (hasOwnProperty o i) && (i =? "__proto__") then Err Unmodelled
          else
            let* inner := set_path (if hasOwnProperty o i then prop o i else VObj [])
                                   rest key v in
            Ok (VObj (set o i inner))
      end
  | VBool _ | VNum _ =>
      match parts with
      | [] => if key =? "__proto__" then Err Unmodelled
              else if strict_equal VUndefined v && negb (inherited_by_primitive target key)
                   then Ok target else Err TypeError
      | i :: _ => if i =? "__proto__" then Err Unmodelled else Err TypeError
      end
  | VUndefined | VNull => Err TypeError
  | VStr _ | VArr _ => Err Unmodelled
  end.

(** [setProperty(object, key, value)], as the object it leaves behind; the
    returned [changed] flag, which no caller in scope reads, is not part of
    the model. *)
Definition setProperty (object : obj) (key : string) (v : value) : res obj :=
  if has_dot key then
    let parts := split_dot key in
    let* updated := set_path (VObj object) (removelast parts) (List.last parts "") v in
    match updated with
    | VObj o => Ok o
    | _ => Err Unmodelled
    end
  else assign object key v.

(** [expandObject(obj, _d)] *)
Fixpoint expandValue (v : value) (_d : nat) {struct v} : res value :=
  match v with
  | VObj entries =>
      if (10 <? _d)%nat then Err MaxDepth
      else
        let* expanded :=
          (fix each (entries : list (string * value)) (expanded : obj) {struct entries}
             : res obj :=
             match entries with
             | [] => Ok expanded
             | (k, v) :: rest =>
                 let* v' := (match v with
                         | VObj _ => expandValue v (S _d)
                         | _ => Ok v
                         end) in
                 let* expanded' := setProperty expanded k v' in
                 each rest expanded'
             end) entries [] in
        Ok (VObj expanded)
  | _ => Ok v
  end.

Definition expandObject (o : obj) : res obj :=
  let* r := expandValue (VObj o) 0 in
  match r with
  | VObj e => Ok e
  | _ => Err Unmodelled
  end.

(** [duplicate(original)]: [JSON.parse(JSON.stringify(original))].  A property
    holding [undefined] is dropped, an array slot holding it becomes [null]. *)
Fixpoint duplicate (v : value) : value :=
  match v with
  | VArr items =>
      VArr ((fix each (items : list value) : list value :=
               match items with
               | [] => []
               | VUndefined :: rest => VNull :: each rest
               | x :: rest => duplicate x :: each rest
               end) items)
  | VObj fields =>
      VObj ((fix each (fields : list (string * value)) : obj :=
               match fields with
               | [] => []
               | (_, VUndefined) :: rest => each rest
               | (k, x) :: rest => (k, duplicate x) :: each rest
               end) fields)
  | _ => v
  end.

Definition duplicate_obj (o : obj) : obj :=
  match duplicate (VObj o) with
  | VObj o' => o'
  | _ => o
  end.

(** [isObjectEmpty(obj)] *)
Definition isObjectEmpty (v : value) : res bool :=
  match v with
  | VObj o => Ok (Nat.eqb (List.length (keys o)) 0)
  | _ => Err NotAnObject
  end.

(** Options bag of [mergeObject]. *)
Record MergeOptions : Type := {
  insertKeys : bool;
  insertValues : bool;
  overwrite : bool;
  inplace : bool;
  enforceTypes : bool
}.

(** The defaults of the destructured third parameter. *)
Definition default_options : MergeOptions :=
  {| insertKeys := true; insertValues := true; overwrite := true;
     inplace := true; enforceTypes := false |}.

(** The loop of [mergeObject] (lines 60-127) at recursion depth [_d]; the
    recursive call of case 1.1 runs one level deeper on the inner objects.
    [other] is the structural argument. *)
Fixpoint merge_loop (o : MergeOptions) (_d : nat) (original : obj) (other : value)
  {struct other} : res obj :=
  match other with
  | VObj entries =>
      let depth := S _d in
      (fix each (entries : list (string * value)) (original : obj) {struct entries}
         : res obj :=
         match entries with
         | [] => Ok original
         | (k0, v) :: rest =>
             let tv := getType v in
             (* Prepare to delete *)
             let k := if is_deletion_key k0 then slice2 k0 else k0 in
             let toDelete := is_deletion_key k0 && strict_equal v VNull in
             (* Get the existing object *)
             let has0 := hasOwnProperty original k in
             (* Ensure that inner objects exist *)
             let ensure := negb has0 && (tv =? "Object") in
             let original := if ensure then set original k (VObj []) else original in
             let x := prop original k in
             let has := has0 || ensure in
             let tx := getType x in
             let* original' :=
               (if has then
                  (* 1.1 - Recursively merge an inner object *)
                  if (tv =? "Object") && (tx =? "Object") then
                    match x with
                    | VObj inner =>
                        let* inner' := merge_loop o depth inner v in
                        Ok (set original k (VObj inner'))
                    | _ => Ok original
                    end
                  (* 1.2 - Remove an existing key *)
                  else if toDelete then Ok (delete original k)
                  (* 1.3 - Overwrite existing value *)
                  else if overwrite o then
                    if negb (tx =? "") && negb (tv =? tx) && enforceTypes o
                    then Err TypeMismatch
                    else Ok (set original k v)
                  (* 1.4 - Insert new value *)
                  else if strict_equal x VUndefined && insertValues o
                  then Ok (set original k v)
                  else Ok original
                (* Case 2 - Key does not exist *)
                else if negb toDelete then
                  if (Nat.eqb depth 1 && insertKeys o) || ((1 <? depth)%nat && insertValues o)
                  then Ok (set original k v)
                  else Ok original
                else Ok original) in
             each rest original'
         end) entries original
  | _ => Err NotObjects
  end.

(** [mergeObject(original, other, options)] called from outside ([_d = 0]):
    the object it returns. *)
Definition mergeObject (original other : obj) (o : MergeOptions) : res obj :=
  (* Maybe copy the original data at depth 0 *)
  let original := if negb (inplace o) then duplicate_obj original else original in
  (* Enforce object expansion at depth 0 *)
  let* original := (if existsb has_dot (keys original) then expandObject original
                else Ok original) in
  let* other := (if existsb has_dot (keys other) then expandObject other else Ok other) in
  merge_loop o 0 original (VObj other).

(** What the caller's own reference to [original] holds once the call has
    returned.  With [inplace] unset the merge ran on a copy; when a key of
    [original] holds a dot the merge ran on the fresh object built by
    [expandObject], which only the return value refers to. *)
Definition mergeObject_inplace (original other : obj) (o : MergeOptions) : res obj :=
  let* merged := mergeObject original other o in
  Ok (if negb (inplace o) || existsb has_dot (keys original) then original else merged).

(** Modelled from the spec: [Array.prototype.equals], which [diffObject] calls
    on two arrays, is defined in none of the sources.  The specification has
    array values "compared by element-wise equality, not reference": equal
    length and equal elements, position by position, the elements compared by
    content (values carry no identity here). *)
Definition equals (v0 v1 : value) : bool :=
  match v0, v1 with
  | VArr a, VArr b => value_eqb (VArr a) (VArr b)
  | _, _ => false
  end.

(** [_difference(v0, v1)] inside [diffObject]; for two objects the
    [fold_left] is the [reduce] of the nested [diffObject] call.  It runs over
    the entries of [v1]: an object holds each key once, so that [other[key]]
    is the value of the entry of [key]. *)
Fixpoint _difference (v0 v1 : value) {struct v1} : bool * value :=
  let t0 := getType v0 in
  let t1 := getType v1 in
  if negb (t0 =? t1) then (true, v1)
  else if t0 =? "Array" then (negb (equals v0 v1), v1)
  else if t0 =? "Object" then
    match v0, v1 with
    | VObj original, VObj other =>
        if negb (Bool.eqb (Nat.eqb (List.length (keys original)) 0)
                          (Nat.eqb (List.length (keys other)) 0))
        then (true, v1)
        else
          let d :=
            fold_left (fun (acc : obj) (entry : string * value) =>
                         let (isDifferent, difference) :=
                           _difference (prop original (fst entry)) (snd entry) in
                         if isDifferent then set acc (fst entry) difference else acc)
                      other [] in
          (negb (Nat.eqb (List.length (keys d)) 0), VObj d)
    | _, _ => (true, v1)
    end
  else (negb (strict_equal v0 v1), v1).

(** The callback of the [reduce] in [diffObject]. *)
Definition diff_step (original : obj) (acc : obj) (entry : string * value) : obj :=
  let (isDifferent, difference) := _difference (prop original (fst entry)) (snd entry) in
  if isDifferent then set acc (fst entry) difference else acc.

(** [diffObject(original, other)] *)
Definition diffObject (original other : obj) : obj :=
  fold_left (diff_step original) other [].

(** Where the walk of [getProperty] and [hasProperty] ends. *)
Inductive reached : Type :=
| Found (v : value)   (* on a value of the data *)
| Builtin             (* on a member of [Object.prototype] *)
| Absent.             (* on a segment that is missing *)

(** The walk shared by [getProperty] and [hasProperty] along the segments
    of the key.  A falsy [target] is replaced by [{}]; [p in target] holds for
    the keys the object owns and for the names it inherits; it throws on a
    primitive and, on an array, answers for indices and [length], outside
    plain-object data, as is a walk that goes on into an inherited member. *)
Fixpoint get_path (target : value) (parts : list string) : res reached :=
  match parts with
  | [] => Ok (Found target)
  | p :: rest =>
      match (if truthy target then target else VObj []) with
      | VObj o =>
          match get o p with
          | Some inner => get_path inner rest
          | None =>
              if inherited p
              then match rest with [] => Ok Builtin | _ :: _ => Err Unmodelled end
              else Ok Absent
          end
      | VArr _ => Err Unmodelled
      | _ => Err TypeError
      end
  end.

(** [getProperty(object, key)]; an inherited member, a function or the
    prototype, is no plain value. *)
Definition getProperty (object : value) (key : string) : res value :=
  if negb (truthy (VStr key)) then Ok VUndefined
  else
    let* r := get_path object (split_dot key) in
    match r with
    | Found v => Ok v
    | Builtin => Err Unmodelled
    | Absent => Ok VUndefined
    end.

(** [hasProperty(object, key)] *)
Definition hasProperty (object : value) (key : string) : res bool :=
  if negb (truthy (VStr key)) then Ok false
  else
    let* r := get_path object (split_dot key) in
    Ok (match r with Found _ | Builtin => true | Absent => false end).

(** ** Permission levels and users *)

(** [ENTITY_PERMISSIONS[name]] of constants.js. *)
Definition ENTITY_PERMISSIONS (name : string) : value :=
  if name =? "NONE" then VNum 0
  else if name =? "LIMITED" then VNum 1
  else if name =? "OBSERVER" then VNum 2
  else if name =? "OWNER" then VNum 3
  else VUndefined.

(** The acting user, [window.game.user]. *)
Record User : Type := { _id : string; isGM : bool }.

(** [Number.isInteger]: every number of the model is integral. *)
Definition isInteger (v : value) : bool :=
  match v with VNum _ => true | _ => false end.

(** ToNumber where it needs no parsing; [None] stands for NaN. *)
Definition to_number (v : value) : res (option Z) :=
  match v with
  | VUndefined => Ok None
  | VNull => Ok (Some 0%Z)
  | VBool b => Ok (Some (if b then 1%Z else 0%Z))
  | VNum n => Ok (Some n)
  | _ => Err Unmodelled
  end.

(** [a >= b] *)
Definition js_ge (a b : value) : res bool :=
  let* x := to_number a in
  let* y := to_number b in
  Ok (match x, y with
      | Some x, Some y => (y <=? x)%Z
      | _, _ => false
      end).

(** [data.length] *)
Definition js_length (v : value) : res value :=
  match v with
  | VArr items => Ok (VNum (Z.of_nat (List.length items)))
  | VStr s => Ok (VNum (Z.of_nat (String.length s)))
  | _ => member v "length"
  end.

(** ** The world: record heap, one collection, observable events *)

(** A location of the record heap. *)
Abbreviation loc := nat (only parsing).

(** An Entity instance: its class, its [data] reference, the applications
    attached to it and the sub-entity arrays cached by
    [prepareEmbeddedEntities]. *)
Record EntityInstance : Type := {
  class_name : string;    (* this.constructor.name *)
  data : loc;
  apps : list string;
  embedded : list (string * list value)
}.

(** The payload of a [modifyDocument] or [modifyEmbeddedDocument] request;
    the two parent fields are meaningful for the latter only. *)
Record Request : Type := {
  type : string;
  action : string;
  payload : value;        (* request.data *)
  options : obj;
  parentType : string;
  parentId : value
}.

(** What the server answers, or pushes: the request echoed, the records (or
    the ids, for a deletion) and the user the change comes from. *)
Record Response : Type := {
  request : Request;
  result : list value;
  userId : string
}.

(** What the code does to the outside: transport dispatches, console
    errors, hook calls and renders of attached applications. *)
Inductive Event : Type :=
| Dispatched (eventName : string) (req : Request)
| ConsoleError (e : error)
| OnCreate (entity : loc)
| OnUpdate (entity : loc)
| OnDeleteEmbedded (parent : loc) (embeddedName : string) (child : value)
| OnModifyEmbedded (parent : loc) (embeddedName : string)
| AppEditable (app : string) (editable : bool)
| AppRendered (app : string).

(** The mutable state: the record objects and the one collection of the
    class at hand, with the events so far. *)
Record World : Type := {
  heap : list obj;                           (* record objects, by location *)
  store : list (value * EntityInstance);     (* the Map of the collection *)
  _source : list loc;                        (* its raw source array *)
  collection_apps : list string;             (* its registered applications *)
  log : list Event
}.

(** A computation returns a value or throws, leaving a world either way. *)
Inductive outcome (A : Type) : Type :=
| Ret (a : A) (w : World)
| Throw (e : error) (w : World).
Arguments Ret {A} a w.
Arguments Throw {A} e w.

(** Computations over the world that may throw. *)
Definition M (A : Type) : Type := World -> outcome A.

Definition ret {A : Type} (a : A) : M A := fun w => Ret a w.

Definition throw {A : Type} (e : error) : M A := fun w => Throw e w.

Definition bind {A B : Type} (m : M A) (f : A -> M B) : M B :=
  fun w => match m w with
           | Ret a w' => f a w'
           | Throw e w' => Throw e w'
           end.

Notation "'let!' x ':=' c 'in' k" := (bind c (fun x => k))
  (at level 10, x name, c at level 100, k at level 200).
Notation "c ';;;' k" := (bind c (fun _ => k))
  (at level 100, k at level 200, right associativity).

Definition lift {A : Type} (r : res A) : M A :=
  match r with
  | Ok a => ret a
  | Err e => throw e
  end.

Definition emit (ev : Event) : M unit :=
  fun w => Ret tt {| heap := heap w; store := store w; _source := _source w;
                     collection_apps := collection_apps w; log := log w ++ [ev] |}.

Definition read (l : loc) : M obj :=
  fun w => match heap w !! l with
           | Some d => Ret d w
           | None => Throw Unmodelled w
           end.

Definition write (l : loc) (d : obj) : M unit :=
  fun w => match heap w !! l with
           | Some _ => Ret tt {| heap := <[l := d]> (heap w); store := store w;
                                 _source := _source w;
                                 collection_apps := collection_apps w; log := log w |}
           | None => Throw Unmodelled w
           end.

(** A fresh record object. *)
Definition alloc (d : obj) : M loc :=
  fun w => Ret (List.length (heap w))
               {| heap := heap w ++ [d]; store := store w; _source := _source w;
                  collection_apps := collection_apps w; log := log w |}.

Fixpoint for_each {A : Type} (f : A -> M unit) (l : list A) : M unit :=
  match l with
  | [] => ret tt
  | x :: rest => f x ;;; for_each f rest
  end.

(** [array.map(f)] with an effectful callback. *)
Fixpoint map_M {A B : Type} (f : A -> M B) (l : list A) : M (list B) :=
  match l with
  | [] => ret []
  | x :: rest => let! y := f x in let! ys := map_M f rest in ret (y :: ys)
  end.

Fixpoint map_res {A B : Type} (f : A -> res B) (l : list A) : res (list B) :=
  match l with
  | [] => Ok []
  | x :: rest => let* y := f x in let* ys := map_res f rest in Ok (y :: ys)
  end.

(** ** Map, the base of Collection *)

Fixpoint map_get (m : list (value * EntityInstance)) (key : value) : option EntityInstance :=
  match m with
  | [] => None
  | (k, e) :: rest => if strict_equal k key then Some e else map_get rest key
  end.

Fixpoint map_set (m : list (value * EntityInstance)) (key : value) (e : EntityInstance)
  : list (value * EntityInstance) :=
  match m with
  | [] => [(key, e)]
  | (k, e') :: rest =>
      if strict_equal k key then (k, e) :: rest else (k, e') :: map_set rest key e
  end.

Fixpoint map_delete (m : list (value * EntityInstance)) (key : value)
  : list (value * EntityInstance) :=
  match m with
  | [] => []
  | (k, e') :: rest =>
      if strict_equal k key then rest else (k, e') :: map_delete rest key
  end.

(** ** Array helpers *)

(** [array.findIndex(find)]; [None] is -1. *)
Fixpoint findIndex {A : Type} (find : A -> bool) (l : list A) : option nat :=
  match l with
  | [] => None
  | x :: rest => if find x then Some 0 else option_map S (findIndex find rest)
  end.

(** [array.splice(idx, 1)], as the array it leaves. *)
Fixpoint splice1 {A : Type} (idx : nat) (l : list A) : list A :=
  match l, idx with
  | [], _ => []
  | _ :: rest, O => rest
  | x :: rest, S i => x :: splice1 i rest
  end.

(** [Array.prototype.findSplice] of entityCollection.js: the item found (or
    [null]) and the array afterwards. *)
Definition findSplice {A : Type} (find : A -> bool) (this : list A) : option A * list A :=
  match findIndex find this with
  | None => (None, this)
  | Some idx => (nth_error this idx, splice1 idx this)
  end.

(** Modelled from the spec: [Array.prototype.partition], which
    [_handleDeleteEmbeddedEntity] calls on the raw embedded array, is defined
    in none of the sources.  The call site destructures its value as
    [[deleted, surviving]] with a rule that answers [true] for the documents
    to keep, and the delete contract of the specification removes exactly the
    ids of the response: the elements failing the rule come first, those
    passing it second, each in array order, the rule being called once per
    element in order. *)
Fixpoint partition {A : Type} (rule : A -> M bool) (this : list A) : M (list A * list A) :=
  match this with
  | [] => ret ([], [])
  | x :: rest =>
      let! test := rule x in
      let! acc := partition rule rest in
      ret (if test then (fst acc, x :: snd acc) else (x :: fst acc, snd acc))
  end.

(** ** entityCollection.js *)

Module EntityCollection.

Definition clear : M unit :=
  fun w => Ret tt {| heap := heap w; store := []; _source := _source w;
                     collection_apps := collection_apps w; log := log w |}.

(** [this.set(key, entity)] *)
Definition set (key : value) (entity : EntityInstance) : M unit :=
  fun w => Ret tt {| heap := heap w; store := map_set (store w) key entity;
                     _source := _source w;
                     collection_apps := collection_apps w; log := log w |}.

(** [this.delete(key)] *)
Definition delete (key : value) : M unit :=
  fun w => Ret tt {| heap := heap w; store := map_delete (store w) key;
                     _source := _source w;
                     collection_apps := collection_apps w; log := log w |}.

Section Construction.

(** [this.object]: the constructor of the Entity class the collection
    stores. *)
Variable object : loc -> M EntityInstance.

Definition _initialize (data : list loc) : M unit :=
  clear ;;;
  for_each (fun d =>
              let! record := read d in
              let! entity := object d in
              set (prop record "_id") entity) data.

(** [new EntityCollection(data)] *)
Definition new (data : list loc) : M unit :=
  (fun w => Ret tt {| heap := heap w; store := []; _source := data;
                      collection_apps := []; log := log w |}) ;;;
  _initialize data.

End Construction.

(** [get(key, {strict})]; [None] is [null]. *)
Definition get (key : value) (strict : bool) : M (option EntityInstance) :=
  fun w => match map_get (store w) key with
           | Some entry => Ret (Some entry) w
           | None => if strict then Throw KeyMissing w else Ret None w
           end.

(** [get entities()] *)
Definition entities (w : World) : list EntityInstance := map snd (store w).

(** [render(...args)] *)
Definition render : M unit :=
  fun w => for_each (fun a => emit (AppRendered a)) (collection_apps w) w.

(** [insert(entity)]; [object_classes] names the classes whose instances
    pass [entity instanceof this.object]. *)
Definition insert (object_classes : list string) (entity : EntityInstance) : M unit :=
  if negb (existsb (String.eqb (class_name entity)) object_classes)
  then throw WrongClass
  else
    let! record := read (data entity) in
    (fun w => Ret tt {| heap := heap w; store := store w;
                        _source := _source w ++ [data entity];
                        collection_apps := collection_apps w; log := log w |}) ;;;
    set (prop record "_id") entity.

(** [remove(id)] *)
Definition remove (id : value) : M unit :=
  (fun w =>
     let find := fun e => match heap w !! e with
                          | Some record => strict_equal (prop record "_id") id
                          | None => false
                          end in
     Ret tt {| heap := heap w; store := store w;
               _source := snd (findSplice find (_source w));
               collection_apps := collection_apps w; log := log w |}) ;;;
  delete id.

(** The loop of [find(condition)] of Collection over the values, in
    insertion order; [None] is [null]. *)
Fixpoint find_value (condition : EntityInstance -> M bool) (values : list EntityInstance)
  : M (option EntityInstance) :=
  match values with
  | [] => ret None
  | e :: rest =>
      let! test := condition e in
      if test : bool then ret (Some e) else find_value condition rest
  end.

(** [find(condition)] *)
Definition find (condition : EntityInstance -> M bool) : M (option EntityInstance) :=
  fun w => find_value condition (entities w) w.

(** [getName(name, {strict})]; [e.name] is [e.data.name], and the error is
    the one of a failed lookup. *)
Definition getName (name : value) (strict : bool) : M (option EntityInstance) :=
  let! entity := find (fun e => let! d := read (data e) in
                                ret (strict_equal (prop d "name") name)) in
  match entity with
  | None => if strict then throw KeyMissing else ret None
  | Some e => ret (Some e)
  end.

End EntityCollection.

(** ** entity.js *)

Module Entity.

(** The object a subclass returns from [static get config()]. *)
Record Config : Type := {
  baseEntity : option string;                 (* config.baseEntity.name *)
  collection : option (list string);          (* config.collection, by the classes it stores *)
  embeddedEntities : list (string * string)   (* embedded type name -> data field *)
}.

(** An Entity class: the abstract members a subclass supplies. *)
Record Class : Type := {
  name : string;
  config : res Config;
  _constructEmbeddedEntity : string -> value -> res value
}.

(** The abstract class itself. *)
Definition base : Class :=
  {| name := "Entity";
     config := Err ConfigMissing;
     _constructEmbeddedEntity := fun _ _ => Err NoConstructEmbedded |}.

(** [embeddedEntities[embeddedName]] *)
Fixpoint lookup_embedded (table : list (string * string)) (embeddedName : string)
  : option string :=
  match table with
  | [] => None
  | (n, c) :: rest => if n =? embeddedName then Some c else lookup_embedded rest embeddedName
  end.

Definition set_embedded (this : EntityInstance) (field : string) (built : list value)
  : EntityInstance :=
  {| class_name := class_name this; data := data this; apps := apps this;
     embedded := (field, built) :: List.filter (fun p => negb (fst p =? field)) (embedded this) |}.

(** ** Permission queries; [this_data] is the object [this.data]. *)

(** [get permission()] *)
Definition permission (this_data : obj) (user : User) : res value :=
  (* Game-masters and Assistants are always owners *)
  if isGM user then Ok (ENTITY_PERMISSIONS "OWNER")
  else
    (* User-specific permission *)
    let* userPerm := member (prop this_data "permission") (_id user) in
    if truthy userPerm then Ok userPerm
    else member (prop this_data "permission") "default".

(** The level [hasPerm] resolves for the user (lines 506-507). *)
Definition resolved_level (permission_map : value) (user : User) : res value :=
  let* level := member permission_map (_id user) in
  if isInteger level then Ok level else member permission_map "default".

(** [hasPerm(user, permission, exact)] *)
Definition hasPerm (this_data : obj) (user : User) (permission : string) (exact : bool)
  : res bool :=
  if negb (truthy (prop this_data "permission")) then Ok (isGM user)
  else
    let* level := resolved_level (prop this_data "permission") user in
    let perm := ENTITY_PERMISSIONS permission in
    if exact then Ok (strict_equal level perm)
    else if isGM user then Ok true
    else js_ge level perm.

(** [get owner()], [get visible()], [get limited()] *)
Definition owner (this_data : obj) (user : User) : res bool :=
  hasPerm this_data user "OWNER" false.

Definition visible (this_data : obj) (user : User) : res bool :=
  hasPerm this_data user "LIMITED" false.

Definition limited (this_data : obj) (user : User) : res bool :=
  if isGM user then Ok false else hasPerm this_data user "LIMITED" true.

Section Methods.

(** [this] of the static methods, [this.constructor] of the others. *)
Variable cls : Class.

(** [static get entity()] *)
Definition entity : res string :=
  let* cfg := config cls in
  match baseEntity cfg with
  | Some n => Ok n
  | None => Err NoBaseEntity
  end.

(** [static get collection()], as the classes the collection stores. *)
Definition collection_of : res (list string) :=
  let* cfg := config cls in
  match collection cfg with
  | Some c => Ok c
  | None => Err NoCollection
  end.

(** [get id()] *)
Definition id (this : EntityInstance) : M value :=
  let! d := read (data this) in ret (prop d "_id").

(** [prepareData()] *)
Definition prepareData (this : EntityInstance) : M unit :=
  let! d := read (data this) in
  if hasOwnProperty d "name" && negb (truthy (prop d "name")) then
    let! entityName := lift entity in
    write (data this) (set d "name" (VStr ("New " ++ entityName)))
  else ret tt.

(** The loop of [prepareEmbeddedEntities()] over the declared embedded
    types: the instance as the loop leaves it, and whether it threw. *)
Fixpoint prepare_each (d : obj) (declared : list (string * string))
  (this : EntityInstance) : EntityInstance * res unit :=
  match declared with
  | [] => (this, Ok tt)
  | (embeddedName, field) :: rest =>
      match prop d field with
      | VArr items =>
          match map_res (_constructEmbeddedEntity cls embeddedName) items with
          | Ok built => prepare_each d rest (set_embedded this field built)
          | Err e => (this, Err e)
          end
      | _ => (this, Err TypeError)
      end
  end.

(** [prepareEmbeddedEntities()] *)
Definition prepareEmbeddedEntities (this : EntityInstance) (w : World)
  : EntityInstance * outcome unit :=
  match config cls with
  | Err e => (this, Throw e w)
  | Ok cfg =>
      match heap w !! data this with
      | None => (this, Throw Unmodelled w)
      | Some d =>
          let '(this', r) := prepare_each d (embeddedEntities cfg) this in
          (this', lift r w)
      end
  end.

(** [initialize()]: the three passes inside [try], the [catch] logging the
    error and swallowing it. *)
Definition initialize (this : EntityInstance) (w : World) : EntityInstance * World :=
  let caught := fun (this : EntityInstance) (e : error) (w : World) =>
    match emit (ConsoleError e) w with
    | Ret _ w' | Throw _ w' => (this, w')
    end in
  match prepareData this w with
  | Throw e w1 => caught this e w1
  | Ret _ w1 =>
      match prepareEmbeddedEntities this w1 with
      | (this1, Throw e w2) => caught this1 e w2
      | (this1, Ret _ w2) =>
          match prepareData this1 w2 with
          | Throw e w3 => caught this1 e w3
          | Ret _ w3 => (this1, w3)
          end
      end
  end.

(** [new this(data)] on a record object already in the heap. *)
Definition new (d : loc) : M EntityInstance :=
  fun w =>
    let '(this, w') :=
      initialize {| class_name := name cls; data := d; apps := []; embedded := [] |} w in
    Ret this w'.

(** [getEmbeddedCollection(embeddedName)] *)
Definition getEmbeddedCollection (this : EntityInstance) (embeddedName : string)
  : M value :=
  let! cfg := lift (config cls) in
  match lookup_embedded (embeddedEntities cfg) embeddedName with
  | Some field =>
      if field =? "" then throw InvalidEmbedded
      else let! d := read (data this) in ret (prop d field)
  | None => throw InvalidEmbedded
  end.

(** [window.game.user] *)
Variable user : User.

(** The server behind the socket: its reply to a request, or an error
    report. *)
Variable server : string -> Request -> res Response.

(** [SocketInterface.dispatch(eventName, request)], awaited. *)
Definition dispatch (eventName : string) (req : Request) : M Response :=
  emit (Dispatched eventName req) ;;;
  lift (server eventName req).

(** [render(force, context)]; [context_data] is [context.data]. *)
Definition render (this : EntityInstance) (context_data : option value) : M unit :=
  let! permChange :=
    match context_data with
    | Some (VObj d) => ret (hasOwnProperty d "permission")
    | Some (VArr _) => ret false
    | Some v => if truthy v then throw TypeError else ret false
    | None => ret false
    end in
  for_each (fun app =>
              (if permChange : bool then
                 let! d := read (data this) in
                 let! editable := lift (owner d user) in
                 emit (AppEditable app editable)
               else ret tt) ;;;
              emit (AppRendered app)) (apps this).

(** What a static method resolves to: an array of Entities, one Entity,
    or [undefined] (the first element of an empty array). *)
Inductive Returned : Type :=
| Entities (es : list EntityInstance)
| One (e : EntityInstance)
| Undefined.

(** [entities[0]] *)
Definition first (es : list EntityInstance) : Returned :=
  match es with
  | e :: _ => One e
  | [] => Undefined
  end.

(** [_onCreate(data, options, userId)]: an empty hook. *)
Definition _onCreate (this : EntityInstance) : M unit :=
  emit (OnCreate (data this)).

(** [static _handleCreate({request, result, userId})] *)
Definition _handleCreate (response : Response) : M (list EntityInstance) :=
  let opts := options (request response) in
  let temporary := prop opts "temporary" in
  (* Prepare created Entities *)
  let! created :=
    map_M (fun record =>
             let! d := match record with
                       | VObj o => alloc o
                       | _ => if truthy record then throw Unmodelled else alloc []
                       end in
             let! created := new d in
             if truthy temporary then ret created
             else
               (* Add it to the EntityCollection *)
               let! classes := lift collection_of in
               EntityCollection.insert classes created ;;;
               (* Trigger follow-up actions and return *)
               _onCreate created ;;;
               ret created) (result response) in
  (* Re-render the parent EntityCollection *)
  (if negb (strict_equal (prop opts "render") (VBool false)) then
     let! _ := lift collection_of in
     let! _ := lift entity in
     EntityCollection.render
   else ret tt) ;;;
  ret created.

(** [static async create(data, options)] *)
Definition create (data : value) (opts : obj) : M Returned :=
  let! entityName := lift entity in
  let! opts := lift (mergeObject [("temporary", VBool false); ("renderSheet", VBool false)]
                                 opts default_options) in
  (* Trigger the Socket workflow *)
  let! response := dispatch "modifyDocument"
                     {| type := entityName; action := "create"; payload := data;
                        options := opts; parentType := ""; parentId := VUndefined |} in
  (* Call the response handler and return the created Entities *)
  let! created := _handleCreate response in
  let! len := lift (js_length data) in
  ret (if strict_equal len (VNum 1) then first created else Entities created).

(** [_onUpdate(data, options, userId)] *)
Definition _onUpdate (this : EntityInstance) (record : value) : M unit :=
  emit (OnUpdate (data this)) ;;;
  prepareData this ;;;
  render this (Some record).

(** The second argument of [mergeObject] as the function sees it after
    [other = other || {}] and the [instanceof Object] test. *)
Definition merge_other (v : value) : res obj :=
  if negb (truthy v) then Ok []
  else match v with
       | VObj o => Ok o
       | VArr _ => Err Unmodelled
       | _ => Err NotObjects
       end.

(** The apply step of [_handleUpdate] (lines 799-801): merge the record
    into the live data in place, then re-assign the permission map. *)
Definition apply_update (this : EntityInstance) (record : value) : M unit :=
  let! d := read (data this) in
  let! other := lift (merge_other record) in
  let! merged := lift (mergeObject_inplace d other default_options) in
  write (data this) merged ;;;
  let! incoming := lift (member record "permission") in
  if truthy incoming && truthy (prop merged "permission")
  then write (data this) (set merged "permission" incoming)
  else ret tt.

(** [static _handleUpdate({request, result, userId})] *)
Definition _handleUpdate (response : Response) : M (list EntityInstance) :=
  let opts := options (request response) in
  let! _ := lift collection_of in
  (* Prepare updated Entities *)
  let! updated :=
    map_M (fun record =>
             (* Get and update the Entity data *)
             let! key := lift (member record "_id") in
             let! found := EntityCollection.get key true in
             match found with
             | Some live =>
                 apply_update live record ;;;
                 (* Trigger follow-up actions and return *)
                 _onUpdate live record ;;;
                 ret live
             | None => throw KeyMissing
             end) (result response) in
  (* Re-render the parent EntityCollection *)
  (if negb (strict_equal (prop opts "render") (VBool false)) then
     let! _ := lift collection_of in
     let! _ := lift entity in
     EntityCollection.render
   else ret tt) ;;;
  ret updated.

(** The [reduce] of [update] over the requested update data. *)
Fixpoint stage_updates (opts : obj) (items : list value) (arr : list value)
  : M (list value) :=
  match items with
  | [] => ret arr
  | d :: rest =>
      (* Get the Entity being updated *)
      let! key := lift (member d "_id") in
      if negb (truthy key) then throw MissingId
      else
        let! found := EntityCollection.get key true in
        match found with
        | None => throw KeyMissing
        | Some live =>
            (* Diff the update against the current data *)
            if truthy (prop opts "diff") then
              let! current := read (data live) in
              let! given := lift (match d with VObj o => Ok o | _ => Err Unmodelled end) in
              let! expanded := lift (expandObject given) in
              let changes := diffObject current expanded in
              let! empty := lift (isObjectEmpty (VObj changes)) in
              if empty : bool then stage_updates opts rest arr
              else
                let! key' := id live in
                (* Stage the update *)
                stage_updates opts rest (arr ++ [VObj (set changes "_id" key')])
            else stage_updates opts rest (arr ++ [d])
        end
  end.

(** [static async update(data, options)] *)
Definition update (data : value) (opts : obj) : M Returned :=
  let! entityName := lift entity in
  let! _ := lift collection_of in
  let! opts := lift (mergeObject [("diff", VBool true)] opts default_options) in
  (* Iterate over requested update data *)
  let items := match data with VArr items => items | _ => [data] end in
  let! updates := stage_updates opts items [] in
  if Nat.eqb (List.length updates) 0 then ret (Entities [])
  else
    (* Trigger the Socket workflow *)
    let! response := dispatch "modifyDocument"
                       {| type := entityName; action := "update"; payload := VArr updates;
                          options := opts; parentType := ""; parentId := VUndefined |} in
    (* Call the response handler and return the created Entities *)
    let! updated := _handleUpdate response in
    ret (if Nat.eqb (List.length items) 1 then first updated else Entities updated).

(** [_onDeleteEmbeddedEntity(embeddedName, child, options, userId)]: an
    empty hook. *)
Definition _onDeleteEmbeddedEntity (this : EntityInstance) (embeddedName : string)
  (child : value) : M unit :=
  emit (OnDeleteEmbedded (data this) embeddedName child).

(** [_onModifyEmbeddedEntity(embeddedName, changes, options, userId, context)] *)
Definition _onModifyEmbeddedEntity (this : EntityInstance) (embeddedName : string)
  : M unit :=
  emit (OnModifyEmbedded (data this) embeddedName) ;;;
  prepareData this ;;;
  render this None.

(** [static _handleDeleteEmbeddedEntity({request, result, userId})] *)
Definition _handleDeleteEmbeddedEntity (response : Response) : M (list value) :=
  let req := request response in
  let! _ := lift collection_of in
  let! found := EntityCollection.get (parentId req) false in
  match found with
  | None => throw TypeError
  | Some parent =>
      let! embeddedArray := getEmbeddedCollection parent (type req) in
      (* Structure the pending updates *)
      let deletions := result response in
      match embeddedArray with
      | VArr docs =>
          (* Update children in the collection *)
          let! parts :=
            partition (fun doc =>
                         let! key := lift (member doc "_id") in
                         if negb (existsb (strict_equal key) deletions) then ret true
                         else _onDeleteEmbeddedEntity parent (type req) doc ;;; ret false)
                      docs in
          let deleted := fst parts in
          let surviving := snd parts in
          (* Assign the updated collection *)
          let! cfg := lift (config cls) in
          let collectionName :=
            match lookup_embedded (embeddedEntities cfg) (type req) with
            | Some field => field
            | None => "undefined"
            end in
          let! d := read (data parent) in
          write (data parent) (set d collectionName (VArr surviving)) ;;;
          (* Trigger overall modification of the parent *)
          _onModifyEmbeddedEntity parent (type req) ;;;
          ret deleted
      | _ => throw TypeError
      end
  end.

(** [a.close({submit: false})] for an attached application: code of the
    Application classes, outside the entity core. *)
Variable close : string -> M unit.

(** [_onDelete(options, userId)] *)
Definition _onDelete (this : EntityInstance) : M unit :=
  for_each close (apps this).

(** [static _handleDelete({request, result, userId})] *)
Definition _handleDelete (response : Response) : M (list EntityInstance) :=
  let opts := options (request response) in
  let! _ := lift collection_of in
  (* Handle deleting all *)
  let! ids := (fun w => Ret (if truthy (prop opts "deleteAll")
                             then map fst (store w)
                             else result response) w) in
  (* Prepare deleted Entities *)
  let! entities :=
    map_M (fun key =>
             (* Get and update the Entity data *)
             let! found := EntityCollection.get key true in
             match found with
             | Some live =>
                 EntityCollection.remove key ;;;
                 (* Trigger follow-up actions and return *)
                 _onDelete live ;;;
                 ret live
             | None => throw KeyMissing
             end) ids in
  (* Re-render the parent EntityCollection *)
  (if negb (strict_equal (prop opts "render") (VBool false)) then
     let! _ := lift collection_of in
     let! _ := lift entity in
     EntityCollection.render
   else ret tt) ;;;
  ret entities.

(** [static async delete(data, options)] *)
Definition delete (data : value) (opts : obj) : M Returned :=
  let! entityName := lift entity in
  let! opts := lift (mergeObject [("temporary", VBool false); ("renderSheet", VBool false)]
                                 opts default_options) in
  (* Iterate over data to create *)
  let ids := match data with VArr items => items | _ => [data] end in
  for_each (fun d =>
              let! _ := lift collection_of in
              let! _ := EntityCollection.get d true in
              ret tt) ids ;;;
  (* Trigger the Socket workflow *)
  let! response := dispatch "modifyDocument"
                     {| type := entityName; action := "delete"; payload := VArr ids;
                        options := opts; parentType := ""; parentId := VUndefined |} in
  (* Call the response handler and return the deleted Entities *)
  let! entities := _handleDelete response in
  ret (if Nat.eqb (List.length ids) 1 then first entities else Entities entities).



(** [_onCreateEmbeddedEntity(embeddedName, child, options, userId)] and
    [_onUpdateEmbeddedEntity(embeddedName, child, updateData, options,
    userId)]: the bodies are empty. *)
Definition _onCreateEmbeddedEntity (this : EntityInstance) (embeddedName : string)
  (child : value) : M unit :=
  ret tt.

Definition _onUpdateEmbeddedEntity (this : EntityInstance) (embeddedName : string)
  (child : value) : M unit :=
  ret tt.

(** [embedded[0]] or [embedded], as the embedded methods return. *)
Definition first_or_all (single : bool) (embedded : list value) : value :=
  if single then nth 0 embedded VUndefined else VArr embedded.

(** [static _handleCreateEmbeddedEntity({request, result, userId})].  The
    [push] is on the array the parent data holds under the field of the
    embedded type. *)
Definition _handleCreateEmbeddedEntity (response : Response) : M (list value) :=
  let req := request response in
  let temporary := prop (options req) "temporary" in
  let! _ := lift collection_of in
  let! found := EntityCollection.get (parentId req) false in
  match found with
  | None => throw TypeError
  | Some parent =>
      let! embeddedArray := getEmbeddedCollection parent (type req) in
      (* Return temporary data directly *)
      if truthy temporary then ret (result response)
      else
        match embeddedArray with
        | VArr docs =>
            (* Add the created data into the collection *)
            let! cfg := lift (config cls) in
            match lookup_embedded (embeddedEntities cfg) (type req) with
            | None => throw InvalidEmbedded
            | Some field =>
                let! d := read (data parent) in
                write (data parent) (set d field (VArr (docs ++ result response))) ;;;
                (* Trigger follow-up actions for each created EmbeddedEntity *)
                for_each (_onCreateEmbeddedEntity parent (type req)) (result response) ;;;
                _onModifyEmbeddedEntity parent (type req) ;;;
                (* Log creation *)
                (if (List.length (result response) <=? 5)%nat
                 then for_each (fun r => let! _ := lift (member r "_id") in ret tt)
                               (result response)
                 else ret tt) ;;;
                (* Return the created results *)
                ret (result response)
            end
        | _ => throw TypeError
        end
  end.


(** A [Map] keyed by [_id] values, as the [pending] maps of the embedded
    update use it: the entries in the order they were set, a lookup finding
    the last one set under the key. *)
Fixpoint pending_get (pending : list (value * value)) (key : value) : option value :=
  match pending with
  | [] => None
  | (k, d) :: rest =>
      match pending_get rest key with
      | Some later => Some later
      | None => if strict_equal k key then Some d else None
      end
  end.

(** The first argument of [mergeObject] as the function sees it through
    the [instanceof Object] test. *)
Definition merge_original (v : value) : res obj :=
  match v with
  | VObj o => Ok o
  | VArr _ => Err Unmodelled
  | _ => Err NotObjects
  end.

(** The loop of [_handleUpdateEmbeddedEntity] over the embedded array:
    [done] holds the documents already visited, [todo] those still to come.
    A merge changes the document inside the array the parent data holds, so
    that what was merged stays merged when a later document throws. *)
Fixpoint update_children (this : EntityInstance) (embeddedName field : string)
  (pending : list (value * value)) (done todo : list value) : M unit :=
  match todo with
  | [] => ret tt
  | doc :: rest =>
      let! key := lift (member doc "_id") in
      match pending_get pending key with
      | None => update_children this embeddedName field pending (done ++ [doc]) rest
      | Some record =>
          (* Update the data *)
          let! original := lift (merge_original doc) in
          let! other := lift (merge_other record) in
          let! merged := lift (mergeObject_inplace original other default_options) in
          let! d := read (data this) in
          write (data this) (set d field (VArr (done ++ VObj merged :: rest))) ;;;
          (* Trigger follow-up actions *)
          _onUpdateEmbeddedEntity this embeddedName (VObj merged) ;;;
          update_children this embeddedName field pending (done ++ [VObj merged]) rest
      end
  end.

(** [static _handleUpdateEmbeddedEntity({request, result, userId})] *)
Definition _handleUpdateEmbeddedEntity (response : Response) : M (list value) :=
  let req := request response in
  let! _ := lift collection_of in
  let! found := EntityCollection.get (parentId req) false in
  match found with
  | None => throw TypeError
  | Some parent =>
      let! embeddedArray := getEmbeddedCollection parent (type req) in
      (* Structure the pending updates *)
      let! pending := lift (map_res (fun d => let* key := member d "_id" in Ok (key, d))
                                    (result response)) in
      match embeddedArray with
      | VArr docs =>
          (* Update children in the collection *)
          let! cfg := lift (config cls) in
          match lookup_embedded (embeddedEntities cfg) (type req) with
          | None => throw InvalidEmbedded
          | Some field =>
              update_children parent (type req) field pending [] docs ;;;
              (* Trigger overall modification of the parent *)
              _onModifyEmbeddedEntity parent (type req) ;;;
              (* Return the created results *)
              ret (result response)
          end
      | _ => throw TypeError
      end
  end.

(** The loop of [updateEmbeddedEntity] that structures the update data. *)
Fixpoint stage_pending (items : list value) (pending : list (value * value))
  : res (list (value * value)) :=
  match items with
  | [] => Ok pending
  | d :: rest =>
      let* key := member d "_id" in
      if negb (truthy key) then Err MissingId
      else stage_pending rest (pending ++ [(key, d)])
  end.

(** The [reduce] of [updateEmbeddedEntity] over the embedded array. *)
Fixpoint stage_embedded_updates (opts : obj) (pending : list (value * value))
  (docs : list value) (arr : list value) : res (list value) :=
  match docs with
  | [] => Ok arr
  | d :: rest =>
      let* key := member d "_id" in
      match pending_get pending key with
      | None => stage_embedded_updates opts pending rest arr
      | Some item =>
          (* Diff the update against current data *)
          if truthy (prop opts "diff") then
            let* current := (match d with VObj o => Ok o | _ => Err Unmodelled end) in
            let* given := (match item with VObj o => Ok o | _ => Err Unmodelled end) in
            let* expanded := expandObject given in
            let changes := diffObject current expanded in
            let* empty := isObjectEmpty (VObj changes) in
            if empty : bool then stage_embedded_updates opts pending rest arr
            else
              (* Stage the update *)
              stage_embedded_updates opts pending rest
                                     (arr ++ [VObj (set changes "_id" key)])
          else stage_embedded_updates opts pending rest (arr ++ [item])
      end
  end.

(** [async updateEmbeddedEntity(embeddedName, data, options)] *)
Definition updateEmbeddedEntity (this : EntityInstance) (embeddedName : string)
  (data : value) (opts : obj) : M value :=
  let! embeddedArray := getEmbeddedCollection this embeddedName in
  let! opts := lift (mergeObject [("diff", VBool true)] opts default_options) in
  (* Structure the update data *)
  let items := match data with VArr items => items | _ => [data] end in
  let! pending := lift (stage_pending items []) in
  (* Difference each update against existing data *)
  let! updates := match embeddedArray with
                  | VArr docs => lift (stage_embedded_updates opts pending docs [])
                  | _ => throw TypeError
                  end in
  if Nat.eqb (List.length updates) 0 then ret (VArr [])
  else
    (* Trigger the Socket workflow *)
    let! entityName := lift entity in
    let! parent_id := id this in
    let! response := dispatch "modifyEmbeddedDocument"
                       {| type := embeddedName; action := "update";
                          payload := VArr updates; options := opts;
                          parentType := entityName; parentId := parent_id |} in
    (* Call the response handler and return the created Entities *)
    let! embedded := _handleUpdateEmbeddedEntity response in
    ret (first_or_all (Nat.eqb (List.length items) 1) embedded).

(** The [reduce] of [deleteEmbeddedEntity] over the embedded array:
    [ids.has(d._id)] on the [Set] of the requested ids. *)
Fixpoint stage_deletions (ids : list value) (docs : list value) (arr : list value)
  : res (list value) :=
  match docs with
  | [] => Ok arr
  | d :: rest =>
      let* key := member d "_id" in
      if negb (existsb (strict_equal key) ids) then stage_deletions ids rest arr
      else
        (* Add the id to the pending array *)
        stage_deletions ids rest (arr ++ [key])
  end.

(** [async deleteEmbeddedEntity(embeddedName, data, options)] *)
Definition deleteEmbeddedEntity (this : EntityInstance) (embeddedName : string)
  (data : value) (opts : obj) : M value :=
  let! embeddedArray := getEmbeddedCollection this embeddedName in
  (* Structure the input data *)
  let ids := match data with VArr items => items | _ => [data] end in
  (* Iterate over elements of the collection *)
  let! deletions := match embeddedArray with
                    | VArr docs => lift (stage_deletions ids docs [])
                    | _ => throw TypeError
                    end in
  if Nat.eqb (List.length deletions) 0 then ret (VArr [])
  else
    (* Trigger the Socket workflow *)
    let! entityName := lift entity in
    let! parent_id := id this in
    let! response := dispatch "modifyEmbeddedDocument"
                       {| type := embeddedName; action := "delete";
                          payload := VArr deletions; options := opts;
                          parentType := entityName; parentId := parent_id |} in
    (* Call the response handler and return the created Entities *)
    let! embedded := _handleDeleteEmbeddedEntity response in
    ret (first_or_all (Nat.eqb (List.length deletions) 1) embedded).

End Methods.

End Entity.

(** ** A configured class and a small world, used by the examples *)

(** An Actor-like subclass: one embedded type, kept in the field [items]. *)
Definition Actor : Entity.Class :=
  {| Entity.name := "Actor";
     Entity.config := Ok {| Entity.baseEntity := Some "Actor";
                            Entity.collection := Some ["Actor"];
                            Entity.embeddedEntities := [("OwnedItem", "items")] |};
     Entity._constructEmbeddedEntity := fun _ d => Ok d |}.

Definition hero : obj :=
  [("_id", VStr "a1"); ("name", VStr "Hero");
   ("items", VArr [VObj [("_id", VStr "i1"); ("name", VStr "Sword")];
                   VObj [("_id", VStr "i2"); ("name", VStr "Shield")]]);
   ("permission", VObj [("default", VNum 0); ("u1", VNum 3)])].

(** A record without the [items] array an Actor needs. *)
Definition malformed : obj := [("_id", VStr "a2"); ("name", VStr "")].

Definition mage : obj :=
  [("_id", VStr "a3"); ("name", VStr "Mage"); ("items", VArr [])].

Definition empty_world : World :=
  {| heap := []; store := []; _source := []; collection_apps := []; log := [] |}.

(** The snapshot records in the heap, before any collection is built. *)
Definition snapshot : World :=
  {| heap := [hero; malformed; mage]; store := []; _source := [];
     collection_apps := []; log := [] |}.

(** The world once [new EntityCollection(data)] has run on the snapshot. *)
Definition bootstrapped : World :=
  match EntityCollection.new (Entity.new Actor) [0; 1; 2] snapshot with
  | Ret _ w | Throw _ w => w
  end.

Definition player : User := {| _id := "u1"; isGM := false |}.

(** A server that answers every request with one created record. *)
Definition one_record_server (eventName : string) (req : Request) : res Response :=
  Ok {| request := req;
        result := [VObj [("_id", VStr "a9"); ("name", VStr "Hero"); ("items", VArr [])]];
        userId := "u1" |}.

(** ** Predicates used in the statements *)

(** No key occurs twice. *)
Fixpoint distinct (ks : list string) : bool :=
  match ks with
  | [] => true
  | k :: rest => negb (existsb (String.eqb k) rest) && distinct rest
  end.

(** A JavaScript object holds each key once: this holds of every object of a
    value, as far as objects nest directly in objects (merge and diff never
    look inside arrays). *)
Fixpoint well_formed (v : value) : bool :=
  match v with
  | VObj fs => distinct (keys fs) && forallb (fun kv => well_formed (snd kv)) fs
  | _ => true
  end.

(** No key of the value, at any depth of object nesting, starts with ["-="]. *)
Fixpoint no_deletion_keys (v : value) : bool :=
  match v with
  | VObj fs =>
      forallb (fun kv => negb (is_deletion_key (fst kv)) && no_deletion_keys (snd kv)) fs
  | _ => true
  end.

(** No top-level key holds a dot. *)
Definition undotted (o : obj) : bool := negb (existsb has_dot (keys o)).

(** [includes b r]: every key of [b] is present in [r] with the value [b]
    gives it, recursively where that value is an object. *)
Fixpoint includes (b r : value) {struct b} : bool :=
  match b with
  | VObj bf =>
      match r with
      | VObj rf =>
          forallb (fun kv => match get rf (fst kv) with
                             | Some x => includes (snd kv) x
                             | None => false
                             end) bf
      | _ => false
      end
  | _ => value_eqb b r
  end.

(** [keeps a r]: every value of [a] other than [undefined] is still in [r],
    under the same key, recursively where it is an object. *)
Fixpoint keeps (a r : value) {struct a} : bool :=
  match a with
  | VUndefined => true
  | VObj af =>
      match r with
      | VObj rf =>
          forallb (fun kv => match get rf (fst kv) with
                             | Some y => keeps (snd kv) y
                             | None => strict_equal (snd kv) VUndefined
                             end) af
      | _ => false
      end
  | _ => value_eqb a r
  end.

(** A value compared by content by [===] and by [Map]. *)
Definition primitive (v : value) : bool :=
  match v with
  | VArr _ | VObj _ => false
  | _ => true
  end.

(** [d._id] for the record at location [d]. *)
Definition record_id (w : World) (d : loc) : value :=
  match heap w !! d with
  | Some record => prop record "_id"
  | None => VUndefined
  end.

(** [w'] differs from [w] at most in fields of records other than [_id] and
    in the log. *)
Definition same_records (w w' : World) : Prop :=
  store w' = store w /\ _source w' = _source w
  /\ collection_apps w' = collection_apps w
  /\ List.length (heap w') = List.length (heap w)
  /\ forall l, record_id w' l = record_id w l.


(** [doc._id] for an embedded record. *)
Definition child_id (doc : value) : value :=
  match doc with
  | VObj o => prop o "_id"
  | _ => VUndefined
  end.

(** Whether the id of an embedded record is among the deleted ids. *)
Definition doomed (deletions : list value) (doc : value) : bool :=
  existsb (strict_equal (child_id doc)) deletions.

(** The world with more events logged. *)
Definition add_log (w : World) (events : list Event) : World :=
  {| heap := heap w; store := store w; _source := _source w;
     collection_apps := collection_apps w; log := log w ++ events |}.

(** One iteration of the loop of [mergeObject], and the loop over a list of
    entries: [merge_loop] on an object unfolds to the latter. *)
Definition merge_entry (o : MergeOptions) (_d : nat) (original : obj) (k0 : string)
  (v : value) : res obj :=
  let depth := S _d in
  let tv := getType v in
  let k := if is_deletion_key k0 then slice2 k0 else k0 in
  let toDelete := is_deletion_key k0 && strict_equal v VNull in
  let has0 := hasOwnProperty original k in
  let ensure := negb has0 && (tv =? "Object") in
  let original := if ensure then set original k (VObj []) else original in
  let x := prop original k in
  let has := has0 || ensure in
  let tx := getType x in
  if has then
    if (tv =? "Object") && (tx =? "Object") then
      match x with
      | VObj inner =>
          let* inner' := merge_loop o depth inner v in
          Ok (set original k (VObj inner'))
      | _ => Ok original
      end
    else if toDelete then Ok (delete original k)
    else if overwrite o then
      if negb (tx =? "") && negb (tv =? tx) && enforceTypes o
      then Err TypeMismatch
      else Ok (set original k v)
    else if strict_equal x VUndefined && insertValues o
    then Ok (set original k v)
    else Ok original
  else if negb toDelete then
    if (Nat.eqb depth 1 && insertKeys o) || ((1 <? depth)%nat && insertValues o)
    then Ok (set original k v)
    else Ok original
  else Ok original.

Fixpoint merge_entries (o : MergeOptions) (_d : nat) (original : obj)
  (entries : list (string * value)) : res obj :=
  match entries with
  | [] => Ok original
  | (k0, v) :: rest =>
      let* original' := merge_entry o _d original k0 v in
      merge_entries o _d original' rest
  end.

(** What the merges into the value under one key are known to do, when that
    value is an object: they return, and the result includes the value. *)
Definition merges_into (o : MergeOptions) (v : value) : Prop :=
  forall _d original fs, v = VObj fs ->
    exists merged, merge_entries o _d original fs = Ok merged
                   /\ includes v (VObj merged) = true.

(** [Keeps a r], the relation [keeps] decides on well-formed values: what [a]
    holds, [undefined] apart, [r] still holds. *)
Unset Elimination Schemes.
Inductive Keeps : value -> value -> Prop :=
| Keeps_undefined (r : value) : Keeps VUndefined r
| Keeps_object (af rf : obj) :
    (forall k x, get af k = Some x -> x <> VUndefined ->
                 exists y, get rf k = Some y /\ Keeps x y) ->
    Keeps (VObj af) (VObj rf)
| Keeps_same (a : value) : Keeps a a.
Set Elimination Schemes.

(** What the merges into the value under one key are known to do when
    nothing may be overwritten: they return, and keep the original. *)
Definition merges_keeping (o : MergeOptions) (v : value) : Prop :=
  forall _d original fs, v = VObj fs ->
    exists merged, merge_entries o _d original fs = Ok merged
                   /\ Keeps (VObj original) (VObj merged).

(** The loop of [expandObject] at depth [_d] over a list of entries:
    [expandValue] on an object unfolds to it. *)
Fixpoint expand_entries (_d : nat) (entries : list (string * value)) (expanded : obj)
  : res obj :=
  match entries with
  | [] => Ok expanded
  | (k, v) :: rest =>
      let* v' := (match v with
              | VObj _ => expandValue v (S _d)
              | _ => Ok v
              end) in
      let* expanded' := setProperty expanded k v' in
      expand_entries _d rest expanded'
  end.

(** How deep objects nest in objects: 0 for what is no object. *)
Fixpoint nesting (v : value) : nat :=
  match v with
  | VObj fs => S (fold_right (fun kv m => Nat.max (nesting (snd kv)) m) 0 fs)
  | _ => 0
  end.

(** No key of the value, at any depth of object nesting, holds a dot or is
    [__proto__]. *)
Fixpoint plain_keys (v : value) : bool :=
  match v with
  | VObj fs =>
      forallb (fun kv => negb (has_dot (fst kv)) && negb (fst kv =? "__proto__")
                         && plain_keys (snd kv)) fs
  | _ => true
  end.

(** No property holds [undefined], at any depth of object nesting. *)
Fixpoint all_defined (v : value) : bool :=
  match v with
  | VObj fs =>
      forallb (fun kv => negb (strict_equal (snd kv) VUndefined) && all_defined (snd kv)) fs
  | _ => true
  end.

(** A value without the properties that hold [undefined], at any depth of
    object nesting; such a property is kept where its key names a member of
    [Object.prototype]. *)
Fixpoint copied (v : value) : value :=
  match v with
  | VObj fs =>
      VObj (flat_map (fun kv =>
                        if strict_equal VUndefined (snd kv) && negb (inherited (fst kv))
                        then [] else [(fst kv, copied (snd kv))]) fs)
  | _ => v
  end.

Definition copied_fields (fs : obj) : obj :=
  flat_map (fun kv =>
              if strict_equal VUndefined (snd kv) && negb (inherited (fst kv))
              then [] else [(fst kv, copied (snd kv))]) fs.

(** No object nested in the value is empty, nor is the value itself when it
    is an object. *)
Fixpoint filled (v : value) : bool :=
  match v with
  | VObj fs => negb (Nat.eqb (List.length fs) 0) && forallb (fun kv => filled (snd kv)) fs
  | _ => true
  end.

(** Data that JSON can carry: no [undefined], at any depth of arrays and
    objects. *)
Fixpoint json (v : value) : bool :=
  match v with
  | VUndefined => false
  | VArr items => forallb json items
  | VObj fs => forallb (fun kv => json (snd kv)) fs
  | _ => true
  end.

(** The entries [diffObject] keeps, as a comprehension over the entries of
    [other]: for an [other] with distinct keys, the [reduce] builds this
    list. *)
Definition diff_list (original : obj) (other : list (string * value)) : obj :=
  flat_map (fun entry =>
              let (isDifferent, difference) :=
                _difference (prop original (fst entry)) (snd entry) in
              if isDifferent then [(fst entry, difference)] else []) other.

(** What [duplicate] does to the items of an array and to the properties of
    an object, as comprehensions: [duplicate] on an array or an object unfolds
    to them. *)
Definition duplicate_items (items : list value) : list value :=
  map (fun x => match x with VUndefined => VNull | _ => duplicate x end) items.

Definition duplicate_fields (fields : list (string * value)) : obj :=
  flat_map (fun kv => match snd kv with
                      | VUndefined => []
                      | x => [(fst kv, duplicate x)]
                      end) fields.

(** [w'] holds the collection [w] holds: the same store, raw source array
    and registered applications, over a heap of the same size. *)
Definition same_collection (w w' : World) : Prop :=
  store w' = store w /\ _source w' = _source w
  /\ collection_apps w' = collection_apps w
  /\ List.length (heap w') = List.length (heap w).

(** A computation that keeps the collection, whether it returns or throws. *)
Definition keeps_collection {A : Type} (m : M A) : Prop :=
  forall w, match m w with
            | Ret _ w' | Throw _ w' => same_collection w w'
            end.

(** No two of the values are equal for [===]. *)
Fixpoint distinct_values (vs : list value) : bool :=
  match vs with
  | [] => true
  | v :: rest => negb (existsb (strict_equal v) rest) && distinct_values rest
  end.

(** An application whose [close] returns and leaves the records and the
    collection alone. *)
Definition benign (close : string -> M unit) : Prop :=
  forall a w, exists w', close a w = Ret tt w'
                         /\ heap w' = heap w /\ store w' = store w
                         /\ _source w' = _source w
                         /\ collection_apps w' = collection_apps w.

(** What the embedded update handler makes of a document: the document
    itself when no record of the response carries its [_id], and otherwise the
    merge of the last such record into it. *)
Definition merged_child (pending : list (value * value)) (doc doc' : value) : Prop :=
  match Entity.pending_get pending (child_id doc) with
  | None => doc' = doc
  | Some record =>
      exists o r merged,
        doc = VObj o /\ record = VObj r
        /\ mergeObject o r default_options = Ok merged /\ doc' = VObj merged
  end.

(** * Properties *)

(** ** Induction over nested values *)

Lemma value_nested_ind (P : value -> Prop) :
  P VUndefined -> P VNull ->
  (forall b, P (VBool b)) -> (forall n, P (VNum n)) -> (forall s, P (VStr s)) ->
  (forall items, Forall P items -> P (VArr items)) ->
  (forall fields, Forall (fun kv => P (snd kv)) fields -> P (VObj fields)) ->
  forall v, P v.
Proof.
  intros Hu Hn Hb Hz Hs Ha Ho.
  fix IH 1.
  intros [ | | b | n | s | items | fields ];
    [ exact Hu | exact Hn | apply Hb | apply Hz | apply Hs | apply Ha | apply Ho ].
  - induction items as [ | x xs IHxs ]; constructor; [apply IH | exact IHxs].
  - induction fields as [ | [k x] fs IHfs ]; constructor; [apply IH | exact IHfs].
Qed.

(** ** Own properties *)

Lemma get_set_same (o : obj) (k : string) (v : value) : get (set o k v) k = Some v.
Proof.
  induction o as [ | [k' v'] rest IH ]; simpl.
  - now rewrite String.eqb_refl.
  - destruct (String.eqb_spec k' k) as [-> | Hne]; simpl.
    + now rewrite String.eqb_refl.
    + apply String.eqb_neq in Hne. now rewrite Hne.
Qed.

Lemma get_set_other (o : obj) (k k' : string) (v : value) :
  k <> k' -> get (set o k v) k' = get o k'.
Proof.
  intros Hne. induction o as [ | [j x] rest IH ]; simpl.
  - apply String.eqb_neq in Hne. now rewrite Hne.
  - destruct (String.eqb_spec j k) as [-> | Hjk]; simpl.
    + apply String.eqb_neq in Hne. now rewrite Hne.
    + now rewrite IH.
Qed.

Lemma get_delete_same (o : obj) (k : string) : get (delete o k) k = None.
Proof.
  induction o as [ | [j x] rest IH ]; simpl; auto.
  destruct (String.eqb_spec j k) as [-> | Hjk]; simpl; auto.
  apply String.eqb_neq in Hjk. now rewrite Hjk.
Qed.

Lemma get_delete_other (o : obj) (k k' : string) :
  k <> k' -> get (delete o k) k' = get o k'.
Proof.
  intros Hne. induction o as [ | [j x] rest IH ]; simpl; auto.
  destruct (String.eqb_spec j k) as [-> | Hjk]; simpl.
  - apply String.eqb_neq in Hne. now rewrite Hne.
  - now rewrite IH.
Qed.

Lemma get_In (o : obj) (k : string) (v : value) : get o k = Some v -> In (k, v) o.
Proof.
  induction o as [ | [j x] rest IH ]; simpl; [discriminate | ].
  destruct (String.eqb_spec j k) as [-> | Hjk].
  - intros [= ->]. now left.
  - intros H. right. auto.
Qed.

Lemma get_None_keys (o : obj) (k : string) : get o k = None <-> ~ In k (keys o).
Proof.
  induction o as [ | [j x] rest IH ]; simpl.
  - split; auto.
  - destruct (String.eqb_spec j k) as [-> | Hjk].
    + split; [discriminate | intros H; exfalso; apply H; now left].
    + rewrite IH. split; [intros H [E | E]; auto | intros H E; apply H; now right].
Qed.

Lemma existsb_eqb_In (k : string) (ks : list string) :
  existsb (String.eqb k) ks = true <-> In k ks.
Proof.
  rewrite existsb_exists. split.
  - intros [x [Hin Heq]]. apply String.eqb_eq in Heq. now subst.
  - intros Hin. exists k. split; auto. apply String.eqb_refl.
Qed.

Lemma distinct_In_get (o : obj) (k : string) (v : value) :
  distinct (keys o) = true -> In (k, v) o -> get o k = Some v.
Proof.
  induction o as [ | [j x] rest IH ]; simpl; [intros _ [] | ].
  intros Hd [E | Hin].
  - inversion E; subst. now rewrite String.eqb_refl.
  - apply andb_prop in Hd as [Hj Hd].
    destruct (String.eqb_spec j k) as [-> | Hjk]; auto.
    exfalso. apply negb_true_iff in Hj.
    assert (Hex : existsb (String.eqb k) (map fst rest) = true).
    { apply existsb_eqb_In. apply in_map_iff. now exists (k, v). }
    unfold keys in Hj. congruence.
Qed.

(** ** Equality of values *)

Lemma value_eqb_refl (v : value) : value_eqb v v = true.
Proof.
  induction v as [ | | b | n | s | items IH | fields IH ] using value_nested_ind; simpl; auto.
  - now destruct b.
  - apply Z.eqb_refl.
  - apply String.eqb_refl.
  - induction IH as [ | x xs Hx _ IHxs ]; auto. now rewrite Hx.
  - induction IH as [ | [k x] fs Hx _ IHfs ]; auto.
    simpl in Hx. now rewrite String.eqb_refl, Hx.
Qed.

Lemma value_eqb_eq (a : value) : forall b, value_eqb a b = true -> a = b.
Proof.
  induction a as [ | | x | n | s | items IH | fields IH ] using value_nested_ind;
    intros [ | | y | m | t | items' | fields' ] H; simpl in H; try discriminate; auto.
  - apply Bool.eqb_prop in H. now subst.
  - apply Z.eqb_eq in H. now subst.
  - apply String.eqb_eq in H. now subst.
  - f_equal. revert items' H.
    induction IH as [ | x xs Hx _ IHxs ]; intros [ | y ys ] H; try discriminate; auto.
    apply andb_prop in H as [H1 H2]. f_equal; auto.
  - f_equal. revert fields' H.
    induction IH as [ | [k x] fs Hx _ IHfs ]; intros [ | [j y] ys ] H;
      try discriminate; auto.
    apply andb_prop in H as [H12 H3]. apply andb_prop in H12 as [H1 H2].
    apply String.eqb_eq in H1. simpl in Hx. f_equal; [f_equal | ]; auto.
Qed.

Lemma strict_equal_primitive_refl (v : value) : primitive v = true -> strict_equal v v = true.
Proof.
  destruct v; simpl; try discriminate; auto.
  - now destruct b.
  - intros _. apply Z.eqb_refl.
  - intros _. apply String.eqb_refl.
Qed.

Lemma strict_equal_eq (a b : value) : strict_equal a b = true -> a = b.
Proof.
  destruct a, b; simpl; try discriminate; auto.
  - intros H. apply Bool.eqb_prop in H. now subst.
  - intros H. apply Z.eqb_eq in H. now subst.
  - intros H. apply String.eqb_eq in H. now subst.
Qed.

(** ** The merge loop *)

Lemma merge_loop_unfold (o : MergeOptions) (_d : nat) (original entries : obj) :
  merge_loop o _d original (VObj entries) = merge_entries o _d original entries.
Proof.
  revert original. induction entries as [ | [k0 v] rest IH ]; intros original; auto.
  transitivity (rbind (merge_entry o _d original k0 v)
                      (fun original' => merge_loop o _d original' (VObj rest)));
    [reflexivity | ].
  simpl merge_entries. unfold rbind.
  destruct (merge_entry o _d original k0 v); auto.
Qed.

Lemma includes_refl (v : value) : well_formed v = true -> includes v v = true.
Proof.
  induction v as [ | | b | n | s | items _ | fields IH ] using value_nested_ind;
    intros Hwf; try exact (value_eqb_refl _).
  simpl in Hwf |- *. apply andb_prop in Hwf as [Hd Hall].
  apply forallb_forall. intros [k x] Hin. simpl.
  rewrite (distinct_In_get fields k x Hd Hin).
  rewrite List.Forall_forall in IH. apply (IH (k, x) Hin).
  rewrite forallb_forall in Hall. apply (Hall (k, x) Hin).
Qed.

Lemma includes_obj_elim (bf rf : obj) (k : string) (v : value) :
  includes (VObj bf) (VObj rf) = true -> In (k, v) bf ->
  exists x, get rf k = Some x /\ includes v x = true.
Proof.
  simpl. intros Hall Hin. rewrite forallb_forall in Hall.
  specialize (Hall (k, v) Hin). simpl in Hall.
  destruct (get rf k) as [x | ]; [ | discriminate]. eauto.
Qed.

Lemma includes_obj_intro (bf rf : obj) :
  (forall k v, In (k, v) bf -> exists x, get rf k = Some x /\ includes v x = true) ->
  includes (VObj bf) (VObj rf) = true.
Proof.
  intros H. simpl. apply forallb_forall. intros [k v] Hin. simpl.
  destruct (H k v Hin) as [x [-> Hx]]. exact Hx.
Qed.

(** *** Merging with overwrite and both insert options set *)

#[local] Arguments includes : simpl never.
#[local] Arguments merge_loop : simpl never.
#[local] Arguments well_formed : simpl never.

Section MergeOverwrite.

Variable o : MergeOptions.
Hypothesis Hoverwrite : overwrite o = true.
Hypothesis HinsertKeys : insertKeys o = true.
Hypothesis HinsertValues : insertValues o = true.
Hypothesis HenforceTypes : enforceTypes o = false.

Lemma can_insert (_d : nat) :
  (Nat.eqb (S _d) 1 && insertKeys o) || ((1 <? S _d)%nat && insertValues o) = true.
Proof.
  rewrite HinsertKeys, HinsertValues, !andb_true_r.
  destruct _d; reflexivity.
Qed.

Lemma merge_entry_overwrite (_d : nat) (original : obj) (k : string) (v : value) :
  is_deletion_key k = false ->
  well_formed v = true ->
  merges_into o v ->
  exists merged,
    merge_entry o _d original k v = Ok merged
    /\ (exists r, get merged k = Some r /\ includes v r = true)
    /\ (forall k', k <> k' -> get merged k' = get original k').
Proof.
  intros Hk Hwf Hrec. unfold merge_entry. rewrite Hk. cbv zeta. simpl andb.
  unfold hasOwnProperty, prop.
  destruct (getType v =? "Object") eqn:Htv.
  - (* the incoming value is an object *)
    assert (Hv : exists fs, v = VObj fs) by (destruct v; try discriminate; eauto).
    destruct Hv as [fs ->].
    destruct (get original k) as [x | ] eqn:Hget; simpl.
    + rewrite Hget.
      destruct x as [ | | b | n | s | items | inner ]; simpl;
        try (rewrite Hoverwrite, HenforceTypes; rewrite ?andb_false_r;
             eexists; split; [reflexivity | split;
               [ exists (VObj fs); split; [apply get_set_same | now apply includes_refl]
               | intros k' Hne; now apply get_set_other ] ]).
      rewrite merge_loop_unfold.
      destruct (Hrec (S _d) inner fs eq_refl) as [merged [-> Hinc]]. simpl rbind.
      eexists; split; [reflexivity | split].
      * exists (VObj merged). split; [apply get_set_same | exact Hinc].
      * intros k' Hne. now apply get_set_other.
    + rewrite get_set_same. simpl. rewrite merge_loop_unfold.
      destruct (Hrec (S _d) [] fs eq_refl) as [merged [-> Hinc]]. simpl rbind.
      eexists; split; [reflexivity | split].
      * exists (VObj merged). split; [apply get_set_same | exact Hinc].
      * intros k' Hne. rewrite !get_set_other by assumption. reflexivity.
  - (* the incoming value is not an object *)
    rewrite andb_false_r. simpl orb.
    destruct (get original k) as [x | ] eqn:Hget; simpl.
    + rewrite Hoverwrite, HenforceTypes, andb_false_r.
      eexists; split; [reflexivity | split].
      * exists v. split; [apply get_set_same | now apply includes_refl].
      * intros k' Hne. now apply get_set_other.
    + change (_d =? 0)%nat with (S _d =? 1)%nat. rewrite can_insert.
      eexists; split; [reflexivity | split].
      * exists v. split; [apply get_set_same | now apply includes_refl].
      * intros k' Hne. now apply get_set_other.
Qed.

End MergeOverwrite.

Section MergeOverwriteLoop.

Variable o : MergeOptions.
Hypothesis Hoverwrite : overwrite o = true.
Hypothesis HinsertKeys : insertKeys o = true.
Hypothesis HinsertValues : insertValues o = true.
Hypothesis HenforceTypes : enforceTypes o = false.

Lemma merge_entries_overwrite (_d : nat) (entries : obj) :
  distinct (keys entries) = true ->
  Forall (fun kv => is_deletion_key (fst kv) = false
                    /\ well_formed (snd kv) = true
                    /\ merges_into o (snd kv)) entries ->
  forall original,
  exists merged,
    merge_entries o _d original entries = Ok merged
    /\ (forall k v, In (k, v) entries ->
                    exists r, get merged k = Some r /\ includes v r = true)
    /\ (forall k', ~ In k' (keys entries) -> get merged k' = get original k').
Proof.
  induction entries as [ | [k v] rest IH ]; intros Hd Hall original.
  - exists original. repeat split; auto. intros k v [].
  - simpl in Hd. apply andb_prop in Hd as [Hk Hd].
    apply negb_true_iff in Hk.
    inversion Hall as [ | kv l [Hdel [Hwf Hrec]] Hrest ]; subst. simpl in Hdel, Hwf, Hrec.
    destruct (merge_entry_overwrite o Hoverwrite HinsertKeys HinsertValues HenforceTypes
                _d original k v Hdel Hwf Hrec) as [first [Hfirst [[r [Hr Hinc]] Hframe]]].
    destruct (IH Hd Hrest first) as [merged [Hmerged [Hcover Hkeep]]].
    exists merged. simpl. rewrite Hfirst. simpl. split; [exact Hmerged | split].
    + intros k' v' [E | Hin].
      * inversion E; subst k' v'. exists r. split; auto.
        rewrite Hkeep; auto.
        intros Hin. apply existsb_eqb_In in Hin. congruence.
      * now apply Hcover.
    + intros k' Hnot. rewrite Hkeep by (intros Hin; apply Hnot; now right).
      apply Hframe. intros ->. apply Hnot. now left.
Qed.

Lemma merges_into_all (v : value) :
  no_deletion_keys v = true -> well_formed v = true -> merges_into o v.
Proof.
  induction v as [ | | b | n | s | items _ | fields IH ] using value_nested_ind;
    intros Hnd Hwf _d original fs E; try discriminate.
  injection E as <-.
  unfold well_formed in Hwf; fold well_formed in Hwf.
  apply andb_prop in Hwf as [Hd Hwfs].
  simpl in Hnd. rewrite forallb_forall in Hnd, Hwfs. rewrite List.Forall_forall in IH.
  destruct (merge_entries_overwrite _d fields Hd) with (original := original)
    as [merged [Hmerged [Hcover _]]].
  - apply List.Forall_forall. intros [k x] Hin.
    specialize (Hnd (k, x) Hin). apply andb_prop in Hnd as [Hk Hx].
    apply negb_true_iff in Hk. simpl in *.
    split; [exact Hk | split; [apply (Hwfs (k, x) Hin) | ]].
    apply (IH (k, x) Hin); [exact Hx | apply (Hwfs (k, x) Hin)].
  - exists merged. split; auto. now apply includes_obj_intro.
Qed.

End MergeOverwriteLoop.

(** *** Merging with overwrite unset *)

Lemma Keeps_defined (x y : value) : Keeps x y -> x <> VUndefined -> y <> VUndefined.
Proof.
  intros H Hx. inversion H; subst; auto; discriminate.
Qed.

Lemma Keeps_trans (a : value) : forall b c, Keeps a b -> Keeps b c -> Keeps a c.
Proof.
  induction a as [ | | x | n | s | items _ | af IH ] using value_nested_ind;
    intros b c Hab Hbc;
    try (inversion Hab; subst; exact Hbc).
  - constructor.
  - inversion Hab as [ | af' bf H1 | ]; subst; [ | exact Hbc].
    inversion Hbc as [ | bf' cf H2 | ]; subst; [ | exact Hab].
    constructor. intros k x Hget Hx.
    destruct (H1 k x Hget Hx) as [y [Hy Hxy]].
    destruct (H2 k y Hy (Keeps_defined x y Hxy Hx)) as [z [Hz Hyz]].
    exists z. split; auto.
    rewrite List.Forall_forall in IH.
    apply (IH (k, x) (get_In af k x Hget) y z Hxy Hyz).
Qed.

Lemma Keeps_set (original : obj) (k : string) (v : value) :
  (forall x, get original k = Some x -> x <> VUndefined -> Keeps x v) ->
  Keeps (VObj original) (VObj (set original k v)).
Proof.
  intros H. constructor. intros k' x Hget Hx.
  destruct (string_dec k k') as [<- | Hne].
  - exists v. split; [apply get_set_same | now apply H].
  - exists x. split; [now rewrite get_set_other | apply Keeps_same].
Qed.

Lemma Keeps_keeps (a : value) :
  forall r, well_formed a = true -> Keeps a r -> keeps a r = true.
Proof.
  induction a as [ | | x | n | s | items _ | af IH ] using value_nested_ind;
    intros r Hwf H;
    try (inversion H; subst; exact (value_eqb_refl _)).
  - reflexivity.
  - unfold well_formed in Hwf; fold well_formed in Hwf.
    apply andb_prop in Hwf as [Hd Hwfs].
    rewrite forallb_forall in Hwfs. rewrite List.Forall_forall in IH.
    assert (Hobj : exists rf, r = VObj rf
                   /\ forall k x, get af k = Some x -> x <> VUndefined ->
                                  exists y, get rf k = Some y /\ Keeps x y).
    { inversion H as [ | af' rf H1 | ]; subst.
      - exists rf. split; auto.
      - exists af. split; auto. intros k x Hget _. exists x. split; auto. apply Keeps_same. }
    destruct Hobj as [rf [-> H1]].
    simpl. apply forallb_forall. intros [k x] Hin. simpl.
    pose proof (distinct_In_get af k x Hd Hin) as Hget.
    destruct (value_eqb x VUndefined) eqn:Hundef.
    + assert (x = VUndefined) as -> by (destruct x; try discriminate; reflexivity).
      now destruct (get rf k).
    + assert (Hx : x <> VUndefined) by (intros ->; discriminate).
      destruct (H1 k x Hget Hx) as [y [-> Hxy]].
      apply (IH (k, x) Hin y); [apply (Hwfs (k, x) Hin) | exact Hxy].
Qed.

Section MergeKeep.

Variable o : MergeOptions.
Hypothesis Hoverwrite : overwrite o = false.

Lemma merge_entry_keeps (_d : nat) (original : obj) (k : string) (v : value) :
  is_deletion_key k = false ->
  merges_keeping o v ->
  exists merged,
    merge_entry o _d original k v = Ok merged
    /\ Keeps (VObj original) (VObj merged).
Proof.
  intros Hk Hrec. unfold merge_entry. rewrite Hk. cbv zeta. simpl andb.
  unfold hasOwnProperty, prop. rewrite Hoverwrite.
  destruct (getType v =? "Object") eqn:Htv.
  - assert (Hv : exists fs, v = VObj fs) by (destruct v; try discriminate; eauto).
    destruct Hv as [fs ->].
    destruct (get original k) as [x | ] eqn:Hget; simpl.
    + rewrite Hget.
      destruct x as [ | | b | n | s | items | inner ]; simpl;
        try (eexists; split; [reflexivity | apply Keeps_same]).
      * destruct (insertValues o); eexists; split; try reflexivity; [ | apply Keeps_same].
        apply Keeps_set. intros x Hx Hne. congruence.
      * rewrite merge_loop_unfold.
        destruct (Hrec (S _d) inner fs eq_refl) as [merged [-> Hkeep]]. simpl rbind.
        eexists; split; [reflexivity | ].
        apply Keeps_set. intros x Hx _. congruence.
    + rewrite get_set_same. simpl. rewrite merge_loop_unfold.
      destruct (Hrec (S _d) [] fs eq_refl) as [merged [-> Hkeep]]. simpl rbind.
      eexists; split; [reflexivity | ].
      apply Keeps_trans with (b := VObj (set original k (VObj []))).
      * apply Keeps_set. intros x Hx. congruence.
      * apply Keeps_set. intros x Hx _. rewrite get_set_same in Hx.
        injection Hx as <-. exact Hkeep.
  - rewrite andb_false_r. simpl orb.
    destruct (get original k) as [x | ] eqn:Hget; simpl.
    + destruct (strict_equal x VUndefined && insertValues o) eqn:Hins;
        eexists; split; try reflexivity; [ | apply Keeps_same].
      apply andb_prop in Hins as [Hundef _]. apply strict_equal_eq in Hundef. subst x.
      apply Keeps_set. intros x Hx Hne. congruence.
    + match goal with
      | |- context [if ?c then _ else _] => destruct c
      end; eexists; split; try reflexivity; [ | apply Keeps_same].
      apply Keeps_set. intros x Hx. congruence.
Qed.

Lemma merge_entries_keeps (_d : nat) (entries : obj) :
  Forall (fun kv => is_deletion_key (fst kv) = false /\ merges_keeping o (snd kv)) entries ->
  forall original,
  exists merged,
    merge_entries o _d original entries = Ok merged
    /\ Keeps (VObj original) (VObj merged).
Proof.
  induction entries as [ | [k v] rest IH ]; intros Hall original.
  - exists original. split; [reflexivity | apply Keeps_same].
  - inversion Hall as [ | kv l [Hdel Hrec] Hrest ]; subst. simpl in Hdel, Hrec.
    destruct (merge_entry_keeps _d original k v Hdel Hrec) as [first [Hfirst Hkeep1]].
    destruct (IH Hrest first) as [merged [Hmerged Hkeep2]].
    exists merged. simpl. rewrite Hfirst. simpl. split; [exact Hmerged | ].
    now apply Keeps_trans with (b := VObj first).
Qed.

Lemma merges_keeping_all (v : value) : no_deletion_keys v = true -> merges_keeping o v.
Proof.
  induction v as [ | | b | n | s | items _ | fields IH ] using value_nested_ind;
    intros Hnd _d original fs E; try discriminate.
  injection E as <-.
  simpl in Hnd. rewrite forallb_forall in Hnd. rewrite List.Forall_forall in IH.
  apply merge_entries_keeps.
  apply List.Forall_forall. intros [k x] Hin.
  specialize (Hnd (k, x) Hin). apply andb_prop in Hnd as [Hk Hx].
  apply negb_true_iff in Hk. simpl in *.
  split; [exact Hk | now apply (IH (k, x) Hin)].
Qed.

End MergeKeep.

(** *** mergeObject on objects with plain keys *)

Lemma mergeObject_undotted (original other : obj) (o : MergeOptions) :
  inplace o = true -> undotted original = true -> undotted other = true ->
  mergeObject original other o = merge_entries o 0 original other.
Proof.
  unfold mergeObject, undotted. intros -> Ha Hb.
  apply negb_true_iff in Ha, Hb. simpl negb. cbv iota.
  rewrite Ha. simpl rbind. rewrite Hb. simpl rbind.
  apply merge_loop_unfold.
Qed.

Lemma mergeObject_default_spec (A B : obj) :
  undotted A = true -> undotted B = true ->
  no_deletion_keys (VObj B) = true -> well_formed (VObj B) = true ->
  exists R, mergeObject A B default_options = Ok R
            /\ (forall k v, In (k, v) B ->
                            exists r, get R k = Some r /\ includes v r = true)
            /\ (forall k, get B k = None -> get R k = get A k).
Proof.
  intros Ha Hb Hnd Hwf. rewrite mergeObject_undotted by auto.
  unfold well_formed in Hwf; fold well_formed in Hwf.
  apply andb_prop in Hwf as [Hd Hwfs].
  simpl in Hnd. rewrite forallb_forall in Hnd, Hwfs.
  destruct (merge_entries_overwrite default_options eq_refl eq_refl eq_refl eq_refl 0 B Hd)
    with (original := A) as [R [HR [Hcover Hframe]]].
  - apply List.Forall_forall. intros [k x] Hin.
    specialize (Hnd (k, x) Hin). apply andb_prop in Hnd as [Hk Hx].
    apply negb_true_iff in Hk. simpl in *.
    split; [exact Hk | split; [apply (Hwfs (k, x) Hin) | ]].
    apply merges_into_all; auto. apply (Hwfs (k, x) Hin).
  - exists R. split; [exact HR | split; [exact Hcover | ]].
    intros k Hk. apply Hframe. now apply get_None_keys.
Qed.

(** C3, as amended.  For plain objects [A] and [B] none of whose top-level
    keys holds a dot, [B] holding no key that starts with ["-="] at any depth:
    [mergeObject(A, B)] with overwrite, insertKeys and insertValues set (the
    defaults) returns an object in which every key of [B] is present with the
    value of [B], recursively for nested objects, and in which every key of
    [A] absent from [B] keeps the value of [A]; and with overwrite unset,
    whatever the other insert and type options, every value of [A] other than
    [undefined] is still there in the result. *)
Theorem mergeObject_plain_keys (A B : obj) :
  undotted A = true -> undotted B = true -> no_deletion_keys (VObj B) = true ->
  (well_formed (VObj B) = true ->
   exists R, mergeObject A B default_options = Ok R
             /\ includes (VObj B) (VObj R) = true
             /\ (forall k, get B k = None -> get R k = get A k))
  /\ (well_formed (VObj A) = true ->
      forall o, overwrite o = false -> inplace o = true ->
      exists R, mergeObject A B o = Ok R /\ keeps (VObj A) (VObj R) = true).
Proof.
  intros Ha Hb Hnd. split.
  - intros Hwf.
    destruct (mergeObject_default_spec A B Ha Hb Hnd Hwf) as [R [HR [Hcover Hframe]]].
    exists R. split; [exact HR | split; [now apply includes_obj_intro | exact Hframe]].
  - intros Hwf o Ho Hin. rewrite mergeObject_undotted by auto.
    destruct (merges_keeping_all o Ho (VObj B) Hnd 0 A B eq_refl) as [R [HR Hkeep]].
    exists R. split; [exact HR | now apply Keeps_keeps].
Qed.

Lemma mergeObject_plain_keys_witness :
  let A := [("name", VStr "Hero"); ("hp", VObj [("value", VNum 3); ("max", VUndefined)])] in
  let B := [("hp", VObj [("value", VNum 5); ("max", VNum 9)]); ("img", VStr "hero.png")] in
  let keep := {| insertKeys := true; insertValues := true; overwrite := false;
                 inplace := true; enforceTypes := false |} in
  undotted A = true /\ undotted B = true /\ no_deletion_keys (VObj B) = true
  /\ well_formed (VObj A) = true /\ well_formed (VObj B) = true
  /\ (exists R, mergeObject A B default_options = Ok R
                /\ includes (VObj B) (VObj R) = true
                /\ (forall k, get B k = None -> get R k = get A k))
  /\ (exists R, mergeObject A B keep = Ok R /\ keeps (VObj A) (VObj R) = true).
Proof.
  intros A B keep.
  assert (Ha : undotted A = true) by reflexivity.
  assert (Hb : undotted B = true) by reflexivity.
  assert (Hnd : no_deletion_keys (VObj B) = true) by reflexivity.
  assert (HwfA : well_formed (VObj A) = true) by reflexivity.
  assert (HwfB : well_formed (VObj B) = true) by reflexivity.
  destruct (mergeObject_plain_keys A B Ha Hb Hnd) as [H1 H2].
  repeat split; auto.
Defined.

(** C3 as stated fails on keys the merge treats specially.  A dotted key, of
    [B] or of [A], is expanded and is not itself a key of the result; a ["-="]
    key of [B], at the top or nested, is not a key of the result either, and
    removes a key of [A] that [B] does not hold, also with overwrite unset. *)
Lemma mergeObject_special_keys_counterexample :
  let keep := {| insertKeys := true; insertValues := true; overwrite := false;
                 inplace := true; enforceTypes := false |} in
  (mergeObject [] [("a.b", VNum 1)] default_options = Ok [("a", VObj [("b", VNum 1)])]
   /\ includes (VObj [("a.b", VNum 1)]) (VObj [("a", VObj [("b", VNum 1)])]) = false)
  /\ (mergeObject [("a.b", VNum 1)] [] default_options = Ok [("a", VObj [("b", VNum 1)])]
      /\ get ([] : obj) "a.b" = None
      /\ get [("a", VObj [("b", VNum 1)])] "a.b" <> get [("a.b", VNum 1)] "a.b")
  /\ (mergeObject [("a", VNum 1)] [("-=a", VNull)] default_options = Ok []
      /\ includes (VObj [("-=a", VNull)]) (VObj []) = false
      /\ get [("-=a", VNull)] "a" = None
      /\ get [] "a" <> get [("a", VNum 1)] "a")
  /\ (mergeObject [("x", VObj [("a", VNum 1)])] [("x", VObj [("-=a", VNull)])] default_options
      = Ok [("x", VObj [])]
      /\ includes (VObj [("x", VObj [("-=a", VNull)])]) (VObj [("x", VObj [])]) = false)
  /\ (mergeObject [("a", VNum 1)] [("-=a", VNull)] keep = Ok []
      /\ keeps (VObj [("a", VNum 1)]) (VObj []) = false).
Proof.
  repeat split; try reflexivity; discriminate.
Qed.

(** *** insertKeys and new keys *)

(** Whatever the options: a plain key absent from the original is present
    after one iteration whose incoming value is an object. *)
Lemma merge_entry_ensures_inner_object (o : MergeOptions) (_d : nat) (original : obj)
  (k : string) (fs merged : obj) :
  is_deletion_key k = false ->
  get original k = None ->
  merge_entry o _d original k (VObj fs) = Ok merged ->
  exists inner, get merged k = Some (VObj inner).
Proof.
  intros Hk Hget. unfold merge_entry. rewrite Hk. cbv zeta. simpl andb.
  unfold hasOwnProperty. rewrite Hget. simpl.
  unfold prop. rewrite get_set_same. simpl.
  destruct (merge_loop o (S _d) [] (VObj fs)) as [inner | e]; simpl; [ | discriminate].
  intros [= <-]. exists inner. apply get_set_same.
Qed.

(** With [insertKeys] unset, an incoming value that is not an object is not
    inserted under a new top-level key. *)
Lemma merge_entry_respects_insertKeys (o : MergeOptions) (original : obj)
  (k : string) (v : value) :
  insertKeys o = false ->
  is_deletion_key k = false ->
  get original k = None ->
  (getType v =? "Object") = false ->
  merge_entry o 0 original k v = Ok original.
Proof.
  intros Hins Hk Hget Htv. unfold merge_entry. rewrite Hk. cbv zeta. simpl andb.
  unfold hasOwnProperty. rewrite Hget, Htv, Hins. reflexivity.
Qed.

(** C9: with [insertKeys] unset a key absent from [A] is still added when the
    incoming value is an object (the "ensure that inner objects exist" step
    runs before the insertion test), while a scalar under a new key is left
    out. *)
Theorem mergeObject_insertKeys_false_object :
  let no_insert := {| insertKeys := false; insertValues := true; overwrite := true;
                      inplace := true; enforceTypes := false |} in
  mergeObject [] [("a", VObj [("b", VNum 1)])] no_insert = Ok [("a", VObj [("b", VNum 1)])]
  /\ get [("a", VObj [("b", VNum 1)])] "a" <> None
  /\ mergeObject [] [("a", VNum 1)] no_insert = Ok [].
Proof.
  repeat split; try reflexivity. discriminate.
Qed.

(** ** diffObject *)

Lemma difference_objects (original other : obj) :
  _difference (VObj original) (VObj other) =
  if negb (Bool.eqb (Nat.eqb (List.length (keys original)) 0)
                    (Nat.eqb (List.length (keys other)) 0))
  then (true, VObj other)
  else (negb (Nat.eqb (List.length (keys (diffObject original other))) 0),
        VObj (diffObject original other)).
Proof. reflexivity. Qed.

Lemma diff_unchanged (original : obj) (entries : list (string * value)) :
  (forall k x, In (k, x) entries -> fst (_difference (prop original k) x) = false) ->
  forall acc, fold_left (diff_step original) entries acc = acc.
Proof.
  induction entries as [ | [k x] rest IH ]; intros Hsame acc; auto.
  simpl fold_left. unfold diff_step at 2. simpl fst; simpl snd.
  pose proof (Hsame k x (or_introl eq_refl)) as Hk.
  destruct (_difference (prop original k) x) as [isDifferent difference].
  simpl in Hk. subst isDifferent.
  apply IH. intros k' x' Hin. apply Hsame. now right.
Qed.

Lemma difference_same (v : value) : well_formed v = true -> fst (_difference v v) = false.
Proof.
  induction v as [ | | b | n | s | items _ | fields IH ] using value_nested_ind;
    intros Hwf; simpl; auto.
  - now destruct b.
  - now rewrite Z.eqb_refl.
  - now rewrite String.eqb_refl.
  - change (fst (negb (value_eqb (VArr items) (VArr items)), VArr items) = false).
    now rewrite value_eqb_refl.
  - unfold well_formed in Hwf; fold well_formed in Hwf.
    apply andb_prop in Hwf as [Hd Hwfs].
    rewrite forallb_forall in Hwfs. rewrite List.Forall_forall in IH.
    change (fst (_difference (VObj fields) (VObj fields)) = false).
    rewrite difference_objects, Bool.eqb_reflx. simpl negb. cbv iota.
    unfold diffObject. rewrite diff_unchanged; [reflexivity | ].
    intros k x Hin. unfold prop. rewrite (distinct_In_get fields k x Hd Hin).
    apply (IH (k, x) Hin). apply (Hwfs (k, x) Hin).
Qed.

Lemma diff_no_entry (original : obj) (k : string) (entries : list (string * value)) :
  (forall x, In (k, x) entries -> fst (_difference (prop original k) x) = false) ->
  forall acc, get acc k = None -> get (fold_left (diff_step original) entries acc) k = None.
Proof.
  induction entries as [ | [j x] rest IH ]; intros Hsame acc Hacc; auto.
  simpl fold_left. apply IH.
  - intros x' Hin. apply Hsame. now right.
  - unfold diff_step. simpl fst; simpl snd.
    destruct (_difference (prop original j) x) as [isDifferent difference] eqn:Hd.
    destruct isDifferent; auto.
    destruct (string_dec j k) as [-> | Hne].
    + specialize (Hsame x (or_introl eq_refl)). rewrite Hd in Hsame. discriminate.
    + now rewrite get_set_other.
Qed.

Lemma diff_frame (original : obj) (k : string) (entries : list (string * value)) :
  ~ In k (keys entries) ->
  forall acc, get (fold_left (diff_step original) entries acc) k = get acc k.
Proof.
  induction entries as [ | [j x] rest IH ]; intros Hnot acc; auto.
  simpl fold_left. rewrite IH by (intros Hin; apply Hnot; now right).
  unfold diff_step. simpl fst; simpl snd.
  destruct (_difference (prop original j) x) as [isDifferent difference].
  destruct isDifferent; auto.
  apply get_set_other. intros ->. apply Hnot. now left.
Qed.

Lemma diff_entry (original : obj) (k : string) (x difference : value)
  (entries : list (string * value)) :
  distinct (keys entries) = true ->
  In (k, x) entries ->
  _difference (prop original k) x = (true, difference) ->
  forall acc, get (fold_left (diff_step original) entries acc) k = Some difference.
Proof.
  intros Hd Hin Hdiff.
  induction entries as [ | [j y] rest IH ]; intros acc; [destruct Hin | ].
  simpl in Hd. apply andb_prop in Hd as [Hj Hd]. apply negb_true_iff in Hj.
  simpl fold_left. destruct Hin as [E | Hin].
  - inversion E; subst j y.
    rewrite diff_frame.
    + unfold diff_step. simpl fst; simpl snd. rewrite Hdiff. apply get_set_same.
    + intros Hk. apply existsb_eqb_In in Hk. congruence.
  - now apply IH.
Qed.

(** C4.  [diffObject(X, X)] is empty for every plain-data object [X], fields
    holding arrays included; and for any two objects that hold arrays under
    one key, the diff has no entry for that key when the arrays have equal
    content, and has the array of [other] as entry when they differ.  Arrays
    are compared by [equals], modelled from the specification. *)
Theorem diffObject_no_change :
  (forall X, well_formed (VObj X) = true -> diffObject X X = [])
  /\ (forall original other k items,
        distinct (keys other) = true ->
        get original k = Some (VArr items) ->
        get other k = Some (VArr items) ->
        get (diffObject original other) k = None)
  /\ (forall original other k items items',
        distinct (keys other) = true ->
        get original k = Some (VArr items) ->
        get other k = Some (VArr items') ->
        items <> items' ->
        get (diffObject original other) k = Some (VArr items')).
Proof.
  split; [ | split].
  - intros X Hwf. pose proof (difference_same (VObj X) Hwf) as H.
    rewrite difference_objects, Bool.eqb_reflx in H. simpl in H.
    apply negb_false_iff, Nat.eqb_eq in H. unfold keys in H. rewrite length_map in H.
    now apply length_zero_iff_nil.
  - intros original other k items Hd Ho Hother.
    apply diff_no_entry; auto.
    intros x Hin.
    assert (x = VArr items) as ->.
    { pose proof (distinct_In_get other k x Hd Hin) as Hx. congruence. }
    unfold prop. rewrite Ho.
    change (fst (negb (value_eqb (VArr items) (VArr items)), VArr items) = false).
    now rewrite value_eqb_refl.
  - intros original other k items items' Hd Ho Hother Hne.
    apply (diff_entry original k (VArr items')); auto.
    + now apply get_In.
    + unfold prop. rewrite Ho.
      change (_difference (VArr items) (VArr items'))
        with (negb (value_eqb (VArr items) (VArr items')), VArr items').
      destruct (value_eqb (VArr items) (VArr items')) eqn:E; auto.
      apply value_eqb_eq in E. congruence.
Qed.

Lemma diffObject_no_change_witness :
  let X := [("_id", VStr "a1"); ("tags", VArr [VStr "x"; VObj [("n", VNum 1)]]);
            ("hp", VObj [("value", VNum 5); ("max", VNull)])] in
  let other := [("tags", VArr [VStr "x"; VObj [("n", VNum 1)]]); ("name", VStr "Hero")] in
  well_formed (VObj X) = true /\ diffObject X X = []
  /\ distinct (keys other) = true
  /\ get X "tags" = Some (VArr [VStr "x"; VObj [("n", VNum 1)]])
  /\ get other "tags" = Some (VArr [VStr "x"; VObj [("n", VNum 1)]])
  /\ get (diffObject X other) "tags" = None.
Proof.
  intros X other. destruct diffObject_no_change as [Hsame [Harrays _]].
  assert (Hwf : well_formed (VObj X) = true) by reflexivity.
  assert (Hd : distinct (keys other) = true) by reflexivity.
  assert (Hx : get X "tags" = Some (VArr [VStr "x"; VObj [("n", VNum 1)]])) by reflexivity.
  assert (Ho : get other "tags" = Some (VArr [VStr "x"; VObj [("n", VNum 1)]])) by reflexivity.
  repeat split; auto.
Defined.

(** ** Permission queries *)

Lemma permission_getter_non_gm (this_data pm : obj) (user : User) :
  isGM user = false ->
  get this_data "permission" = Some (VObj pm) ->
  Entity.permission this_data user =
  Ok (if truthy (prop pm (_id user)) then prop pm (_id user) else prop pm "default").
Proof.
  intros Hgm Hpm. unfold Entity.permission. rewrite Hgm.
  assert (Hmap : prop this_data "permission" = VObj pm) by (unfold prop; now rewrite Hpm).
  rewrite Hmap. simpl.
  now destruct (truthy (prop pm (_id user))).
Qed.

Lemma resolved_level_integer_entry (pm : obj) (user : User) (n : Z) :
  get pm (_id user) = Some (VNum n) ->
  Entity.resolved_level (VObj pm) user = Ok (VNum n).
Proof.
  intros H. unfold Entity.resolved_level, member, prop. now rewrite H.
Qed.

(** C5: for a non-GM user whose entry in the permission map is an explicit
    NONE (0), the [permission] getter returns the [default] entry and not the
    user's own, while [hasPerm] resolves the level 0 of the entry. *)
Theorem permission_getter_explicit_none :
  let pm := [("default", VNum 2); ("u1", VNum 0)] in
  let this_data := [("_id", VStr "a1"); ("permission", VObj pm)] in
  isGM player = false
  /\ get pm (_id player) = Some (VNum 0)
  /\ Entity.permission this_data player = Ok (VNum 2)
  /\ Entity.resolved_level (VObj pm) player = Ok (VNum 0)
  /\ Entity.hasPerm this_data player "OBSERVER" false = Ok false.
Proof.
  repeat split.
Qed.

(** ** Entity.create *)

(** Whatever the class, the server and the world: called with a plain object
    that has no [length] property, [create] never resolves to a single
    Entity. *)
Lemma create_object_resolves_to_array (cls : Entity.Class)
  (server : string -> Request -> res Response) (o opts : obj) (w w' : World)
  (r : Entity.Returned) :
  get o "length" = None ->
  Entity.create cls server (VObj o) opts w = Ret r w' ->
  exists created, r = Entity.Entities created.
Proof.
  intros Hlen. unfold Entity.create, bind.
  repeat match goal with
         | |- context [match ?x with Ret _ _ => _ | Throw _ _ => _ end] =>
             destruct x eqn:?; try discriminate
         end.
  match goal with
  | H : lift (js_length (VObj o)) _ = Ret _ _ |- _ =>
      simpl in H; unfold ret, prop in H; rewrite Hlen in H; injection H as <- <-
  end.
  simpl. unfold ret. intros [= <- _]. eauto.
Qed.

(** C6: called with a single data object, [create] resolves to an array
    holding the one created Entity, not to that Entity; the same request sent
    as an array of length one resolves to the Entity itself, and an array of
    another length to an array. *)
Theorem create_single_object_resolves_to_array :
  let single := VObj [("name", VStr "Hero")] in
  (exists e w, Entity.create Actor one_record_server single [] empty_world
               = Ret (Entity.Entities [e]) w)
  /\ (exists e w, Entity.create Actor one_record_server (VArr [single]) [] empty_world
                  = Ret (Entity.One e) w)
  /\ (exists e w, Entity.create Actor one_record_server (VArr [single; single]) [] empty_world
                  = Ret (Entity.Entities [e]) w).
Proof.
  repeat split; do 2 eexists; reflexivity.
Qed.

(** ** The keyed store *)

Lemma map_get_set_same (m : list (value * EntityInstance)) (key : value) (e : EntityInstance) :
  primitive key = true -> map_get (map_set m key e) key = Some e.
Proof.
  intros Hp. induction m as [ | [k e'] rest IH ]; simpl.
  - now rewrite strict_equal_primitive_refl.
  - destruct (strict_equal k key) eqn:Hk; simpl; now rewrite Hk.
Qed.

Lemma map_get_set_other (m : list (value * EntityInstance)) (key key' : value)
  (e : EntityInstance) :
  key <> key' -> map_get (map_set m key e) key' = map_get m key'.
Proof.
  intros Hne. induction m as [ | [k e'] rest IH ]; simpl.
  - destruct (strict_equal key key') eqn:Hk; auto.
    apply strict_equal_eq in Hk. contradiction.
  - destruct (strict_equal k key) eqn:Hk; simpl.
    + apply strict_equal_eq in Hk. subst k.
      destruct (strict_equal key key') eqn:Hk'; auto.
      apply strict_equal_eq in Hk'. contradiction.
    + now rewrite IH.
Qed.

Lemma map_set_length (m : list (value * EntityInstance)) (key : value) (e : EntityInstance) :
  map_get m key = None -> List.length (map_set m key e) = S (List.length m).
Proof.
  induction m as [ | [k e'] rest IH ]; simpl; auto.
  destruct (strict_equal k key); [discriminate | ].
  intros H. simpl. now rewrite IH.
Qed.

Lemma map_delete_absent (m : list (value * EntityInstance)) (key : value) :
  map_get m key = None -> map_delete m key = m.
Proof.
  induction m as [ | [k e'] rest IH ]; simpl; auto.
  destruct (strict_equal k key); [discriminate | ].
  intros H. now rewrite IH.
Qed.

Lemma findIndex_none {A : Type} (find : A -> bool) (l : list A) :
  (forall x, In x l -> find x = false) -> findIndex find l = None.
Proof.
  induction l as [ | x rest IH ]; simpl; auto.
  intros H. rewrite (H x (or_introl eq_refl)).
  rewrite IH; auto.
Qed.

(** C10.  Removing an id that is a key of the store of no entity and the
    [_id] of no record of the raw source array returns without throwing and
    leaves the world, store and source array included, as it was. *)
Theorem remove_absent_is_noop (w : World) (id : value) :
  map_get (store w) id = None ->
  (forall l record, In l (_source w) -> heap w !! l = Some record ->
                    strict_equal (prop record "_id") id = false) ->
  EntityCollection.remove id w = Ret tt w.
Proof.
  intros Hstore Hsource.
  unfold EntityCollection.remove, bind, EntityCollection.delete, findSplice.
  rewrite findIndex_none.
  - simpl. rewrite (map_delete_absent _ _ Hstore). now destruct w.
  - intros l Hin. destruct (heap w !! l) as [record | ] eqn:Hl; auto.
    now apply (Hsource l record).
Qed.

Lemma remove_absent_is_noop_witness :
  map_get (store bootstrapped) (VStr "zz") = None
  /\ EntityCollection.remove (VStr "zz") bootstrapped = Ret tt bootstrapped.
Proof.
  assert (Hstore : map_get (store bootstrapped) (VStr "zz") = None) by reflexivity.
  split; [exact Hstore | ].
  apply remove_absent_is_noop; [exact Hstore | ].
  intros l record Hin Hl.
  simpl in Hin. destruct Hin as [<- | [<- | [<- | []]]];
    vm_compute in Hl; injection Hl as <-; reflexivity.
Defined.

(** ** Construction of entities and of the collection *)

Lemma same_records_refl (w : World) : same_records w w.
Proof. repeat split. Qed.

Lemma same_records_trans (w1 w2 w3 : World) :
  same_records w1 w2 -> same_records w2 w3 -> same_records w1 w3.
Proof.
  intros (Hs & Hr & Ha & Hl & Hi) (Hs' & Hr' & Ha' & Hl' & Hi').
  repeat split; try congruence; intros l; now rewrite Hi', Hi.
Qed.

Lemma emit_same_records (ev : Event) (w : World) :
  exists w', emit ev w = Ret tt w' /\ same_records w w'.
Proof. eexists. split; [reflexivity | repeat split]. Qed.

Lemma write_name_same_records (w : World) (l : loc) (d : obj) (v : value) :
  heap w !! l = Some d ->
  exists w', write l (set d "name" v) w = Ret tt w' /\ same_records w w'.
Proof.
  intros Hl. unfold write. rewrite Hl. eexists. split; [reflexivity | ].
  repeat split; simpl.
  - apply length_insert.
  - intros l'. unfold record_id. simpl.
    destruct (Nat.eq_dec l l') as [<- | Hne].
    + rewrite list_lookup_insert_eq by (eapply lookup_lt_Some; eauto).
      rewrite Hl. unfold prop. now rewrite get_set_other.
    + now rewrite list_lookup_insert_ne.
Qed.

Lemma prepareData_same_records (cls : Entity.Class) (this : EntityInstance) (w : World) :
  match Entity.prepareData cls this w with
  | Ret _ w' | Throw _ w' => same_records w w'
  end.
Proof.
  unfold Entity.prepareData, bind, read.
  destruct (heap w !! data this) as [d | ] eqn:Hd; [ | apply same_records_refl].
  destruct (hasOwnProperty d "name" && negb (truthy (prop d "name")));
    [ | apply same_records_refl].
  unfold lift. destruct (Entity.entity cls) as [n | e]; simpl; [ | apply same_records_refl].
  match goal with
  | |- context [write _ (set d "name" ?v) w] =>
      destruct (write_name_same_records w (data this) d v Hd) as [w' [-> Hsame]]
  end.
  exact Hsame.
Qed.

Lemma prepare_each_instance (cls : Entity.Class) (d : obj) (declared : list (string * string)) :
  forall this,
    data (fst (Entity.prepare_each cls d declared this)) = data this
    /\ class_name (fst (Entity.prepare_each cls d declared this)) = class_name this.
Proof.
  induction declared as [ | [embeddedName field] rest IH ]; intros this; simpl; auto.
  destruct (prop d field); simpl; auto.
  destruct (map_res _ items); simpl; auto.
  destruct (IH (Entity.set_embedded this field a)) as [H1 H2]. simpl in H1, H2. auto.
Qed.

Lemma prepareEmbeddedEntities_spec (cls : Entity.Class) (this : EntityInstance) (w : World) :
  data (fst (Entity.prepareEmbeddedEntities cls this w)) = data this
  /\ class_name (fst (Entity.prepareEmbeddedEntities cls this w)) = class_name this
  /\ match snd (Entity.prepareEmbeddedEntities cls this w) with
     | Ret _ w' | Throw _ w' => w' = w
     end.
Proof.
  unfold Entity.prepareEmbeddedEntities.
  destruct (Entity.config cls) as [cfg | e]; simpl; auto.
  destruct (heap w !! data this) as [d | ]; simpl; auto.
  pose proof (prepare_each_instance cls d (Entity.embeddedEntities cfg) this) as [H1 H2].
  destruct (Entity.prepare_each cls d (Entity.embeddedEntities cfg) this) as [this' r].
  simpl in *. repeat split; auto. now destruct r.
Qed.

Lemma initialize_spec (cls : Entity.Class) (this : EntityInstance) (w : World) :
  data (fst (Entity.initialize cls this w)) = data this
  /\ class_name (fst (Entity.initialize cls this w)) = class_name this
  /\ same_records w (snd (Entity.initialize cls this w)).
Proof.
  unfold Entity.initialize.
  pose proof (prepareData_same_records cls this w) as H1.
  destruct (Entity.prepareData cls this w) as [[] w1 | e w1].
  - pose proof (prepareEmbeddedEntities_spec cls this w1) as (Hd & Hc & Hw).
    destruct (Entity.prepareEmbeddedEntities cls this w1) as [this1 [[] w2 | e w2]];
      simpl in Hd, Hc, Hw; subst w2.
    + pose proof (prepareData_same_records cls this1 w1) as H3.
      destruct (Entity.prepareData cls this1 w1) as [[] w3 | e w3]; simpl;
        refine (conj Hd (conj Hc _)).
      * eapply same_records_trans; eauto.
      * eapply same_records_trans; [exact H1 | ].
        eapply same_records_trans; [exact H3 | repeat split].
    + simpl. refine (conj Hd (conj Hc _)).
      eapply same_records_trans; [exact H1 | repeat split].
  - simpl. refine (conj eq_refl (conj eq_refl _)).
    eapply same_records_trans; [exact H1 | repeat split].
Qed.

(** [new this(data)] always returns: errors of the initialization passes are
    caught inside. *)
Lemma new_spec (cls : Entity.Class) (d : loc) (w : World) :
  exists this w',
    Entity.new cls d w = Ret this w'
    /\ data this = d /\ class_name this = Entity.name cls
    /\ same_records w w'.
Proof.
  unfold Entity.new.
  pose proof (initialize_spec cls
                {| class_name := Entity.name cls; data := d; apps := []; embedded := [] |} w)
    as (Hd & Hc & Hsame).
  destruct (Entity.initialize cls _ w) as [this w']. simpl in *.
  exists this, w'. auto.
Qed.

(** An error thrown by a pass of the initialization is logged, and the
    constructor returns all the same. *)
Lemma new_swallows_prepareData_error (cls : Entity.Class) (d : loc) (w w1 : World)
  (e : error) :
  Entity.prepareData cls {| class_name := Entity.name cls; data := d; apps := [];
                            embedded := [] |} w = Throw e w1 ->
  Entity.new cls d w
  = Ret {| class_name := Entity.name cls; data := d; apps := []; embedded := [] |}
        (add_log w1 [ConsoleError e]).
Proof.
  intros H. unfold Entity.new, Entity.initialize. now rewrite H.
Qed.

Lemma new_swallows_prepareEmbeddedEntities_error (cls : Entity.Class) (d : loc)
  (w w1 w2 : World) (this : EntityInstance) (e : error) :
  Entity.prepareData cls {| class_name := Entity.name cls; data := d; apps := [];
                            embedded := [] |} w = Ret tt w1 ->
  Entity.prepareEmbeddedEntities cls {| class_name := Entity.name cls; data := d;
                                        apps := []; embedded := [] |} w1
  = (this, Throw e w2) ->
  Entity.new cls d w = Ret this (add_log w2 [ConsoleError e]).
Proof.
  intros H1 H2. unfold Entity.new, Entity.initialize. now rewrite H1, H2.
Qed.

Lemma initialize_loop (cls : Entity.Class) (records : list loc) :
  forall w,
    Forall (fun d => d < List.length (heap w)) records ->
    List.NoDup (map (record_id w) records) ->
    Forall (fun d => primitive (record_id w d) = true) records ->
    (forall d, In d records -> map_get (store w) (record_id w d) = None) ->
    exists w',
      for_each (fun d =>
                  let! record := read d in
                  let! entity := Entity.new cls d in
                  EntityCollection.set (prop record "_id") entity) records w = Ret tt w'
      /\ _source w' = _source w
      /\ List.length (heap w') = List.length (heap w)
      /\ (forall l, record_id w' l = record_id w l)
      /\ List.length (store w') = List.length (store w) + List.length records
      /\ (forall d, In d records ->
                    exists e, map_get (store w') (record_id w d) = Some e
                              /\ data e = d /\ class_name e = Entity.name cls)
      /\ (forall key, (forall d, In d records -> record_id w d <> key) ->
                      map_get (store w') key = map_get (store w) key).
Proof.
  induction records as [ | d rest IH ]; intros w Hvalid Hnodup Hprim Hfresh.
  - exists w. simpl. repeat split; auto. intros d [].
  - inversion Hvalid as [ | ? ? Hd Hvalid' ]; subst.
    inversion Hnodup as [ | ? ? Hnotin Hnodup' ]; subst.
    inversion Hprim as [ | ? ? Hpd Hprim' ]; subst.
    destruct (lookup_lt_is_Some_2 (heap w) d Hd) as [record Hrecord].
    assert (Hid : record_id w d = prop record "_id") by (unfold record_id; now rewrite Hrecord).
    destruct (new_spec cls d w) as (this & w1 & Hnew & Hdata & Hclass & Hsame).
    destruct Hsame as (Hs1 & Hr1 & Ha1 & Hl1 & Hi1).
    set (w2 := {| heap := heap w1; store := map_set (store w1) (prop record "_id") this;
                  _source := _source w1; collection_apps := collection_apps w1;
                  log := log w1 |}).
    assert (Hi2 : forall l, record_id w2 l = record_id w l) by (intros l; apply Hi1).
    destruct (IH w2) as (w' & Hloop & Hr' & Hl' & Hi' & Hlen' & Hget' & Hframe').
    + simpl. rewrite Hl1. exact Hvalid'.
    + erewrite map_ext; [exact Hnodup' | exact Hi2].
    + eapply List.Forall_impl; [ | exact Hprim']. intros l Hl. simpl in Hl. now rewrite Hi2.
    + intros d' Hin. simpl. rewrite Hi2, Hs1, map_get_set_other.
      * apply Hfresh. now right.
      * rewrite <- Hid. intros E. apply Hnotin. rewrite E. now apply in_map.
    + exists w'. simpl for_each. unfold bind at 1. unfold bind at 1. unfold read at 1.
      rewrite Hrecord. unfold bind at 1. rewrite Hnew.
      change (EntityCollection.set (prop record "_id") this w1) with (Ret tt w2).
      split; [exact Hloop | ].
      split; [now rewrite Hr' | ].
      split; [now rewrite Hl' | ].
      split; [intros l; now rewrite Hi', Hi2 | ].
      split; [ | split].
      * rewrite Hlen'. simpl. rewrite Hs1, map_set_length; [lia | ].
        rewrite <- Hid. apply Hfresh. now left.
      * intros d' [<- | Hin].
        -- exists this. split; [ | auto].
           rewrite Hframe'.
           ++ simpl. rewrite Hid. now apply map_get_set_same; rewrite <- Hid.
           ++ intros d' Hin E. apply Hnotin. rewrite Hi2 in E. rewrite <- E.
              now apply in_map.
        -- destruct (Hget' d' Hin) as (e & He & Hde & Hce).
           exists e. rewrite <- Hi2. auto.
      * intros key Hkey. rewrite Hframe'.
        -- simpl. rewrite Hs1. apply map_get_set_other.
           rewrite <- Hid. apply Hkey. now left.
        -- intros d' Hin. rewrite Hi2. apply Hkey. now right.
Qed.

(** C7.  Building an EntityCollection from a snapshot array of [N] records
    with distinct ids always returns: the store then holds exactly [N]
    entities, the source array is the snapshot, and [get(id)] returns, for
    each record, the Entity whose [data] is that record.  Nothing is assumed
    of the initialization passes of the records: where [prepareData] or
    [prepareEmbeddedEntities] throws, [initialize] catches the error. *)
Theorem collection_bootstrap (cls : Entity.Class) (records : list loc) (w : World) :
  Forall (fun d => d < List.length (heap w)) records ->
  List.NoDup (map (record_id w) records) ->
  Forall (fun d => primitive (record_id w d) = true) records ->
  exists w',
    EntityCollection.new (Entity.new cls) records w = Ret tt w'
    /\ List.length (EntityCollection.entities w') = List.length records
    /\ _source w' = records
    /\ forall d, In d records ->
         exists e, EntityCollection.get (record_id w d) false w' = Ret (Some e) w'
                   /\ data e = d /\ class_name e = Entity.name cls.
Proof.
  intros Hvalid Hnodup Hprim.
  set (w0 := {| heap := heap w; store := []; _source := records;
                collection_apps := []; log := log w |}).
  destruct (initialize_loop cls records w0)
    as (w' & Hloop & Hr' & Hl' & Hi' & Hlen' & Hget' & _); auto.
  exists w'. split; [ | split; [ | split]].
  - unfold EntityCollection.new, EntityCollection._initialize, EntityCollection.clear.
    unfold bind at 1. unfold bind at 1. exact Hloop.
  - unfold EntityCollection.entities. now rewrite length_map, Hlen'.
  - exact Hr'.
  - intros d Hin. destruct (Hget' d Hin) as (e & He & Hde & Hce).
    exists e. unfold EntityCollection.get.
    change (record_id w0 d) with (record_id w d) in He. now rewrite He.
Qed.

Lemma collection_bootstrap_witness :
  Forall (fun d => d < List.length (heap snapshot)) [0; 1; 2]
  /\ List.NoDup (map (record_id snapshot) [0; 1; 2])
  /\ (exists w1, Entity.prepareData Actor
                   {| class_name := "Actor"; data := 1; apps := []; embedded := [] |}
                   snapshot = Ret tt w1
                 /\ snd (Entity.prepareEmbeddedEntities Actor
                           {| class_name := "Actor"; data := 1; apps := []; embedded := [] |}
                           w1) = Throw TypeError w1)
  /\ exists w',
       EntityCollection.new (Entity.new Actor) [0; 1; 2] snapshot = Ret tt w'
       /\ List.length (EntityCollection.entities w') = 3
       /\ _source w' = [0; 1; 2]
       /\ forall d, In d [0; 1; 2] ->
            exists e, EntityCollection.get (record_id snapshot d) false w' = Ret (Some e) w'
                      /\ data e = d /\ class_name e = "Actor".
Proof.
  assert (Hvalid : Forall (fun d => d < List.length (heap snapshot)) [0; 1; 2]).
  { repeat constructor; simpl; lia. }
  assert (Hnodup : List.NoDup (map (record_id snapshot) [0; 1; 2])).
  { vm_compute. repeat constructor; simpl; intuition discriminate. }
  assert (Hprim : Forall (fun d => primitive (record_id snapshot d) = true) [0; 1; 2]).
  { repeat constructor. }
  split; [exact Hvalid | split; [exact Hnodup | split]].
  - eexists. split; reflexivity.
  - exact (collection_bootstrap Actor [0; 1; 2] snapshot Hvalid Hnodup Hprim).
Defined.

(** ** Entity.update *)


(** Options that name no [diff] key leave the default in force. *)
Lemma diff_option_default (opts : obj) :
  undotted opts = true -> no_deletion_keys (VObj opts) = true ->
  well_formed (VObj opts) = true -> get opts "diff" = None ->
  exists merged, mergeObject [("diff", VBool true)] opts default_options = Ok merged
                 /\ prop merged "diff" = VBool true.
Proof.
  intros Hu Hnd Hwf Hdiff.
  destruct (mergeObject_default_spec [("diff", VBool true)] opts eq_refl Hu Hnd Hwf)
    as [merged [Hmerged [_ Hframe]]].
  exists merged. split; [exact Hmerged | ].
  unfold prop. now rewrite (Hframe "diff" Hdiff).
Qed.



(** Update items that hold [undefined]: a new key holding it is dropped by
    [expandObject], so the item [{_id, name: undefined}] changes nothing and
    nothing is sent; under [permission] the emptied object differs from the
    current one, and [{permission: {}}] is sent. *)
Example update_undefined_fields :
  Entity.update Actor player one_record_server
                (VObj [("_id", VStr "a1"); ("name", VUndefined)]) [] bootstrapped
  = Ret (Entity.Entities []) bootstrapped
  /\ match Entity.update Actor player one_record_server
                         (VObj [("_id", VStr "a1");
                                ("permission", VObj [("u2", VUndefined)])]) [] bootstrapped
     with
     | Ret _ w' | Throw _ w' =>
         log w' = (log bootstrapped
                   ++ [Dispatched "modifyDocument"
                         {| type := "Actor"; action := "update";
                            payload := VArr [VObj [("permission", VObj []);
                                                   ("_id", VStr "a1")]];
                            options := [("diff", VBool true)];
                            parentType := ""; parentId := VUndefined |}])%list
     end.
Proof. split; vm_compute; reflexivity. Qed.

(** ** The apply step of _handleUpdate *)

Lemma write_then_read (w : World) (l : loc) (d d' : obj) :
  heap w !! l = Some d ->
  exists w', write l d' w = Ret tt w'
             /\ heap w' !! l = Some d'
             /\ store w' = store w /\ _source w' = _source w
             /\ collection_apps w' = collection_apps w /\ log w' = log w.
Proof.
  intros Hl. unfold write. rewrite Hl. eexists. split; [reflexivity | ].
  simpl. repeat split.
  apply list_lookup_insert_eq. eapply lookup_lt_Some; eauto.
Qed.

Lemma mergeObject_inplace_undotted (d o merged : obj) :
  undotted d = true ->
  mergeObject_inplace d o default_options = Ok merged ->
  mergeObject d o default_options = Ok merged.
Proof.
  unfold mergeObject_inplace, undotted. intros Hd.
  apply negb_true_iff in Hd. rewrite Hd.
  destruct (mergeObject d o default_options); simpl; congruence.
Qed.

(** For a record with plain keys the guard of the permission assignment
    holds whenever the record brings a permission map. *)
Lemma permission_guard_plain (d o pm : obj) :
  undotted d = true -> undotted o = true ->
  no_deletion_keys (VObj o) = true -> well_formed (VObj o) = true ->
  get o "permission" = Some (VObj pm) ->
  exists merged, mergeObject_inplace d o default_options = Ok merged
                 /\ truthy (prop merged "permission") = true.
Proof.
  intros Hd Ho Hnd Hwf Hpm.
  destruct (mergeObject_default_spec d o Hd Ho Hnd Hwf) as [R [HR [Hcover _]]].
  exists R. split.
  - unfold mergeObject_inplace, undotted in *. rewrite HR.
    apply negb_true_iff in Hd. simpl. now rewrite Hd.
  - destruct (Hcover "permission" (VObj pm) (get_In _ _ _ Hpm)) as [r [Hr Hinc]].
    unfold prop. rewrite Hr. now destruct r.
Qed.

(** C2.  When the update record holds a permission map and the data of the
    live Entity, as the merge leaves it, holds one too, the apply step ends
    with [data.permission] being exactly the incoming map, so that keys only
    the old map had are gone; every other field is as [mergeObject], with its
    default options (overwrite set), leaves it in place; and for a record and
    live data with plain keys, every other field of the record is then present
    in the data with the incoming value. *)
Theorem apply_update_replaces_permission (this : EntityInstance) (o pm d merged : obj)
  (w : World) :
  heap w !! data this = Some d ->
  get o "permission" = Some (VObj pm) ->
  mergeObject_inplace d o default_options = Ok merged ->
  truthy (prop merged "permission") = true ->
  exists w' d',
    Entity.apply_update this (VObj o) w = Ret tt w'
    /\ heap w' !! data this = Some d'
    /\ get d' "permission" = Some (VObj pm)
    /\ (forall u, get pm u = None -> member (prop d' "permission") u = Ok VUndefined)
    /\ (forall k, k <> "permission" -> get d' k = get merged k)
    /\ (undotted d = true -> undotted o = true ->
        no_deletion_keys (VObj o) = true -> well_formed (VObj o) = true ->
        forall k v, In (k, v) o -> k <> "permission" ->
                    exists r, get d' k = Some r /\ includes v r = true)
    /\ store w' = store w /\ log w' = log w.
Proof.
  intros Hd Hpm Hmerge Hguard.
  destruct (write_then_read w (data this) d merged Hd)
    as (w1 & Hw1 & Hl1 & Hs1 & _ & _ & Hlog1).
  destruct (write_then_read w1 (data this) merged (set merged "permission" (VObj pm)) Hl1)
    as (w2 & Hw2 & Hl2 & Hs2 & _ & _ & Hlog2).
  exists w2, (set merged "permission" (VObj pm)).
  split; [ | split; [exact Hl2 | split; [apply get_set_same | split; [ | split; [ | split]]]]].
  - unfold Entity.apply_update, bind, read, Entity.merge_other, member.
    rewrite Hd. simpl lift. unfold ret at 1. cbv beta iota.
    rewrite Hmerge. simpl lift. unfold ret at 1. cbv beta iota.
    rewrite Hw1. unfold ret at 1. cbv beta iota.
    assert (Hin : prop o "permission" = VObj pm) by (unfold prop; now rewrite Hpm).
    rewrite Hin, Hguard. simpl andb. cbv iota. exact Hw2.
  - intros u Hu. unfold prop at 1. rewrite get_set_same. simpl. unfold prop. now rewrite Hu.
  - intros k Hk. apply get_set_other. congruence.
  - intros Hud Huo Hnd Hwf k v Hin Hk.
    apply mergeObject_inplace_undotted in Hmerge; auto.
    destruct (mergeObject_default_spec d o Hud Huo Hnd Hwf) as [R [HR [Hcover _]]].
    rewrite Hmerge in HR. injection HR as <-.
    destruct (Hcover k v Hin) as [r [Hr Hinc]].
    exists r. split; auto. rewrite get_set_other; auto.
  - split; congruence.
Qed.

Lemma apply_update_replaces_permission_witness :
  let this := {| class_name := "Actor"; data := 0; apps := []; embedded := [] |} in
  let o := [("_id", VStr "a1"); ("hp", VNum 5); ("permission", VObj [("default", VNum 1)])] in
  exists merged w' d',
    heap bootstrapped !! 0 = Some hero
    /\ get hero "permission" = Some (VObj [("default", VNum 0); ("u1", VNum 3)])
    /\ mergeObject_inplace hero o default_options = Ok merged
    /\ Entity.apply_update this (VObj o) bootstrapped = Ret tt w'
    /\ heap w' !! 0 = Some d'
    /\ get d' "permission" = Some (VObj [("default", VNum 1)])
    /\ member (prop d' "permission") "u1" = Ok VUndefined
    /\ get d' "hp" = Some (VNum 5)
    /\ get d' "name" = Some (VStr "Hero").
Proof.
  intros this o.
  destruct (permission_guard_plain hero o [("default", VNum 1)])
    as [merged [Hmerge Hguard]]; try reflexivity.
  assert (Hd : heap bootstrapped !! data this = Some hero) by reflexivity.
  assert (Hpm : get o "permission" = Some (VObj [("default", VNum 1)])) by reflexivity.
  destruct (apply_update_replaces_permission this o _ hero merged bootstrapped
              Hd Hpm Hmerge Hguard)
    as (w' & d' & Hrun & Hl & Hperm & Hgone & Hother & _ & _).
  exists merged, w', d'.
  assert (Hm : merged = [("_id", VStr "a1"); ("name", VStr "Hero");
                         ("items", VArr [VObj [("_id", VStr "i1"); ("name", VStr "Sword")];
                                         VObj [("_id", VStr "i2"); ("name", VStr "Shield")]]);
                         ("permission", VObj [("default", VNum 1); ("u1", VNum 3)]);
                         ("hp", VNum 5)]).
  { vm_compute in Hmerge. now injection Hmerge as <-. }
  repeat split; auto;
    try (now apply Hgone);
    rewrite Hother by discriminate; now rewrite Hm.
Defined.

(** ** Deleting embedded entities *)

Lemma add_log_app (w : World) (a b : list Event) :
  add_log (add_log w a) b = add_log w (a ++ b).
Proof. unfold add_log. simpl. now rewrite <- app_assoc. Qed.

Lemma add_log_nil (w : World) : add_log w [] = w.
Proof. destruct w. unfold add_log. simpl. now rewrite app_nil_r. Qed.

Lemma render_without_data (user : User) (this : EntityInstance) (w : World) :
  Entity.render user this None w = Ret tt (add_log w (map AppRendered (apps this))).
Proof.
  unfold Entity.render, bind, ret. cbv beta iota.
  generalize (apps this). intros l. revert w.
  induction l as [ | app rest IH ]; intros w; simpl.
  - now rewrite add_log_nil.
  - unfold bind, ret. cbv beta iota.
    change (emit (AppRendered app) w) with (Ret tt (add_log w [AppRendered app])).
    cbv beta iota. rewrite IH, add_log_app. reflexivity.
Qed.

Lemma partition_deleted (parent : EntityInstance) (embeddedName : string)
  (deletions docs : list value) :
  Forall (fun doc => exists o, doc = VObj o) docs ->
  forall w,
    partition (fun doc =>
                 let! key := lift (member doc "_id") in
                 if negb (existsb (strict_equal key) deletions) then ret true
                 else Entity._onDeleteEmbeddedEntity parent embeddedName doc ;;; ret false)
              docs w
    = Ret (List.filter (doomed deletions) docs,
           List.filter (fun doc => negb (doomed deletions doc)) docs)
          (add_log w (map (OnDeleteEmbedded (data parent) embeddedName)
                          (List.filter (doomed deletions) docs))).
Proof.
  intros Hdocs.
  set (rule := fun doc : value =>
                 let! key := lift (member doc "_id") in
                 if negb (existsb (strict_equal key) deletions) then ret true
                 else Entity._onDeleteEmbeddedEntity parent embeddedName doc ;;; ret false).
  induction Hdocs as [ | doc rest [o ->] _ IH ]; intros w.
  - simpl. unfold ret. now rewrite add_log_nil.
  - simpl partition. simpl List.filter.
    change (doomed deletions (VObj o)) with (existsb (strict_equal (prop o "_id")) deletions).
    assert (Hrule : rule (VObj o) w
                    = if existsb (strict_equal (prop o "_id")) deletions
                      then Ret false
                             (add_log w [OnDeleteEmbedded (data parent) embeddedName (VObj o)])
                      else Ret true w).
    { unfold rule, bind, ret. simpl.
      now destruct (existsb (strict_equal (prop o "_id")) deletions). }
    unfold bind at 1. rewrite Hrule.
    destruct (existsb (strict_equal (prop o "_id")) deletions); simpl negb; cbv iota.
    + unfold bind at 1. rewrite IH. unfold ret. simpl. now rewrite add_log_app.
    + unfold bind at 1. rewrite IH. reflexivity.
Qed.

Lemma prepareData_configured (cls : Entity.Class) (entityName : string)
  (this : EntityInstance) (d : obj) (w : World) :
  Entity.entity cls = Ok entityName ->
  heap w !! data this = Some d ->
  exists w' d',
    Entity.prepareData cls this w = Ret tt w'
    /\ heap w' !! data this = Some d'
    /\ (forall k, k <> "name" \/ truthy (prop d "name") = true -> get d' k = get d k)
    /\ store w' = store w /\ log w' = log w.
Proof.
  intros Hname Hd. unfold Entity.prepareData, bind, read. rewrite Hd.
  destruct (hasOwnProperty d "name" && negb (truthy (prop d "name"))) eqn:Hcond.
  - rewrite Hname. simpl lift. unfold ret at 1. cbv beta iota.
    destruct (write_then_read w (data this) d (set d "name" (VStr ("New " ++ entityName))) Hd)
      as (w' & Hw & Hl & Hs & _ & _ & Hlog).
    exists w', (set d "name" (VStr ("New " ++ entityName))).
    split; [exact Hw | split; [exact Hl | split; [ | auto]]].
    intros k [Hk | Htruthy].
    + apply get_set_other. congruence.
    + apply andb_prop in Hcond as [_ Hfalsy]. rewrite Htruthy in Hfalsy. discriminate.
  - exists w, d. unfold ret. auto.
Qed.

(** C8.  For a configured class, a parent held by the store and a raw
    embedded array of records: on a delete response carrying the ids [D] the
    handler returns, without throwing, the elements whose [_id] is in [D]; the
    raw embedded array of the parent is then the prior array without exactly
    those elements; and the per-child delete hook has run once for each of
    them, in array order, before the one per-batch modification hook and the
    render of the parent. *)
Theorem handleDeleteEmbeddedEntity_removes (cls : Entity.Class) (user : User)
  (response : Response) (w : World) (cfg : Entity.Config) (entityName : string)
  (classes : list string) (field : string) (parent : EntityInstance) (d : obj)
  (docs : list value) :
  Entity.config cls = Ok cfg ->
  Entity.baseEntity cfg = Some entityName ->
  Entity.collection cfg = Some classes ->
  Entity.lookup_embedded (Entity.embeddedEntities cfg) (type (request response)) = Some field ->
  field <> "" ->
  map_get (store w) (parentId (request response)) = Some parent ->
  heap w !! data parent = Some d ->
  get d field = Some (VArr docs) ->
  Forall (fun doc => exists o, doc = VObj o) docs ->
  exists w' d',
    Entity._handleDeleteEmbeddedEntity cls user response w
    = Ret (List.filter (doomed (result response)) docs) w'
    /\ heap w' !! data parent = Some d'
    /\ get d' field
       = Some (VArr (List.filter (fun doc => negb (doomed (result response) doc)) docs))
    /\ log w'
       = (log w
          ++ map (OnDeleteEmbedded (data parent) (type (request response)))
                 (List.filter (doomed (result response)) docs)
          ++ [OnModifyEmbedded (data parent) (type (request response))]
          ++ map AppRendered (apps parent))%list
    /\ store w' = store w.
Proof.
  intros Hcfg Hbase Hcoll Hfield Hne Hparent Hd Hdocs Hrecords.
  set (embeddedName := type (request response)) in *.
  set (deleted := List.filter (doomed (result response)) docs).
  set (surviving := List.filter (fun doc => negb (doomed (result response) doc)) docs).
  set (w1 := add_log w (map (OnDeleteEmbedded (data parent) embeddedName) deleted)).
  assert (Hd1 : heap w1 !! data parent = Some d) by exact Hd.
  destruct (write_then_read w1 (data parent) d (set d field (VArr surviving)) Hd1)
    as (w2 & Hw2 & Hl2 & Hs2 & Hr2 & Ha2 & Hlog2).
  set (w3 := add_log w2 [OnModifyEmbedded (data parent) embeddedName]).
  assert (Hname : Entity.entity cls = Ok entityName).
  { unfold Entity.entity. rewrite Hcfg. simpl. now rewrite Hbase. }
  destruct (prepareData_configured cls entityName parent (set d field (VArr surviving)) w3
              Hname Hl2) as (w4 & d' & Hprep & Hl4 & Hkeep & Hs4 & Hlog4).
  exists (add_log w4 (map AppRendered (apps parent))), d'.
  split; [ | split; [exact Hl4 | split; [ | split]]].
  - unfold Entity._handleDeleteEmbeddedEntity. fold embeddedName.
    unfold bind at 1. unfold Entity.collection_of. rewrite Hcfg. simpl rbind.
    rewrite Hcoll. simpl lift. unfold ret at 1. cbv beta iota.
    unfold bind at 1. unfold EntityCollection.get. rewrite Hparent.
    unfold bind at 1. unfold Entity.getEmbeddedCollection.
    unfold bind at 1. rewrite Hcfg. simpl lift. unfold ret at 1. cbv beta iota.
    rewrite Hfield.
    destruct (String.eqb_spec field "") as [E | _]; [contradiction | ].
    unfold bind at 1. unfold read at 1. rewrite Hd. unfold ret at 1.
    assert (Harr : prop d field = VArr docs) by (unfold prop; now rewrite Hdocs).
    rewrite Harr.
    unfold bind at 1. rewrite (partition_deleted parent embeddedName _ docs Hrecords).
    fold deleted surviving w1. cbv beta iota. simpl fst. simpl snd.
    unfold bind at 1. unfold ret at 1. cbv beta iota.
    unfold bind at 1. unfold read at 1. rewrite Hd1. rewrite Hfield.
    unfold bind at 1. rewrite Hw2.
    unfold bind at 1. unfold Entity._onModifyEmbeddedEntity.
    unfold bind at 1.
    change (emit (OnModifyEmbedded (data parent) embeddedName) w2) with (Ret tt w3).
    cbv beta iota. unfold bind at 1. rewrite Hprep.
    rewrite render_without_data. reflexivity.
  - destruct (string_dec field "name") as [-> | Hfn].
    + rewrite Hkeep; [apply get_set_same | right].
      unfold prop. now rewrite get_set_same.
    + rewrite Hkeep; [apply get_set_same | left; congruence].
  - simpl. rewrite Hlog4. simpl. rewrite Hlog2. simpl.
    now rewrite <- !app_assoc.
  - simpl. now rewrite Hs4.
Qed.

Lemma handleDeleteEmbeddedEntity_removes_witness :
  let response :=
    {| request := {| type := "OwnedItem"; action := "delete"; payload := VArr [VStr "i1"];
                     options := []; parentType := "Actor"; parentId := VStr "a1" |};
       result := [VStr "i1"]; userId := "u1" |} in
  exists parent w' d',
    map_get (store bootstrapped) (VStr "a1") = Some parent
    /\ heap bootstrapped !! data parent = Some hero
    /\ Entity._handleDeleteEmbeddedEntity Actor player response bootstrapped
       = Ret [VObj [("_id", VStr "i1"); ("name", VStr "Sword")]] w'
    /\ heap w' !! data parent = Some d'
    /\ get d' "items" = Some (VArr [VObj [("_id", VStr "i2"); ("name", VStr "Shield")]])
    /\ log w' = [ConsoleError TypeError;
                 OnDeleteEmbedded 0 "OwnedItem" (VObj [("_id", VStr "i1"); ("name", VStr "Sword")]);
                 OnModifyEmbedded 0 "OwnedItem"].
Proof.
  intros response.
  set (parent := {| class_name := "Actor"; data := 0; apps := [];
                    embedded := [("items", [VObj [("_id", VStr "i1"); ("name", VStr "Sword")];
                                            VObj [("_id", VStr "i2"); ("name", VStr "Shield")]])] |}).
  set (cfg := {| Entity.baseEntity := Some "Actor"; Entity.collection := Some ["Actor"];
                 Entity.embeddedEntities := [("OwnedItem", "items")] |}).
  assert (Hparent : map_get (store bootstrapped) (parentId (request response)) = Some parent)
    by reflexivity.
  assert (Hd : heap bootstrapped !! data parent = Some hero) by reflexivity.
  assert (Hne : "items" <> "") by discriminate.
  assert (Hrecords : Forall (fun doc => exists o, doc = VObj o)
                       [VObj [("_id", VStr "i1"); ("name", VStr "Sword")];
                        VObj [("_id", VStr "i2"); ("name", VStr "Shield")]]).
  { repeat constructor; eexists; reflexivity. }
  destruct (handleDeleteEmbeddedEntity_removes Actor player response bootstrapped cfg
              "Actor" ["Actor"] "items" parent hero _
              eq_refl eq_refl eq_refl eq_refl Hne Hparent Hd eq_refl Hrecords)
    as (w' & d' & Hrun & Hl & Hitems & Hlog & _).
  exists parent, w', d'.
  repeat split; auto.
Defined.

(** * Further properties of the utilities *)

(** ** [expandObject] *)

Lemma set_fresh (o : obj) (k : string) (v : value) :
  get o k = None -> set o k v = (o ++ [(k, v)])%list.
Proof.
  induction o as [ | [k' v'] rest IH ]; simpl; [reflexivity | ].
  destruct (k' =? k)%string; [discriminate | ].
  intros H. rewrite IH by exact H. reflexivity.
Qed.

Lemma expandValue_unfold (entries : obj) (_d : nat) :
  expandValue (VObj entries) _d =
  if (10 <? _d)%nat then Err MaxDepth
  else let* expanded := expand_entries _d entries [] in Ok (VObj expanded).
Proof.
  simpl. destruct (10 <? _d)%nat; [reflexivity | ].
  f_equal. generalize (@nil (string * value)).
  induction entries as [ | [k v] rest IH ]; intros acc; simpl; [reflexivity | ].
  destruct v; simpl; try (destruct (setProperty acc k _); simpl; [apply IH | reflexivity]).
  match goal with |- rbind ?x _ = rbind ?y _ => change x with y; destruct y end; simpl;
    [ | reflexivity].
  destruct (setProperty acc k a); simpl; [apply IH | reflexivity].
Qed.


#[local] Arguments expandValue : simpl never.
#[local] Arguments nesting : simpl never.
#[local] Arguments plain_keys : simpl never.

Lemma nesting_cons (k : string) (v : value) (rest : obj) :
  nesting (VObj ((k, v) :: rest)) = S (Nat.max (nesting v) (Nat.pred (nesting (VObj rest)))).
Proof. reflexivity. Qed.

Lemma nesting_obj_pos (fs : obj) : nesting (VObj fs) = S (Nat.pred (nesting (VObj fs))).
Proof. reflexivity. Qed.

Lemma distinct_app_drop (front : list string) (k : string) (rest : list string) :
  distinct (front ++ k :: rest) = true -> distinct (front ++ rest) = true.
Proof.
  induction front as [ | k' more IH ]; simpl; intros Hd.
  - apply andb_true_iff in Hd as [_ Hd]. exact Hd.
  - apply andb_true_iff in Hd as [Hfresh Hd]. apply andb_true_iff. split; [ | exact (IH Hd)].
    apply negb_true_iff. apply negb_true_iff in Hfresh.
    destruct (existsb (String.eqb k') (more ++ rest)) eqn:Hin; [ | reflexivity].
    rewrite <- Hfresh. symmetry. apply existsb_exists.
    apply existsb_exists in Hin as [x [Hx Heq]]. exists x. split; [ | exact Heq].
    apply in_app_or in Hx as [Hx | Hx]; apply in_or_app; [left | right; right]; exact Hx.
Qed.

Lemma fresh_in_front (expanded : obj) (k : string) (v : value) (rest : obj) :
  distinct (keys (expanded ++ (k, v) :: rest)%list) = true -> get expanded k = None.
Proof.
  intros Hd. unfold keys in Hd. rewrite map_app in Hd. simpl in Hd.
  apply get_None_keys. intros Hin.
  induction expanded as [ | [k' v'] more IHm ]; simpl in *; [tauto | ].
  apply andb_true_iff in Hd as [Hd1 Hd2]. destruct Hin as [-> | Hin].
  - apply negb_true_iff in Hd1.
    assert (existsb (String.eqb k) (map fst more ++ k :: map fst rest) = true);
      [ | congruence].
    apply existsb_eqb_In. apply in_or_app. right. left. reflexivity.
  - apply IHm; assumption.
Qed.

Lemma copied_object (fs : obj) : copied (VObj fs) = VObj (copied_fields fs).
Proof. reflexivity. Qed.

#[local] Arguments copied : simpl never.

Lemma copied_undefined (v : value) :
  strict_equal VUndefined (copied v) = strict_equal VUndefined v.
Proof. destruct v; reflexivity. Qed.

Lemma copied_fields_cons (k : string) (v : value) (rest : obj) :
  copied_fields ((k, v) :: rest)
  = ((if strict_equal VUndefined v && negb (inherited k) then [] else [(k, copied v)])
     ++ copied_fields rest)%list.
Proof. reflexivity. Qed.

Lemma expand_entries_plain (_d : nat) (entries : obj) :
  Forall (fun kv => forall _d', nesting (snd kv) + _d' <= 11 ->
                                expandValue (snd kv) _d' = Ok (copied (snd kv))) entries ->
  forall expanded,
    distinct (keys (expanded ++ entries)%list) = true ->
    forallb (fun kv => negb (has_dot (fst kv)) && negb (fst kv =? "__proto__")) entries
    = true ->
    nesting (VObj entries) + _d <= 11 ->
    expand_entries _d entries expanded = Ok (expanded ++ copied_fields entries)%list.
Proof.
  induction 1 as [ | [k v] rest Hv _ IH ]; intros expanded Hd Hk Hn.
  - simpl. rewrite app_nil_r. reflexivity.
  - simpl in Hk. apply andb_true_iff in Hk as [Hk Hrest].
    apply andb_true_iff in Hk as [Hk Hproto].
    apply negb_true_iff in Hk. apply negb_true_iff in Hproto.
    rewrite nesting_cons in Hn. simpl in Hv.
    assert (Hv' : (match v with VObj _ => expandValue v (S _d) | _ => Ok v end)
                  = Ok (copied v)).
    { destruct v; try reflexivity. apply Hv. lia. }
    simpl expand_entries. rewrite Hv'. simpl rbind.
    unfold setProperty. rewrite Hk. unfold assign.
    rewrite (fresh_in_front _ _ _ _ Hd), Hproto, copied_undefined, copied_fields_cons.
    rewrite (andb_comm (negb (inherited k))).
    destruct (strict_equal VUndefined v && negb (inherited k)); simpl rbind.
    + apply IH; [ | exact Hrest | rewrite (nesting_obj_pos rest); lia].
      unfold keys in *. rewrite map_app in *. exact (distinct_app_drop _ _ _ Hd).
    + rewrite (set_fresh _ _ _ (fresh_in_front _ _ _ _ Hd)). rewrite IH.
      * rewrite <- app_assoc. reflexivity.
      * rewrite <- app_assoc. unfold keys in *. rewrite !map_app in *. exact Hd.
      * exact Hrest.
      * rewrite (nesting_obj_pos rest). lia.
Qed.

Lemma expandValue_plain (v : value) :
  well_formed v = true -> plain_keys v = true ->
  forall _d, nesting v + _d <= 11 -> expandValue v _d = Ok (copied v).
Proof.
  induction v as [ | | b | n | s | items _ | fields IH ] using value_nested_ind;
    intros Hwf Hplain _d Hn; try reflexivity.
  rewrite expandValue_unfold.
  rewrite nesting_obj_pos in Hn.
  destruct (10 <? _d)%nat eqn:Hdepth; [apply Nat.ltb_lt in Hdepth; lia | ].
  unfold well_formed in Hwf; fold well_formed in Hwf.
  apply andb_true_iff in Hwf as [Hdist Hwf].
  unfold plain_keys in Hplain; fold plain_keys in Hplain.
  rewrite (expand_entries_plain _d fields).
  - reflexivity.
  - rewrite List.Forall_forall in IH. apply List.Forall_forall. intros kv Hin _d' Hn'.
    rewrite forallb_forall in Hwf, Hplain. specialize (Hplain kv Hin).
    apply andb_true_iff in Hplain as [_ Hplain].
    apply IH; auto.
  - exact Hdist.
  - rewrite forallb_forall in Hplain. apply forallb_forall. intros kv Hin.
    specialize (Hplain kv Hin). apply andb_true_iff in Hplain as [Hplain _]. exact Hplain.
  - rewrite <- nesting_obj_pos in Hn. exact Hn.
Qed.

Lemma copied_all_defined (v : value) : all_defined v = true -> copied v = v.
Proof.
  induction v as [ | | b | n | s | items _ | fields IH ] using value_nested_ind;
    intros Hdef; try reflexivity.
  rewrite copied_object. f_equal.
  unfold all_defined in Hdef; fold all_defined in Hdef.
  induction IH as [ | [k v] rest Hv _ IHrest ]; [reflexivity | ].
  simpl in Hdef. apply andb_true_iff in Hdef as [Hkv Hdef].
  apply andb_true_iff in Hkv as [Hv1 Hv2]. apply negb_true_iff in Hv1.
  rewrite copied_fields_cons, (IHrest Hdef).
  assert (Hu : strict_equal VUndefined v = false) by (destruct v; auto).
  rewrite Hu. simpl in Hv |- *. rewrite (Hv Hv2). reflexivity.
Qed.

(** X1.  Expanding an object that needs no expansion copies it: for an
    object whose keys, at every depth of object nesting, are distinct, hold
    no dot and are not [__proto__], and in which objects nest at most eleven
    deep, [expandObject] returns the object without its properties that hold
    [undefined] (one whose key names a member of [Object.prototype] is kept),
    the others in the same order with the same values; an object none of
    whose properties holds [undefined] is returned as it is. *)
Theorem expandObject_plain_identity (o : obj) :
  well_formed (VObj o) = true -> plain_keys (VObj o) = true -> nesting (VObj o) <= 11 ->
  expandObject o = Ok (copied_fields o)
  /\ (all_defined (VObj o) = true -> expandObject o = Ok o).
Proof.
  intros Hwf Hplain Hn.
  assert (Hrun : expandObject o = Ok (copied_fields o)).
  { unfold expandObject.
    rewrite expandValue_plain by (try assumption; lia). reflexivity. }
  split; [exact Hrun | ]. intros Hdef. rewrite Hrun.
  pose proof (copied_all_defined (VObj o) Hdef) as Hsame.
  rewrite copied_object in Hsame. congruence.
Qed.

Lemma expandObject_plain_identity_witness :
  let o := [("_id", VStr "a1"); ("hp", VObj [("value", VNum 5); ("max", VNum 9)]);
            ("tags", VArr [VStr "x"])] in
  let sparse := [("_id", VStr "a1"); ("name", VUndefined);
                 ("permission", VObj [("u2", VUndefined)])] in
  well_formed (VObj o) = true /\ plain_keys (VObj o) = true /\ nesting (VObj o) <= 11
  /\ all_defined (VObj o) = true
  /\ expandObject o = Ok o
  /\ expandObject sparse = Ok [("_id", VStr "a1"); ("permission", VObj [])].
Proof.
  split; [reflexivity | ]. split; [reflexivity | ]. split; [vm_compute; lia | ].
  split; [reflexivity | ]. split.
  - apply expandObject_plain_identity; [reflexivity | reflexivity | vm_compute; lia | ].
    reflexivity.
  - apply (expandObject_plain_identity
             [("_id", VStr "a1"); ("name", VUndefined);
              ("permission", VObj [("u2", VUndefined)])]);
      [reflexivity | reflexivity | vm_compute; lia].
Defined.

Lemma expand_entries_deep (_d : nat) (entries : obj) :
  Forall (fun kv => forall _d', 11 < nesting (snd kv) + _d' -> 0 < nesting (snd kv) ->
                                exists e, expandValue (snd kv) _d' = Err e) entries ->
  11 < nesting (VObj entries) + _d -> _d <= 10 ->
  forall expanded, exists e, expand_entries _d entries expanded = Err e.
Proof.
  induction 1 as [ | [k v] rest Hv _ IH ]; intros Hn Hd expanded.
  - change (nesting (VObj [])) with 1 in Hn. lia.
  - rewrite nesting_cons in Hn. simpl in Hv. simpl.
    destruct (Nat.le_ge_cases (Nat.pred (nesting (VObj rest))) (nesting v)) as [Hmax | Hmax].
    + rewrite Nat.max_l in Hn by exact Hmax.
      destruct (Hv (S _d)) as [e He]; [lia | lia | ].
      destruct v; try (change (nesting _) with 0 in Hn; lia).
      rewrite He. exists e. reflexivity.
    + rewrite Nat.max_r in Hn by exact Hmax.
      destruct (match v with VObj _ => expandValue v (S _d) | _ => Ok v end) as [v' | e];
        simpl; [ | exists e; reflexivity].
      destruct (setProperty expanded k v') as [expanded' | e]; simpl; [ | exists e; reflexivity].
      apply IH; [ | exact Hd]. rewrite (nesting_obj_pos rest). lia.
Qed.

Lemma expandValue_deep (v : value) :
  forall _d, 11 < nesting v + _d -> 0 < nesting v -> exists e, expandValue v _d = Err e.
Proof.
  induction v as [ | | b | n | s | items _ | fields IH ] using value_nested_ind;
    intros _d Hn Hpos; try (change (nesting _) with 0 in Hpos; lia).
  rewrite expandValue_unfold.
  destruct (10 <? _d)%nat eqn:Hdepth; [exists MaxDepth; reflexivity | ].
  apply Nat.ltb_ge in Hdepth.
  destruct (expand_entries_deep _d fields IH Hn Hdepth []) as [e He].
  rewrite He. exists e. reflexivity.
Qed.

(** X2.  The depth guard of [expandObject]: an object in which objects nest
    more than eleven deep is never expanded, the call throws. *)
Theorem expandObject_depth_limit (o : obj) :
  11 < nesting (VObj o) -> exists e, expandObject o = Err e.
Proof.
  intros Hn. unfold expandObject.
  destruct (expandValue_deep (VObj o) 0) as [e He];
    [lia | rewrite nesting_obj_pos; lia | ].
  rewrite He. exists e. reflexivity.
Qed.

Lemma expandObject_depth_limit_witness :
  let deep := fun v => VObj [("a", v)] in
  let o := [("a", deep (deep (deep (deep (deep (deep (deep (deep (deep (deep (deep
             (VNum 1))))))))))))] in
  11 < nesting (VObj o) /\ exists e, expandObject o = Err e.
Proof.
  split; [vm_compute; lia | ].
  apply expandObject_depth_limit. vm_compute. lia.
Defined.

(** ** [setProperty], [getProperty] and [hasProperty] *)

Lemma split_dot_nonempty (k : string) : split_dot k <> [].
Proof.
  destruct k as [ | c rest ]; simpl; [discriminate | ].
  destruct (Ascii.eqb c "."); [discriminate | ].
  destruct (split_dot rest); discriminate.
Qed.

Lemma assign_get (o o' : obj) (key : string) (v : value) :
  strict_equal v VUndefined = false ->
  assign o key v = Ok o' -> get o' key = Some v.
Proof.
  intros Hv. unfold assign. destruct (get o key) as [x | ] eqn:Hget.
  - intros [= <-]. destruct (strict_equal x v) eqn:Heq.
    + apply strict_equal_eq in Heq. congruence.
    + apply get_set_same.
  - destruct (key =? "__proto__")%string; [discriminate | ].
    assert (Hu : strict_equal VUndefined v = false) by (destruct v; auto; discriminate).
    rewrite Hu, andb_false_r. intros [= <-]. apply get_set_same.
Qed.

Lemma set_path_get_path (parts : list string) (key : string) (v : value) :
  strict_equal v VUndefined = false ->
  forall target updated,
    set_path target parts key v = Ok updated ->
    get_path updated (parts ++ [key]) = Ok (Found v).
Proof.
  intros Hv.
  assert (Hu : strict_equal VUndefined v = false) by (destruct v; auto; discriminate).
  induction parts as [ | i rest IH ]; intros target updated Hset.
  - destruct target; cbn [set_path] in Hset; try discriminate.
    + destruct (key =? "__proto__")%string; [discriminate | ].
      rewrite Hu in Hset. discriminate.
    + destruct (key =? "__proto__")%string; [discriminate | ].
      rewrite Hu in Hset. discriminate.
    + destruct (assign fields key v) as [o' | e] eqn:Ha; simpl in Hset; [ | discriminate].
      injection Hset as <-. simpl. rewrite (assign_get _ _ _ _ Hv Ha). reflexivity.
  - destruct target; simpl in Hset; try discriminate;
      try (destruct (i =? "__proto__")%string; discriminate).
    destruct (hasOwnProperty fields "hasOwnProperty"); [discriminate | ].
    destruct (negb (hasOwnProperty fields i) && (i =? "__proto__")%string);
      [discriminate | ].
    destruct (set_path _ rest key v) as [inner | e] eqn:Hinner; simpl in Hset; [ | discriminate].
    injection Hset as <-. simpl. rewrite get_set_same. apply (IH _ _ Hinner).
Qed.

(** X3.  What [setProperty] writes, [getProperty] reads back: when
    [setProperty(object, key, value)] returns, for a non-empty key (dotted or
    not) and a value other than [undefined], [getProperty(object, key)] is the
    value and [hasProperty(object, key)] is true. *)
Theorem setProperty_getProperty (object updated : obj) (key : string) (v : value) :
  truthy (VStr key) = true ->
  strict_equal v VUndefined = false ->
  setProperty object key v = Ok updated ->
  getProperty (VObj updated) key = Ok v /\ hasProperty (VObj updated) key = Ok true.
Proof.
  intros Hkey Hv Hset.
  assert (Hpath : get_path (VObj updated) (split_dot key) = Ok (Found v)).
  { unfold setProperty in Hset. destruct (has_dot key) eqn:Hdot.
    - destruct (set_path _ _ _ v) as [r | e] eqn:Hr; simpl in Hset; [ | discriminate].
      destruct r; try discriminate. injection Hset as <-.
      rewrite (app_removelast_last "" (split_dot_nonempty key)).
      apply (set_path_get_path _ _ _ Hv _ _ Hr).
    - assert (Hsplit : split_dot key = [key]).
      { clear - Hdot. induction key as [ | c rest IH ]; [reflexivity | ].
        simpl in *. apply orb_false_iff in Hdot as [Hc Hrest]. rewrite Hc.
        rewrite (IH Hrest). reflexivity. }
      rewrite Hsplit. simpl. rewrite (assign_get _ _ _ _ Hv Hset). reflexivity. }
  unfold getProperty, hasProperty. rewrite Hpath.
  rewrite Hkey. split; reflexivity.
Qed.

Lemma setProperty_getProperty_witness :
  let object := [("hp", VObj [("value", VNum 3)])] in
  let updated := [("hp", VObj [("value", VNum 3); ("max", VNum 9)])] in
  setProperty object "hp.max" (VNum 9) = Ok updated
  /\ getProperty (VObj updated) "hp.max" = Ok (VNum 9)
  /\ hasProperty (VObj updated) "hp.max" = Ok true.
Proof.
  split; [reflexivity | ].
  apply (setProperty_getProperty [("hp", VObj [("value", VNum 3)])]); reflexivity.
Defined.

Lemma split_dot_app (a b : string) :
  has_dot a = false -> split_dot (a ++ "." ++ b) = a :: split_dot b.
Proof.
  induction a as [ | c rest IH ]; intros Hdot; [reflexivity | ].
  simpl in *. apply orb_false_iff in Hdot as [Hc Hrest]. rewrite Hc.
  rewrite (IH Hrest). reflexivity.
Qed.

Lemma inherited_undotted (b : string) : inherited b = true -> split_dot b = [b].
Proof.
  intros H. apply existsb_exists in H as [x [Hin Heq]].
  apply String.eqb_eq in Heq. subst x. simpl in Hin.
  repeat (destruct Hin as [<- | Hin]; [reflexivity | ]). destruct Hin.
Qed.

Lemma get_path_primitive (x : value) (p : string) (ps : list string) :
  primitive x = true ->
  get_path x (p :: ps)
  = if truthy x then Err TypeError
    else if inherited p then match ps with [] => Ok Builtin | _ :: _ => Err Unmodelled end
         else Ok Absent.
Proof.
  intros Hprim. cbn [get_path].
  destruct x as [ | | [ | ] | n | s | | ]; try discriminate; try reflexivity.
  - simpl. destruct (n =? 0)%Z; reflexivity.
  - simpl. destruct (s =? "")%string; reflexivity.
Qed.

(** X4.  A path that runs through a value which is no object: when the
    object holds a primitive under the first segment of a dotted key,
    [hasProperty] and [getProperty] throw a TypeError if that primitive is
    truthy (the [in] operator is applied to it).  If it is falsy
    ([undefined], [null], [false], [0] or the empty string) the walk goes on
    in [{}]: they answer [false] and [undefined] when the next segment names
    no member of [Object.prototype], and [hasProperty] answers [true] when
    the rest of the key is such a name. *)
Theorem getProperty_through_primitive (o : obj) (a b : string) (x : value) :
  has_dot a = false ->
  get o a = Some x ->
  primitive x = true ->
  (truthy x = true ->
   hasProperty (VObj o) (a ++ "." ++ b) = Err TypeError
   /\ getProperty (VObj o) (a ++ "." ++ b) = Err TypeError)
  /\ (truthy x = false -> inherited (hd "" (split_dot b)) = false ->
      hasProperty (VObj o) (a ++ "." ++ b) = Ok false
      /\ getProperty (VObj o) (a ++ "." ++ b) = Ok VUndefined)
  /\ (truthy x = false -> inherited b = true ->
      hasProperty (VObj o) (a ++ "." ++ b) = Ok true).
Proof.
  intros Hdot Hget Hprim.
  assert (Hkey : truthy (VStr (a ++ "." ++ b)) = true).
  { destruct a; reflexivity. }
  assert (Hwalk : get_path (VObj o) (split_dot (a ++ "." ++ b)) = get_path x (split_dot b)).
  { rewrite (split_dot_app _ _ Hdot). cbn [get_path truthy]. rewrite Hget. reflexivity. }
  unfold hasProperty, getProperty. rewrite Hkey, Hwalk. cbn [negb].
  destruct (split_dot b) as [ | p ps ] eqn:Hb; [destruct (split_dot_nonempty _ Hb) | ].
  rewrite (get_path_primitive x p ps Hprim). cbn [hd].
  split; [ | split].
  - intros ->. split; reflexivity.
  - intros -> ->. split; reflexivity.
  - intros -> Hin. rewrite (inherited_undotted b Hin) in Hb.
    injection Hb as <- <-. rewrite Hin. reflexivity.
Qed.

Lemma getProperty_through_primitive_witness :
  let o := [("hp", VNum 5); ("mp", VNum 0)] in
  hasProperty (VObj o) "hp.max" = Err TypeError
  /\ getProperty (VObj o) "hp.max" = Err TypeError
  /\ hasProperty (VObj o) "mp.max" = Ok false
  /\ getProperty (VObj o) "mp.max" = Ok VUndefined
  /\ hasProperty (VObj o) "mp.constructor" = Ok true.
Proof.
  pose proof (getProperty_through_primitive
                [("hp", VNum 5); ("mp", VNum 0)] "hp" "max" (VNum 5)
                eq_refl eq_refl eq_refl) as [Htruthy _].
  pose proof (getProperty_through_primitive
                [("hp", VNum 5); ("mp", VNum 0)] "mp" "max" (VNum 0)
                eq_refl eq_refl eq_refl) as [_ [Hfalsy _]].
  pose proof (getProperty_through_primitive
                [("hp", VNum 5); ("mp", VNum 0)] "mp" "constructor" (VNum 0)
                eq_refl eq_refl eq_refl) as [_ [_ Hbuiltin]].
  destruct (Htruthy eq_refl) as [H1 H2].
  destruct (Hfalsy eq_refl eq_refl) as [H3 H4].
  pose proof (Hbuiltin eq_refl eq_refl) as H5.
  repeat split; assumption.
Defined.

(** ** [mergeObject] *)

Lemma set_same (o : obj) (k : string) (v : value) : get o k = Some v -> set o k v = o.
Proof.
  induction o as [ | [k' v'] rest IH ]; simpl; [discriminate | ].
  destruct (k' =? k)%string; intros H.
  - congruence.
  - rewrite IH by exact H. reflexivity.
Qed.

Lemma set_fresh_again (o : obj) (k : string) (a b : value) :
  get o k = None -> set (o ++ [(k, a)])%list k b = (o ++ [(k, b)])%list.
Proof.
  induction o as [ | [k' v'] rest IH ]; simpl.
  - rewrite String.eqb_refl. reflexivity.
  - destruct (k' =? k)%string; [discriminate | ].
    intros H. rewrite IH by exact H. reflexivity.
Qed.

Lemma distinct_app_fresh (acc : obj) (k : string) (rest : list string) :
  distinct (keys acc ++ k :: rest) = true -> get acc k = None.
Proof.
  intros Hd. apply get_None_keys. intros Hin.
  induction acc as [ | [k' v'] more IH ]; simpl in *; [tauto | ].
  apply andb_true_iff in Hd as [Hd1 Hd2]. destruct Hin as [-> | Hin].
  - apply negb_true_iff in Hd1.
    assert (existsb (String.eqb k) (keys more ++ k :: rest) = true); [ | congruence].
    apply existsb_eqb_In. apply in_or_app. right. left. reflexivity.
  - apply IH; assumption.
Qed.

Section MergeInsert.

Variable o : MergeOptions.
Hypothesis HinsertKeys : insertKeys o = true.
Hypothesis HinsertValues : insertValues o = true.

Lemma merge_entries_fresh (entries : obj) :
  Forall (fun kv => forall fs _d, snd kv = VObj fs -> well_formed (snd kv) = true ->
                                  no_deletion_keys (snd kv) = true ->
                                  merge_entries o _d [] fs = Ok fs) entries ->
  forall _d acc,
    distinct (keys (acc ++ entries)%list) = true ->
    forallb (fun kv => well_formed (snd kv)) entries = true ->
    no_deletion_keys (VObj entries) = true ->
    merge_entries o _d acc entries = Ok (acc ++ entries)%list.
Proof.
  induction 1 as [ | [k v] rest Hv _ IH ]; intros _d acc Hd Hwf Hndk; simpl.
  - rewrite app_nil_r. reflexivity.
  - simpl in Hwf, Hndk, Hv.
    apply andb_true_iff in Hwf as [Hwfv Hwf].
    apply andb_true_iff in Hndk as [Hk Hndk]. apply andb_true_iff in Hk as [Hk Hndkv].
    apply negb_true_iff in Hk.
    assert (Hfresh : get acc k = None).
    { unfold keys in Hd. rewrite map_app in Hd. apply (distinct_app_fresh _ _ _ Hd). }
    assert (Hstep : merge_entry o _d acc k v = Ok (acc ++ [(k, v)])%list).
    { unfold merge_entry. rewrite Hk. cbv zeta. simpl andb.
      unfold hasOwnProperty, prop. rewrite Hfresh. simpl.
      destruct (getType v =? "Object") eqn:Htv.
      - assert (Hfs : exists fs, v = VObj fs) by (destruct v; try discriminate; eauto).
        destruct Hfs as [fs ->]. rewrite get_set_same. simpl.
        rewrite merge_loop_unfold, (Hv fs (S _d) eq_refl Hwfv Hndkv). simpl.
        rewrite (set_fresh _ _ _ Hfresh), (set_fresh_again _ _ _ _ Hfresh). reflexivity.
      - change (_d =? 0)%nat with (S _d =? 1)%nat.
        rewrite (can_insert o HinsertKeys HinsertValues).
        rewrite (set_fresh _ _ _ Hfresh). reflexivity. }
    rewrite Hstep. simpl. rewrite IH.
    + rewrite <- app_assoc. reflexivity.
    + rewrite <- app_assoc. exact Hd.
    + exact Hwf.
    + exact Hndk.
Qed.

Lemma merge_into_empty (v : value) :
  forall fs _d, v = VObj fs -> well_formed v = true -> no_deletion_keys v = true ->
                merge_entries o _d [] fs = Ok fs.
Proof.
  induction v as [ | | b | n | s | items _ | fields IH ] using value_nested_ind;
    intros fs _d Hv Hwf Hndk; try discriminate.
  injection Hv as <-.
  unfold well_formed in Hwf; fold well_formed in Hwf.
  apply andb_true_iff in Hwf as [Hdist Hwf].
  rewrite (merge_entries_fresh fields IH _d []); auto.
Qed.

End MergeInsert.

(** X5.  Merging into an empty object copies: for an object [B] with
    distinct keys, no dot in a top-level key and no ["-="] key at any depth,
    [mergeObject({}, B, options)] returns an object with the keys of [B], in
    the same order, holding the same values, whatever [overwrite],
    [enforceTypes] and [inplace] are, as long as insertion is allowed. *)
Theorem mergeObject_into_empty (B : obj) (o : MergeOptions) :
  insertKeys o = true -> insertValues o = true ->
  undotted B = true -> well_formed (VObj B) = true -> no_deletion_keys (VObj B) = true ->
  mergeObject [] B o = Ok B.
Proof.
  intros Hk Hv Hdot Hwf Hndk. unfold mergeObject.
  replace (if negb (inplace o) then duplicate_obj [] else []) with (@nil (string * value))
    by (destruct (inplace o); reflexivity).
  unfold undotted in Hdot. apply negb_true_iff in Hdot. rewrite Hdot. simpl.
  rewrite merge_loop_unfold. apply (merge_into_empty o Hk Hv (VObj B)); auto.
Qed.

Lemma mergeObject_into_empty_witness :
  let B := [("name", VStr "Hero"); ("hp", VObj [("value", VNum 5); ("max", VNum 9)])] in
  let keep := {| insertKeys := true; insertValues := true; overwrite := false;
                 inplace := false; enforceTypes := true |} in
  mergeObject [] B keep = Ok B.
Proof.
  apply mergeObject_into_empty; reflexivity.
Defined.


Lemma includes_object_shape (fs : obj) (x : value) :
  includes (VObj fs) x = true -> exists rf, x = VObj rf.
Proof.
  destruct x; try (unfold includes; discriminate). eauto.
Qed.

Lemma includes_leaf (v x : value) :
  (getType v =? "Object") = false -> includes v x = true -> x = v.
Proof.
  intros Htv Hinc. destruct v; try discriminate;
    (symmetry; apply value_eqb_eq; exact Hinc).
Qed.

Lemma merge_entry_included (o : MergeOptions) (_d : nat) (R : obj) (k : string)
  (v x : value) :
  (forall fs rf _d', v = VObj fs -> includes v (VObj rf) = true ->
                     merge_entries o _d' rf fs = Ok rf) ->
  is_deletion_key k = false ->
  get R k = Some x ->
  includes v x = true ->
  merge_entry o _d R k v = Ok R.
Proof.
  intros Hrec Hk Hget Hinc. unfold merge_entry. rewrite Hk. cbv beta iota zeta. simpl andb.
  unfold hasOwnProperty, prop. rewrite Hget. simpl. rewrite Hget.
  destruct (getType v =? "Object") eqn:Htv.
  - assert (Hfs : exists fs, v = VObj fs) by (destruct v; try discriminate; eauto).
    destruct Hfs as [fs ->].
    destruct (includes_object_shape _ _ Hinc) as [rf ->]. simpl.
    rewrite merge_loop_unfold, (Hrec fs rf (S _d) eq_refl Hinc). simpl.
    rewrite (set_same _ _ _ Hget). reflexivity.
  - rewrite (includes_leaf _ _ Htv Hinc) in Hget |- *. simpl.
    rewrite String.eqb_refl. simpl.
    destruct (overwrite o).
    + rewrite andb_false_r, (set_same _ _ _ Hget). reflexivity.
    + destruct (strict_equal v VUndefined && insertValues o);
        [rewrite (set_same _ _ _ Hget) | ]; reflexivity.
Qed.

Lemma merge_entries_included (o : MergeOptions) (R : obj) (entries : obj) :
  Forall (fun kv => forall fs rf _d', snd kv = VObj fs -> no_deletion_keys (snd kv) = true ->
                                      includes (snd kv) (VObj rf) = true ->
                                      merge_entries o _d' rf fs = Ok rf) entries ->
  no_deletion_keys (VObj entries) = true ->
  (forall k v, In (k, v) entries -> exists x, get R k = Some x /\ includes v x = true) ->
  forall _d, merge_entries o _d R entries = Ok R.
Proof.
  induction 1 as [ | [k v] rest Hv _ IH ]; intros Hndk Hinc _d; simpl; [reflexivity | ].
  simpl in Hndk, Hv.
  apply andb_true_iff in Hndk as [Hk Hndk]. apply andb_true_iff in Hk as [Hk Hndkv].
  apply negb_true_iff in Hk.
  destruct (Hinc k v (or_introl eq_refl)) as [x [Hget Hx]].
  rewrite (merge_entry_included o _d R k v x); auto.
  simpl. apply IH; [exact Hndk | ].
  intros k' v' Hin. apply Hinc. right. exact Hin.
Qed.

Lemma merge_included (o : MergeOptions) (v : value) :
  forall fs rf _d, v = VObj fs -> no_deletion_keys v = true ->
                   includes v (VObj rf) = true ->
                   merge_entries o _d rf fs = Ok rf.
Proof.
  induction v as [ | | b | n | s | items _ | fields IH ] using value_nested_ind;
    intros fs rf _d Hv Hndk Hinc; try discriminate.
  injection Hv as <-.
  apply (merge_entries_included o rf fields IH Hndk).
  intros k v Hin. apply (includes_obj_elim _ _ _ _ Hinc Hin).
Qed.

(** X6.  An object that already holds an update is a fixed point of the
    merge: when every key of [B] is present in [R] with the value [B] gives
    it (recursively for nested objects), [mergeObject(R, B, options)] returns
    [R] as it is, for every choice of the options that merges in place. *)
Theorem mergeObject_included_noop (R B : obj) (o : MergeOptions) :
  inplace o = true ->
  undotted R = true -> undotted B = true -> no_deletion_keys (VObj B) = true ->
  includes (VObj B) (VObj R) = true ->
  mergeObject R B o = Ok R.
Proof.
  intros Hin HR HB Hndk Hinc.
  rewrite (mergeObject_undotted _ _ _ Hin HR HB).
  apply (merge_included o (VObj B)); auto.
Qed.

Lemma mergeObject_included_noop_witness :
  let R := [("name", VStr "Hero"); ("hp", VObj [("value", VNum 5); ("max", VNum 9)])] in
  let B := [("hp", VObj [("max", VNum 9)])] in
  let strict := {| insertKeys := false; insertValues := false; overwrite := true;
                   inplace := true; enforceTypes := true |} in
  includes (VObj B) (VObj R) = true /\ mergeObject R B strict = Ok R.
Proof.
  split; [reflexivity | ].
  apply mergeObject_included_noop; reflexivity.
Defined.

Lemma merged_undotted (A B R : obj) :
  undotted A = true -> undotted B = true ->
  (forall k, get B k = None -> get R k = get A k) ->
  undotted R = true.
Proof.
  unfold undotted. intros HA HB Hframe.
  apply negb_true_iff in HA, HB. apply negb_true_iff.
  destruct (existsb has_dot (keys R)) eqn:HR; [ | reflexivity].
  apply existsb_exists in HR as [k [Hin Hdot]].
  assert (HkB : get B k = None).
  { apply get_None_keys. intros HinB.
    assert (existsb has_dot (keys B) = true); [ | congruence].
    apply existsb_exists. exists k. auto. }
  assert (HkA : get A k = None).
  { apply get_None_keys. intros HinA.
    assert (existsb has_dot (keys A) = true); [ | congruence].
    apply existsb_exists. exists k. auto. }
  rewrite <- (Hframe k HkB) in HkA. apply get_None_keys in HkA. contradiction.
Qed.

(** Applying an update twice is applying it once: for objects [A] and
    [B] with no dot in a top-level key, [B] with distinct keys and no ["-="]
    key at any depth, [mergeObject(A, B)] returns an object [R], and merging
    [B] into [R] again returns [R]. *)
Lemma mergeObject_twice (A B : obj) :
  undotted A = true -> undotted B = true ->
  no_deletion_keys (VObj B) = true -> well_formed (VObj B) = true ->
  exists R, mergeObject A B default_options = Ok R
            /\ mergeObject R B default_options = Ok R.
Proof.
  intros HA HB Hndk Hwf.
  destruct (mergeObject_default_spec A B HA HB Hndk Hwf) as [R [HR [Hin Hframe]]].
  exists R. split; [exact HR | ].
  rewrite (mergeObject_undotted R B default_options eq_refl
             (merged_undotted A B R HA HB Hframe) HB).
  apply (merge_included default_options (VObj B)); auto.
  apply includes_obj_intro. exact Hin.
Qed.

Lemma mergeObject_twice_witness :
  let A := [("name", VStr "Hero"); ("hp", VObj [("value", VNum 3); ("max", VNum 9)])] in
  let B := [("hp", VObj [("value", VNum 5)]); ("img", VStr "hero.png")] in
  exists R, mergeObject A B default_options = Ok R
            /\ mergeObject R B default_options = Ok R.
Proof.
  apply mergeObject_twice; reflexivity.
Defined.

(** ** [diffObject] against [mergeObject] *)

#[local] Arguments _difference : simpl never.
#[local] Arguments filled : simpl never.

Lemma included_not_different (v : value) :
  forall x, filled v = true -> includes v x = true -> fst (_difference x v) = false.
Proof.
  induction v as [ | | b | n | s | items _ | fields IH ] using value_nested_ind;
    intros x Hfilled Hinc;
    try (match type of Hinc with
         | includes ?leaf _ = true => rewrite (includes_leaf leaf x eq_refl Hinc)
         end; apply difference_same; reflexivity).
  destruct (includes_object_shape _ _ Hinc) as [rf ->].
  rewrite difference_objects.
  unfold filled in Hfilled; fold filled in Hfilled.
  apply andb_true_iff in Hfilled as [Hne Hfilled].
  destruct fields as [ | [k0 v0] rest ]; [discriminate | ].
  assert (Hrf : (List.length (keys rf) =? 0)%nat = false).
  { destruct (includes_obj_elim _ _ k0 v0 Hinc (or_introl eq_refl)) as [x [Hget _]].
    destruct rf; [discriminate | reflexivity]. }
  rewrite Hrf. simpl List.length. simpl negb. cbv beta iota.
  unfold diffObject. rewrite diff_unchanged; [reflexivity | ].
  intros k x Hin.
  destruct (includes_obj_elim _ _ k x Hinc Hin) as [y [Hget Hy]].
  unfold prop. rewrite Hget.
  rewrite List.Forall_forall in IH. apply (IH (k, x) Hin).
  - rewrite forallb_forall in Hfilled. apply (Hfilled (k, x) Hin).
  - exact Hy.
Qed.

(** X7.  Once an update is applied, diffing it again finds nothing to send:
    for objects [A] and [B] with no dot in a top-level key, [B] with distinct
    keys, no ["-="] key and no empty object at any depth, the diff of [B]
    against [mergeObject(A, B)] is empty. *)
Theorem diffObject_after_mergeObject (A B : obj) :
  undotted A = true -> undotted B = true ->
  no_deletion_keys (VObj B) = true -> well_formed (VObj B) = true ->
  forallb (fun kv => filled (snd kv)) B = true ->
  exists R, mergeObject A B default_options = Ok R /\ diffObject R B = [].
Proof.
  intros HA HB Hndk Hwf Hfilled.
  destruct (mergeObject_default_spec A B HA HB Hndk Hwf) as [R [HR [Hin _]]].
  exists R. split; [exact HR | ].
  unfold diffObject. apply diff_unchanged. intros k x Hkx.
  destruct (Hin k x Hkx) as [r [Hget Hr]].
  unfold prop. rewrite Hget. apply included_not_different; [ | exact Hr].
  rewrite forallb_forall in Hfilled. apply (Hfilled (k, x) Hkx).
Qed.

Lemma diffObject_after_mergeObject_witness :
  let A := [("name", VStr "Hero"); ("hp", VObj [("value", VNum 3); ("max", VNum 9)])] in
  let B := [("hp", VObj [("value", VNum 5)]); ("tags", VArr [VStr "x"])] in
  exists R, mergeObject A B default_options = Ok R /\ diffObject R B = [].
Proof.
  apply diffObject_after_mergeObject; reflexivity.
Defined.

(** X8.  An empty object in an update is always reported as a change
    against a non-empty one, although merging it changes nothing: when [A]
    holds a non-empty object under the key [k], the diff of [{k: {}}] against
    [A] is [{k: {}}], while [mergeObject(A, {k: {}})] returns [A] as it is. *)
Theorem diffObject_empty_object (A : obj) (k : string) (entry : string * value)
  (inner : obj) :
  undotted A = true -> has_dot k = false -> is_deletion_key k = false ->
  get A k = Some (VObj (entry :: inner)) ->
  diffObject A [(k, VObj [])] = [(k, VObj [])]
  /\ mergeObject A [(k, VObj [])] default_options = Ok A.
Proof.
  intros HA Hdot Hk Hget. split.
  - unfold diffObject, diff_step. simpl. unfold prop. rewrite Hget.
    rewrite difference_objects. reflexivity.
  - assert (Hundotted : undotted [(k, VObj [])] = true).
    { unfold undotted. simpl. rewrite Hdot. reflexivity. }
    rewrite (mergeObject_undotted _ _ default_options eq_refl HA Hundotted).
    apply (merge_included default_options (VObj [(k, VObj [])])).
    + reflexivity.
    + unfold no_deletion_keys. simpl. rewrite Hk. reflexivity.
    + unfold includes. simpl. rewrite Hget. reflexivity.
Qed.

Lemma diffObject_empty_object_witness :
  diffObject hero [("permission", VObj [])] = [("permission", VObj [])]
  /\ mergeObject hero [("permission", VObj [])] default_options = Ok hero.
Proof.
  apply (diffObject_empty_object hero "permission" ("default", VNum 0) [("u1", VNum 3)]);
    reflexivity.
Defined.

(** X9.  The diff is drawn from the update: every key of
    [diffObject(original, other)] is a key of [other], and a key that [other]
    adds to [original] with a value other than [undefined] is in the diff
    with that value. *)
Theorem diffObject_drawn_from_other (original other : obj) (k : string) :
  (forall d, get (diffObject original other) k = Some d -> In k (keys other))
  /\ (forall v, distinct (keys other) = true ->
                get original k = None -> get other k = Some v ->
                strict_equal v VUndefined = false ->
                get (diffObject original other) k = Some v).
Proof.
  split.
  - intros d Hd. destruct (in_dec string_dec k (keys other)) as [Hin | Hout]; [exact Hin | ].
    unfold diffObject in Hd. rewrite (diff_frame original k other Hout []) in Hd.
    discriminate.
  - intros v Hdist Horig Hother Hv.
    apply (diff_entry original k v v other Hdist (get_In _ _ _ Hother)).
    unfold prop. rewrite Horig.
    destruct v; try reflexivity; discriminate.
Qed.

Lemma diffObject_drawn_from_other_witness :
  let other := [("name", VStr "Hero"); ("img", VStr "hero.png")] in
  distinct (keys other) = true
  /\ get hero "img" = None
  /\ get (diffObject hero other) "img" = Some (VStr "hero.png").
Proof.
  split; [reflexivity | ]. split; [reflexivity | ].
  apply (diffObject_drawn_from_other hero [("name", VStr "Hero"); ("img", VStr "hero.png")]);
    reflexivity.
Defined.

Lemma diffObject_diff_list (original : obj) (entries : list (string * value)) :
  forall acc,
    distinct (keys acc ++ keys entries) = true ->
    fold_left (diff_step original) entries acc = (acc ++ diff_list original entries)%list.
Proof.
  induction entries as [ | [k v] rest IH ]; intros acc Hd; simpl.
  - rewrite app_nil_r. reflexivity.
  - simpl in Hd. pose proof (distinct_app_fresh _ _ _ Hd) as Hfresh.
    unfold diff_step at 2. simpl.
    destruct (_difference (prop original k) v) as [[ | ] difference].
    + rewrite (set_fresh _ _ _ Hfresh). rewrite IH.
      * rewrite <- app_assoc. reflexivity.
      * unfold keys. rewrite map_app. simpl. rewrite <- app_assoc. exact Hd.
    + rewrite IH; [reflexivity | ].
      clear - Hd. induction (keys acc) as [ | k' more IHm ]; simpl in *.
      * apply andb_true_iff in Hd as [_ Hd]. exact Hd.
      * apply andb_true_iff in Hd as [Hd1 Hd2]. rewrite (IHm Hd2), andb_true_r.
        apply negb_true_iff. apply negb_true_iff in Hd1.
        destruct (existsb (String.eqb k') (more ++ keys rest)) eqn:He; [ | reflexivity].
        rewrite <- Hd1. symmetry. apply existsb_eqb_In. apply existsb_eqb_In in He.
        apply in_app_or in He as [He | He]; apply in_or_app; [left | right; right]; exact He.
Qed.


#[local] Arguments json : simpl never.

Lemma diff_empty_no_difference (original : obj) (entries : list (string * value)) :
  distinct (keys entries) = true ->
  diffObject original entries = [] ->
  forall k v, In (k, v) entries -> fst (_difference (prop original k) v) = false.
Proof.
  intros Hd Hempty k v Hin.
  destruct (_difference (prop original k) v) as [[ | ] difference] eqn:Hdiff; [ | reflexivity].
  pose proof (diff_entry original k v difference entries Hd Hin Hdiff []) as Hget.
  unfold diffObject in Hempty. rewrite Hempty in Hget. discriminate.
Qed.

Lemma not_different_includes (v : value) :
  forall x, well_formed v = true -> json v = true ->
            fst (_difference x v) = false -> includes v x = true.
Proof.
  induction v as [ | | b | n | s | items _ | fields IH ] using value_nested_ind;
    intros x Hwf Hjson Hsame; try discriminate.
  - destruct x; try discriminate. reflexivity.
  - destruct x; try discriminate. unfold _difference in Hsame. simpl in Hsame.
    apply negb_false_iff, Bool.eqb_prop in Hsame. subst. exact (value_eqb_refl (VBool b)).
  - destruct x; try discriminate. unfold _difference in Hsame. simpl in Hsame.
    apply negb_false_iff, Z.eqb_eq in Hsame. subst. exact (value_eqb_refl (VNum n)).
  - destruct x; try discriminate. unfold _difference in Hsame. simpl in Hsame.
    apply negb_false_iff, String.eqb_eq in Hsame. subst. exact (value_eqb_refl (VStr s)).
  - destruct x as [ | | | | | xs | ]; try discriminate.
    assert (Heq : value_eqb (VArr xs) (VArr items) = true).
    { unfold _difference in Hsame. simpl in Hsame.
      apply negb_false_iff in Hsame. exact Hsame. }
    apply value_eqb_eq in Heq. injection Heq as ->. exact (value_eqb_refl (VArr items)).
  - destruct x as [ | | | | | | xf ]; try discriminate.
    rewrite difference_objects in Hsame.
    destruct (negb (Bool.eqb (List.length (keys xf) =? 0)%nat
                             (List.length (keys fields) =? 0)%nat)); [discriminate | ].
    simpl in Hsame. apply negb_false_iff, Nat.eqb_eq in Hsame.
    assert (Hempty : diffObject xf fields = [])
      by (destruct (diffObject xf fields); [reflexivity | discriminate]).
    unfold well_formed in Hwf; fold well_formed in Hwf.
    apply andb_true_iff in Hwf as [Hdist Hwf].
    unfold json in Hjson; fold json in Hjson.
    apply includes_obj_intro. intros k v Hin.
    pose proof (diff_empty_no_difference xf fields Hdist Hempty k v Hin) as Hkv.
    rewrite forallb_forall in Hwf, Hjson.
    rewrite List.Forall_forall in IH.
    pose proof (IH (k, v) Hin (prop xf k) (Hwf _ Hin) (Hjson _ Hin) Hkv) as Hinc.
    unfold prop in Hinc. destruct (get xf k) as [y | ]; [exists y; auto | ].
    specialize (Hjson _ Hin). simpl in Hjson.
    destruct v; try discriminate; unfold includes in Hinc; discriminate.
Qed.

Lemma merge_entry_frame (o : MergeOptions) (_d : nat) (original merged : obj)
  (k : string) (v : value) :
  is_deletion_key k = false ->
  merge_entry o _d original k v = Ok merged ->
  forall k', k <> k' -> get merged k' = get original k'.
Proof.
  intros Hk Hmerge k' Hne. unfold merge_entry in Hmerge. rewrite Hk in Hmerge.
  cbv beta iota zeta in Hmerge. simpl andb in Hmerge.
  repeat match type of Hmerge with
         | context [merge_loop ?a ?b ?c ?d] =>
             destruct (merge_loop a b c d); simpl rbind in Hmerge
         | context [if ?c then _ else _] => destruct c
         | context [match ?x with _ => _ end] => destruct x
         end;
    try discriminate; injection Hmerge as <-;
    rewrite ?get_set_other, ?get_delete_other by exact Hne; reflexivity.
Qed.

Lemma difference_leaf (x v : value) :
  (getType v =? "Object") = false -> snd (_difference x v) = v.
Proof.
  intros Htv. unfold _difference.
  destruct x, v; try discriminate; reflexivity.
Qed.

Lemma merge_entry_diff (o : MergeOptions) (_d : nat) (acc A : obj) (k : string)
  (v difference : value) :
  (forall fs xf _d', v = VObj fs ->
                     merge_entries o _d' xf (diffObject xf fs) = merge_entries o _d' xf fs) ->
  is_deletion_key k = false ->
  get acc k = get A k ->
  _difference (prop A k) v = (true, difference) ->
  merge_entry o _d acc k difference = merge_entry o _d acc k v.
Proof.
  intros Hrec Hk Hget Hdiff.
  destruct (getType v =? "Object") eqn:Htv.
  - assert (Hfs : exists fs, v = VObj fs) by (destruct v; try discriminate; eauto).
    destruct Hfs as [fs ->].
    unfold prop in Hdiff. rewrite <- Hget in Hdiff.
    destruct (get acc k) as [x | ] eqn:Hacc.
    + destruct x as [ | | | | | | xf ];
        try (unfold _difference in Hdiff; simpl in Hdiff; injection Hdiff as <-; reflexivity).
      rewrite difference_objects in Hdiff.
      destruct (negb (Bool.eqb (List.length (keys xf) =? 0)%nat
                               (List.length (keys fs) =? 0)%nat)).
      * injection Hdiff as <-. reflexivity.
      * injection Hdiff as _ <-.
        unfold merge_entry. rewrite Hk. cbv beta iota zeta. simpl andb.
        unfold hasOwnProperty, prop. rewrite Hacc. simpl. rewrite Hacc.
        rewrite !merge_loop_unfold, (Hrec fs xf (S _d) eq_refl). reflexivity.
    + unfold _difference in Hdiff. simpl in Hdiff. injection Hdiff as <-. reflexivity.
  - pose proof (difference_leaf (prop A k) v Htv) as Hleaf.
    rewrite Hdiff in Hleaf. simpl in Hleaf. subst. reflexivity.
Qed.

Lemma merge_entries_diff (o : MergeOptions) (_d : nat) (A : obj)
  (entries : list (string * value)) :
  Forall (fun kv => forall fs xf _d',
              snd kv = VObj fs -> well_formed (snd kv) = true ->
              no_deletion_keys (snd kv) = true -> json (snd kv) = true ->
              merge_entries o _d' xf (diffObject xf fs) = merge_entries o _d' xf fs)
         entries ->
  distinct (keys entries) = true ->
  forallb (fun kv => well_formed (snd kv)) entries = true ->
  no_deletion_keys (VObj entries) = true ->
  forallb (fun kv => json (snd kv)) entries = true ->
  forall acc,
    (forall k, In k (keys entries) -> get acc k = get A k) ->
    merge_entries o _d acc (diff_list A entries) = merge_entries o _d acc entries.
Proof.
  induction 1 as [ | [k v] rest Hv _ IH ]; intros Hd Hwf Hndk Hjson acc Hacc;
    [reflexivity | ].
  simpl in Hd, Hwf, Hndk, Hjson, Hv.
  apply andb_true_iff in Hd as [Hfresh Hd]. apply negb_true_iff in Hfresh.
  apply andb_true_iff in Hwf as [Hwfv Hwf].
  apply andb_true_iff in Hndk as [Hk Hndk]. apply andb_true_iff in Hk as [Hk Hndkv].
  apply negb_true_iff in Hk.
  apply andb_true_iff in Hjson as [Hjsonv Hjson].
  assert (Hk_acc : get acc k = get A k) by (apply Hacc; left; reflexivity).
  assert (Hnext : forall acc', merge_entry o _d acc k v = Ok acc' ->
                               merge_entries o _d acc' (diff_list A rest)
                               = merge_entries o _d acc' rest).
  { intros acc' Hstep. apply IH; auto.
    intros k' Hin. rewrite (merge_entry_frame o _d acc acc' k v Hk Hstep).
    - apply Hacc. right. exact Hin.
    - intros ->. apply existsb_eqb_In in Hin. congruence. }
  unfold diff_list. simpl flat_map. fold (diff_list A rest).
  destruct (_difference (prop A k) v) as [[ | ] difference] eqn:Hdiff.
  - simpl.
    rewrite (merge_entry_diff o _d acc A k v difference); auto.
    destruct (merge_entry o _d acc k v) as [acc' | e] eqn:Hstep; simpl; [ | reflexivity].
    apply Hnext. reflexivity.
  - simpl app.
    assert (Hinc : includes v (prop A k) = true).
    { apply not_different_includes; auto. rewrite Hdiff. reflexivity. }
    assert (Hpresent : exists x, get acc k = Some x /\ includes v x = true).
    { rewrite Hk_acc. unfold prop in Hinc. destruct (get A k) as [x | ]; [eauto | ].
      destruct v; try discriminate; unfold includes in Hinc; discriminate. }
    destruct Hpresent as [x [Hx Hvx]].
    assert (Hstep : merge_entry o _d acc k v = Ok acc).
    { apply (merge_entry_included o _d acc k v x); auto.
      intros fs rf _d' Hfs Hrf. apply (merge_included o v); auto. }
    simpl. rewrite Hstep. simpl. apply Hnext. exact Hstep.
Qed.

Lemma merge_diff (o : MergeOptions) (v : value) :
  forall fs xf _d,
    v = VObj fs -> well_formed v = true -> no_deletion_keys v = true -> json v = true ->
    merge_entries o _d xf (diffObject xf fs) = merge_entries o _d xf fs.
Proof.
  induction v as [ | | b | n | s | items _ | fields IH ] using value_nested_ind;
    intros fs xf _d Hv Hwf Hndk Hjson; try discriminate.
  injection Hv as <-.
  unfold well_formed in Hwf; fold well_formed in Hwf.
  apply andb_true_iff in Hwf as [Hdist Hwf].
  unfold json in Hjson; fold json in Hjson.
  unfold diffObject. rewrite (diffObject_diff_list xf fields []) by exact Hdist.
  apply merge_entries_diff; auto.
Qed.

Lemma diffObject_undotted (original other : obj) :
  undotted other = true -> undotted (diffObject original other) = true.
Proof.
  unfold undotted. intros Hother. apply negb_true_iff in Hother. apply negb_true_iff.
  destruct (existsb has_dot (keys (diffObject original other))) eqn:Hd; [ | reflexivity].
  apply existsb_exists in Hd as [k [Hin Hdot]].
  assert (Hk : In k (keys other)).
  { destruct (in_dec string_dec k (keys other)) as [Hk | Hout]; [exact Hk | ].
    pose proof (diff_frame original k other Hout []) as Hframe.
    apply get_None_keys in Hframe. contradiction. }
  rewrite <- Hother. symmetry. apply existsb_exists. exists k. auto.
Qed.

(** X10.  Sending the diff is as good as sending the update: for objects
    [A] and [B] with no dot in a top-level key, [B] being JSON data with
    distinct keys and no ["-="] key at any depth, merging
    [diffObject(A, B)] into [A] gives what merging [B] itself into [A] gives,
    for every choice of the options that merges in place. *)
Theorem mergeObject_of_diffObject (A B : obj) (o : MergeOptions) :
  inplace o = true ->
  undotted A = true -> undotted B = true ->
  well_formed (VObj B) = true -> no_deletion_keys (VObj B) = true ->
  json (VObj B) = true ->
  mergeObject A (diffObject A B) o = mergeObject A B o.
Proof.
  intros Hin HA HB Hwf Hndk Hjson.
  rewrite (mergeObject_undotted A B o Hin HA HB).
  rewrite (mergeObject_undotted A _ o Hin HA (diffObject_undotted A B HB)).
  apply (merge_diff o (VObj B)); auto.
Qed.

Lemma mergeObject_of_diffObject_witness :
  let B := [("name", VStr "Hero"); ("img", VStr "hero.png");
            ("permission", VObj [("default", VNum 0); ("u1", VNum 2)])] in
  diffObject hero B = [("img", VStr "hero.png"); ("permission", VObj [("u1", VNum 2)])]
  /\ mergeObject hero (diffObject hero B) default_options
     = mergeObject hero B default_options.
Proof.
  split; [reflexivity | ].
  apply mergeObject_of_diffObject; reflexivity.
Defined.

Lemma merge_entry_error (o : MergeOptions) (_d : nat) (original : obj) (k : string)
  (v : value) (e : error) :
  (forall fs _d' inner e', v = VObj fs -> merge_entries o _d' inner fs = Err e' ->
                           e' = TypeMismatch) ->
  merge_entry o _d original k v = Err e -> e = TypeMismatch.
Proof.
  intros Hrec Hmerge. unfold merge_entry in Hmerge.
  cbv beta iota zeta in Hmerge.
  destruct ((getType v =? "Object") && _) eqn:Hboth in Hmerge.
  - apply andb_true_iff in Hboth as [Htv _].
    assert (Hfs : exists fs, v = VObj fs) by (destruct v; try discriminate; eauto).
    destruct Hfs as [fs ->].
    repeat match type of Hmerge with
           | context [merge_loop ?a ?b ?c ?d] =>
               let H := fresh "Hinner" in
               destruct (merge_loop a b c d) eqn:H; simpl rbind in Hmerge
           | context [if ?c then _ else _] => destruct c
           | context [match ?x with _ => _ end] => destruct x
           end;
      try discriminate;
      injection Hmerge as <-; rewrite merge_loop_unfold in Hinner;
      apply (Hrec _ _ _ _ eq_refl Hinner).
  - repeat match type of Hmerge with
           | context [if ?c then _ else _] => destruct c
           end;
      try discriminate; injection Hmerge as <-; reflexivity.
Qed.

Lemma merge_entries_error (o : MergeOptions) (v : value) :
  forall fs _d original e,
    v = VObj fs -> merge_entries o _d original fs = Err e -> e = TypeMismatch.
Proof.
  induction v as [ | | b | n | s | items _ | fields IH ] using value_nested_ind;
    intros fs _d original e Hv Hmerge; try discriminate.
  injection Hv as <-. revert original Hmerge.
  induction IH as [ | [k v] rest Hv _ IHrest ]; intros original Hmerge; [discriminate | ].
  simpl in Hmerge, Hv.
  destruct (merge_entry o _d original k v) as [original' | e'] eqn:Hstep; simpl in Hmerge.
  - apply (IHrest _ Hmerge).
  - injection Hmerge as <-. apply (merge_entry_error o _d original k v e'); auto.
Qed.

Lemma merge_entry_mismatch (o : MergeOptions) (_d : nat) (original : obj) (k : string)
  (x v : value) :
  overwrite o = true -> enforceTypes o = true ->
  is_deletion_key k = false ->
  get original k = Some x ->
  (getType x =? getType v) = false ->
  merge_entry o _d original k v = Err TypeMismatch.
Proof.
  intros Ho He Hk Hget Htypes. unfold merge_entry. rewrite Hk. cbv beta iota zeta.
  simpl andb. unfold hasOwnProperty, prop. rewrite Hget. simpl. rewrite Hget.
  rewrite Ho, He.
  assert (Hgt : forall t, getType t <> "") by (intros []; discriminate).
  destruct (getType v =? "Object") eqn:Htv; destruct (getType x =? "Object") eqn:Htx; simpl.
  - apply String.eqb_eq in Htv, Htx. rewrite Htv, Htx in Htypes. discriminate.
  - rewrite (String.eqb_sym (getType v) (getType x)), Htypes.
    destruct (getType x =? "") eqn:Hx; [apply String.eqb_eq in Hx; destruct (Hgt x Hx) | ].
    reflexivity.
  - rewrite (String.eqb_sym (getType v) (getType x)), Htypes.
    destruct (getType x =? "") eqn:Hx; [apply String.eqb_eq in Hx; destruct (Hgt x Hx) | ].
    reflexivity.
  - rewrite (String.eqb_sym (getType v) (getType x)), Htypes.
    destruct (getType x =? "") eqn:Hx; [apply String.eqb_eq in Hx; destruct (Hgt x Hx) | ].
    reflexivity.
Qed.

(** X11.  With [enforceTypes] and [overwrite] on, a type clash stops the
    merge: when [B] (distinct top-level keys, none dotted, none starting with
    ["-="]) brings under a key that [A] holds a value of another type than
    the one [A] has there, [mergeObject(A, B, options)] throws the
    mismatched-types error, wherever the key stands in [B]. *)
Theorem mergeObject_enforceTypes (A B : obj) (o : MergeOptions) (k : string)
  (x v : value) :
  inplace o = true -> overwrite o = true -> enforceTypes o = true ->
  undotted A = true -> undotted B = true ->
  distinct (keys B) = true ->
  forallb (fun kv => negb (is_deletion_key (fst kv))) B = true ->
  get A k = Some x -> In (k, v) B ->
  (getType x =? getType v) = false ->
  mergeObject A B o = Err TypeMismatch.
Proof.
  intros Hin Ho He HA HB Hd Hk Hget Hkv Htypes.
  rewrite (mergeObject_undotted A B o Hin HA HB).
  clear HA HB. revert A Hget.
  induction B as [ | [k0 v0] rest IH ]; intros A Hget; [destruct Hkv | ].
  simpl in Hd, Hk. apply andb_true_iff in Hd as [Hfresh Hd].
  apply andb_true_iff in Hk as [Hk0 Hk]. apply negb_true_iff in Hk0, Hfresh.
  simpl. destruct Hkv as [Heq | Hrest].
  - injection Heq as -> ->.
    rewrite (merge_entry_mismatch o 0 A k x v); auto.
  - destruct (merge_entry o 0 A k0 v0) as [A' | e] eqn:Hstep; simpl.
    + apply IH; auto.
      rewrite (merge_entry_frame o 0 A A' k0 v0 Hk0 Hstep); [exact Hget | ].
      intros ->. assert (existsb (String.eqb k) (keys rest) = true); [ | congruence].
      apply existsb_eqb_In. apply (in_map fst) in Hrest. exact Hrest.
    + f_equal. apply (merge_entry_error o 0 A k0 v0 e); auto.
      intros fs _d' inner e' Hfs. apply (merge_entries_error o v0 fs _d' inner e' Hfs).
Qed.

Lemma mergeObject_enforceTypes_witness :
  let typed := {| insertKeys := true; insertValues := true; overwrite := true;
                  inplace := true; enforceTypes := true |} in
  let B := [("img", VStr "hero.png"); ("name", VNum 7)] in
  get hero "name" = Some (VStr "Hero")
  /\ mergeObject hero B typed = Err TypeMismatch.
Proof.
  split; [reflexivity | ].
  apply (mergeObject_enforceTypes hero [("img", VStr "hero.png"); ("name", VNum 7)] _
                                  "name" (VStr "Hero") (VNum 7)); try reflexivity.
  right. left. reflexivity.
Defined.

Lemma substring_all (s : string) : String.substring 0 (String.length s) s = s.
Proof.
  induction s as [ | c rest IH ]; simpl; [reflexivity | ]. rewrite IH. reflexivity.
Qed.

Lemma slice2_deletion_key (k : string) : slice2 ("-=" ++ k) = k.
Proof.
  unfold slice2. simpl. rewrite Nat.sub_0_r. apply substring_all.
Qed.

Lemma delete_absent (o : obj) (k : string) : get o k = None -> delete o k = o.
Proof.
  induction o as [ | [k' v'] rest IH ]; simpl; [reflexivity | ].
  destruct (k' =? k)%string; [discriminate | ].
  intros H. rewrite IH by exact H. reflexivity.
Qed.

Lemma merge_entries_single (o : MergeOptions) (_d : nat) (original : obj) (k : string)
  (v : value) :
  merge_entries o _d original [(k, v)] = merge_entry o _d original k v.
Proof.
  cbn [merge_entries]. destruct (merge_entry o _d original k v); reflexivity.
Qed.

(** X12.  What a ["-="] key does: the prefix is always stripped.  With the
    value [null] the key behind it is deleted from [A], whatever the options
    are (also with [overwrite] off) and whatever [A] holds there; with any
    other value that is no object, written with [overwrite] and [insertKeys]
    on and [enforceTypes] off, that value is stored under the stripped
    key. *)
Theorem mergeObject_deletion_key (A : obj) (k : string) (o : MergeOptions) :
  inplace o = true -> undotted A = true -> has_dot k = false ->
  mergeObject A [("-=" ++ k, VNull)] o = Ok (delete A k)
  /\ (forall v, (getType v =? "Object") = false -> strict_equal v VNull = false ->
                overwrite o = true -> enforceTypes o = false -> insertKeys o = true ->
                mergeObject A [("-=" ++ k, v)] o = Ok (set A k v)).
Proof.
  intros Hin HA Hdot.
  assert (Hundotted : forall v, undotted [("-=" ++ k, v)] = true).
  { intros v. unfold undotted. simpl. rewrite Hdot. reflexivity. }
  assert (Hdk : is_deletion_key ("-=" ++ k) = true) by (destruct k; reflexivity).
  split.
  - rewrite (mergeObject_undotted _ _ o Hin HA (Hundotted _)), merge_entries_single.
    unfold merge_entry. rewrite Hdk, slice2_deletion_key. cbv beta iota zeta.
    unfold hasOwnProperty, prop.
    destruct (get A k) as [x | ] eqn:Hget; simpl.
    + reflexivity.
    + rewrite (delete_absent _ _ Hget). reflexivity.
  - intros v Htv Hnull Ho He Hk.
    rewrite (mergeObject_undotted _ _ o Hin HA (Hundotted _)), merge_entries_single.
    unfold merge_entry. rewrite Hdk, slice2_deletion_key, Htv, Hnull. cbv beta iota zeta.
    unfold hasOwnProperty, prop. rewrite !andb_false_r.
    destruct (get A k) as [x | ] eqn:Hget; simpl.
    + rewrite Ho, He, andb_false_r. reflexivity.
    + rewrite Hk. reflexivity.
Qed.

Lemma mergeObject_deletion_key_witness :
  let keep := {| insertKeys := false; insertValues := false; overwrite := false;
                 inplace := true; enforceTypes := true |} in
  mergeObject hero [("-=permission", VNull)] keep = Ok (delete hero "permission")
  /\ get (delete hero "permission") "permission" = None
  /\ mergeObject hero [("-=name", VStr "Mage")] default_options
     = Ok (set hero "name" (VStr "Mage")).
Proof.
  split; [ | split; [reflexivity | ] ].
  - apply (mergeObject_deletion_key hero "permission"); reflexivity.
  - apply (mergeObject_deletion_key hero "name" default_options); reflexivity.
Defined.

(** ** [duplicate] *)

Lemma duplicate_array (items : list value) :
  duplicate (VArr items) = VArr (duplicate_items items).
Proof.
  simpl. f_equal. induction items as [ | x rest IH ]; [reflexivity | ].
  simpl. rewrite <- IH. destruct x; reflexivity.
Qed.

Lemma duplicate_object (fields : list (string * value)) :
  duplicate (VObj fields) = VObj (duplicate_fields fields).
Proof.
  simpl. f_equal. induction fields as [ | [k x] rest IH ]; [reflexivity | ].
  simpl. rewrite <- IH. destruct x; reflexivity.
Qed.

#[local] Arguments duplicate : simpl never.

Lemma duplicate_json (v : value) : json v = true -> duplicate v = v.
Proof.
  induction v as [ | | b | n | s | items IH | fields IH ] using value_nested_ind;
    intros Hjson; try reflexivity.
  - rewrite duplicate_array. f_equal.
    unfold json in Hjson; fold json in Hjson.
    induction IH as [ | x rest Hx _ IHrest ]; [reflexivity | ].
    simpl in Hjson. apply andb_true_iff in Hjson as [Hjx Hjrest].
    simpl. rewrite (IHrest Hjrest), (Hx Hjx). destruct x; try reflexivity; discriminate.
  - rewrite duplicate_object. f_equal.
    unfold json in Hjson; fold json in Hjson.
    induction IH as [ | [k x] rest Hx _ IHrest ]; [reflexivity | ].
    simpl in Hjson, Hx. apply andb_true_iff in Hjson as [Hjx Hjrest].
    unfold duplicate_fields. simpl flat_map. fold (duplicate_fields rest).
    rewrite (IHrest Hjrest). destruct x; try discriminate; rewrite (Hx Hjx); reflexivity.
Qed.

Lemma duplicate_is_json (v : value) : v <> VUndefined -> json (duplicate v) = true.
Proof.
  induction v as [ | | b | n | s | items IH | fields IH ] using value_nested_ind;
    intros Hv; try reflexivity; [congruence | | ].
  - rewrite duplicate_array. unfold json; fold json. clear Hv.
    induction IH as [ | x rest Hx _ IHrest ]; [reflexivity | ].
    simpl. rewrite IHrest, andb_true_r.
    destruct x; try reflexivity; apply Hx; discriminate.
  - rewrite duplicate_object. unfold json; fold json. clear Hv.
    induction IH as [ | [k x] rest Hx _ IHrest ]; [reflexivity | ].
    simpl in Hx. unfold duplicate_fields. simpl flat_map. fold (duplicate_fields rest).
    destruct x; simpl; try (exact IHrest); rewrite IHrest, andb_true_r;
      try reflexivity; apply Hx; discriminate.
Qed.

(** X13.  [duplicate] on an object: the copy is JSON data (no [undefined]
    is left at any depth), copying the copy changes nothing, and an object
    that is JSON data already is copied as it is, same keys in the same order
    with the same values. *)
Theorem duplicate_object_json (o : obj) :
  json (duplicate (VObj o)) = true
  /\ duplicate (duplicate (VObj o)) = duplicate (VObj o)
  /\ (json (VObj o) = true -> duplicate (VObj o) = VObj o).
Proof.
  assert (Hjson : json (duplicate (VObj o)) = true)
    by (apply duplicate_is_json; discriminate).
  split; [exact Hjson | ]. split.
  - apply duplicate_json. exact Hjson.
  - apply duplicate_json.
Qed.

Lemma duplicate_object_json_witness :
  let o := [("name", VStr "Hero"); ("img", VUndefined);
            ("tags", VArr [VUndefined; VNum 1])] in
  json (VObj hero) = true
  /\ duplicate (VObj hero) = VObj hero
  /\ duplicate (VObj o) = VObj [("name", VStr "Hero"); ("tags", VArr [VNull; VNum 1])]
  /\ json (duplicate (VObj o)) = true.
Proof.
  split; [reflexivity | ]. split; [ | split; [reflexivity | ] ].
  - apply (duplicate_object_json hero). reflexivity.
  - apply (duplicate_object_json
             [("name", VStr "Hero"); ("img", VUndefined); ("tags", VArr [VUndefined; VNum 1])]).
Defined.


(** * Further properties of the permission queries *)

(** X14.  Permission levels are cumulative: a user who passes the
    non-exact check for a level passes it for every lower level; an owner in
    particular ([owner] is the check for OWNER) sees the entity ([visible] is
    the check for LIMITED). *)
Theorem hasPerm_monotone (this_data : obj) (user : User) (p q : string) (a b : Z) :
  ENTITY_PERMISSIONS p = VNum a -> ENTITY_PERMISSIONS q = VNum b -> (a <= b)%Z ->
  (Entity.hasPerm this_data user q false = Ok true ->
   Entity.hasPerm this_data user p false = Ok true)
  /\ (Entity.owner this_data user = Ok true -> Entity.visible this_data user = Ok true).
Proof.
  assert (Hmono : forall p q a b,
             ENTITY_PERMISSIONS p = VNum a -> ENTITY_PERMISSIONS q = VNum b -> (a <= b)%Z ->
             Entity.hasPerm this_data user q false = Ok true ->
             Entity.hasPerm this_data user p false = Ok true).
  { clear. intros p q a b Hp Hq Hab. unfold Entity.hasPerm. rewrite Hp, Hq.
    destruct (negb (truthy (prop this_data "permission"))); [auto | ].
    destruct (Entity.resolved_level _ user) as [level | e]; simpl; [ | auto].
    destruct (isGM user); [auto | ].
    unfold js_ge. destruct (to_number level) as [[x | ] | e]; simpl; try discriminate.
    intros Hb. injection Hb as Hb. apply Z.leb_le in Hb.
    f_equal. apply Z.leb_le. lia. }
  intros Hp Hq Hab. split; [exact (Hmono p q a b Hp Hq Hab) | ].
  apply (Hmono "LIMITED" "OWNER" 1%Z 3%Z); [reflexivity | reflexivity | lia].
Qed.

Lemma hasPerm_monotone_witness :
  Entity.hasPerm hero player "OWNER" false = Ok true
  /\ Entity.hasPerm hero player "OBSERVER" false = Ok true
  /\ Entity.visible hero player = Ok true.
Proof.
  assert (Howner : Entity.hasPerm hero player "OWNER" false = Ok true) by reflexivity.
  destruct (hasPerm_monotone hero player "OBSERVER" "OWNER" 2 3) as [Hlower Hvisible];
    [reflexivity | reflexivity | lia | ].
  split; [exact Howner | ]. split; [exact (Hlower Howner) | exact (Hvisible Howner)].
Defined.

(** Where the [permission] getter and [hasPerm] agree: for a user who
    is no GM and a permission map in which the entry of the user is truthy
    exactly when it is an integer (so when it is absent, or an integer other
    than 0), the getter returns the level [hasPerm] resolves,
    so that the exact check for a level answers whether [entity.permission]
    is that level. *)
Lemma permission_getter_exact (this_data pm : obj) (user : User) :
  isGM user = false ->
  get this_data "permission" = Some (VObj pm) ->
  truthy (prop pm (_id user)) = isInteger (prop pm (_id user)) ->
  exists level,
    Entity.permission this_data user = Ok level
    /\ Entity.resolved_level (VObj pm) user = Ok level
    /\ forall p, Entity.hasPerm this_data user p true
                 = Ok (strict_equal level (ENTITY_PERMISSIONS p)).
Proof.
  intros Hgm Hget Hentry.
  exists (if truthy (prop pm (_id user)) then prop pm (_id user) else prop pm "default").
  split; [apply (permission_getter_non_gm _ _ _ Hgm Hget) | ].
  assert (Hlevel : Entity.resolved_level (VObj pm) user
                   = Ok (if truthy (prop pm (_id user)) then prop pm (_id user)
                         else prop pm "default")).
  { unfold Entity.resolved_level. simpl. rewrite <- Hentry.
    destruct (truthy (prop pm (_id user))); reflexivity. }
  split; [exact Hlevel | ].
  intros p. unfold Entity.hasPerm, prop at 1 2. rewrite Hget. simpl.
  rewrite Hlevel. reflexivity.
Qed.

Lemma permission_getter_exact_witness :
  exists level,
    Entity.permission hero player = Ok level
    /\ Entity.resolved_level (VObj [("default", VNum 0); ("u1", VNum 3)]) player = Ok level
    /\ forall p, Entity.hasPerm hero player p true
                 = Ok (strict_equal level (ENTITY_PERMISSIONS p)).
Proof.
  apply (permission_getter_exact hero [("default", VNum 0); ("u1", VNum 3)] player);
    reflexivity.
Defined.

(** * Further properties of the collection *)

Lemma map_set_length_present (m : list (value * EntityInstance)) (key : value)
  (old e : EntityInstance) :
  map_get m key = Some old -> List.length (map_set m key e) = List.length m.
Proof.
  induction m as [ | [k e'] rest IH ]; simpl; [discriminate | ].
  destruct (strict_equal k key); [reflexivity | ].
  intros H. simpl. rewrite IH by exact H. reflexivity.
Qed.

Lemma length_entities (w : World) :
  List.length (EntityCollection.entities w) = List.length (store w).
Proof. unfold EntityCollection.entities. apply length_map. Qed.

(** X15.  What [insert] leaves behind: for an entity of a class the
    collection stores, whose record has a primitive [_id], [insert] returns,
    [get] under that id then returns the entity, every other key is looked up
    as before, and the record is appended to the raw source array.  The count
    of entities grows by one when the id is new; when the id is taken the
    count stays, the entity replaces the one stored, and the raw source array
    still grows by one record. *)
Theorem insert_then_get (classes : list string) (e : EntityInstance) (record : obj)
  (w : World) :
  existsb (String.eqb (class_name e)) classes = true ->
  heap w !! data e = Some record ->
  primitive (prop record "_id") = true ->
  exists w',
    EntityCollection.insert classes e w = Ret tt w'
    /\ EntityCollection.get (prop record "_id") false w' = Ret (Some e) w'
    /\ (forall key, prop record "_id" <> key -> map_get (store w') key = map_get (store w) key)
    /\ _source w' = (_source w ++ [data e])%list
    /\ heap w' = heap w
    /\ List.length (EntityCollection.entities w')
       = match map_get (store w) (prop record "_id") with
         | None => S (List.length (EntityCollection.entities w))
         | Some _ => List.length (EntityCollection.entities w)
         end.
Proof.
  intros Hclass Hrecord Hprim.
  unfold EntityCollection.insert. rewrite Hclass. cbv beta iota delta [negb].
  unfold bind, read. rewrite Hrecord. cbv beta iota.
  unfold EntityCollection.set. eexists. split; [reflexivity | ].
  unfold EntityCollection.get. simpl.
  rewrite (map_get_set_same _ _ _ Hprim).
  repeat split.
  - intros key Hne. apply map_get_set_other. exact Hne.
  - rewrite !length_entities. simpl.
    destruct (map_get (store w) (prop record "_id")) as [old | ] eqn:Hold.
    + apply (map_set_length_present _ _ old). exact Hold.
    + apply map_set_length. exact Hold.
Qed.

Lemma insert_then_get_witness :
  let e := {| class_name := "Actor"; data := 2; apps := []; embedded := [] |} in
  exists w',
    EntityCollection.insert ["Actor"] e snapshot = Ret tt w'
    /\ EntityCollection.get (VStr "a3") false w' = Ret (Some e) w'
    /\ _source w' = [2]
    /\ List.length (EntityCollection.entities w') = 1.
Proof.
  destruct (insert_then_get ["Actor"]
              {| class_name := "Actor"; data := 2; apps := []; embedded := [] |}
              mage snapshot eq_refl eq_refl eq_refl)
    as [w' [H1 [H2 [_ [H3 [_ H4]]]]]].
  exists w'. repeat split; assumption.
Defined.

Lemma map_delete_set_fresh (m : list (value * EntityInstance)) (key : value)
  (e : EntityInstance) :
  primitive key = true -> map_get m key = None -> map_delete (map_set m key e) key = m.
Proof.
  intros Hprim. induction m as [ | [k e'] rest IH ]; simpl.
  - rewrite (strict_equal_primitive_refl _ Hprim). reflexivity.
  - destruct (strict_equal k key) eqn:Hk; [discriminate | ].
    intros H. simpl. rewrite Hk, IH by exact H. reflexivity.
Qed.

Lemma findSplice_last {A : Type} (find : A -> bool) (l : list A) (x : A) :
  (forall y, In y l -> find y = false) -> find x = true ->
  snd (findSplice find (l ++ [x])) = l.
Proof.
  intros Hl Hx. unfold findSplice.
  assert (Hidx : findIndex find (l ++ [x]) = Some (List.length l)).
  { induction l as [ | y rest IH ]; simpl.
    - rewrite Hx. reflexivity.
    - rewrite (Hl y (or_introl eq_refl)), IH; [reflexivity | ].
      intros z Hz. apply Hl. right. exact Hz. }
  rewrite Hidx. simpl. clear. induction l as [ | y rest IH ]; simpl; [reflexivity | ].
  rewrite IH. reflexivity.
Qed.

(** X16.  [remove] undoes [insert]: when the id of the inserted entity is
    new to the collection (no key of the store, the [_id] of no record of the
    raw source array), removing that id after the insert gives back the
    collection as it was, store and raw source array. *)
Theorem insert_then_remove (classes : list string) (e : EntityInstance) (record : obj)
  (w : World) :
  existsb (String.eqb (class_name e)) classes = true ->
  heap w !! data e = Some record ->
  primitive (prop record "_id") = true ->
  map_get (store w) (prop record "_id") = None ->
  (forall l other, In l (_source w) -> heap w !! l = Some other ->
                   strict_equal (prop other "_id") (prop record "_id") = false) ->
  exists w',
    EntityCollection.insert classes e w = Ret tt w'
    /\ EntityCollection.remove (prop record "_id") w' = Ret tt w.
Proof.
  intros Hclass Hrecord Hprim Hfresh Hsource.
  unfold EntityCollection.insert. rewrite Hclass. cbv beta iota delta [negb].
  unfold bind, read. rewrite Hrecord. cbv beta iota.
  unfold EntityCollection.set. eexists. split; [reflexivity | ].
  unfold EntityCollection.remove, bind, EntityCollection.delete. simpl.
  rewrite (map_delete_set_fresh _ _ _ Hprim Hfresh).
  rewrite findSplice_last.
  - destruct w. reflexivity.
  - intros l Hl. destruct (heap w !! l) as [other | ] eqn:Hother; [ | reflexivity].
    apply (Hsource l other Hl Hother).
  - rewrite Hrecord. apply (strict_equal_primitive_refl _ Hprim).
Qed.

Lemma insert_then_remove_witness :
  let e := {| class_name := "Actor"; data := 2; apps := []; embedded := [] |} in
  exists w',
    EntityCollection.insert ["Actor"] e snapshot = Ret tt w'
    /\ EntityCollection.remove (VStr "a3") w' = Ret tt snapshot.
Proof.
  apply (insert_then_remove ["Actor"]
           {| class_name := "Actor"; data := 2; apps := []; embedded := [] |}
           mage snapshot); try reflexivity.
  intros l other Hl. destruct Hl.
Defined.

Lemma bind_Ret {A B : Type} (m : M A) (f : A -> M B) (w w' : World) (a : A) :
  m w = Ret a w' -> bind m f w = f a w'.
Proof. intros H. unfold bind. rewrite H. reflexivity. Qed.

Lemma bind_Throw {A B : Type} (m : M A) (f : A -> M B) (w w' : World) (e : error) :
  m w = Throw e w' -> bind m f w = Throw e w'.
Proof. intros H. unfold bind. rewrite H. reflexivity. Qed.

Lemma find_value_by_name (name : value) (w : World) (values : list EntityInstance) :
  (forall e, In e values -> exists d, heap w !! data e = Some d) ->
  exists r,
    EntityCollection.find_value
      (fun e => let! d := read (data e) in ret (strict_equal (prop d "name") name))
      values w = Ret r w
    /\ match r with
       | Some e =>
           exists before after d,
             values = (before ++ e :: after)%list
             /\ heap w !! data e = Some d
             /\ strict_equal (prop d "name") name = true
             /\ forall e' d', In e' before -> heap w !! data e' = Some d' ->
                              strict_equal (prop d' "name") name = false
       | None => forall e d, In e values -> heap w !! data e = Some d ->
                             strict_equal (prop d "name") name = false
       end.
Proof.
  induction values as [ | e rest IH ]; intros Hheap; simpl.
  - exists None. split; [reflexivity | ]. intros e d [].
  - destruct (Hheap e (or_introl eq_refl)) as [d Hd].
    unfold bind at 1. unfold bind at 1. unfold read. rewrite Hd. cbv beta iota.
    unfold ret at 1. cbv beta iota.
    destruct (strict_equal (prop d "name") name) eqn:Hname.
    + exists (Some e). split; [reflexivity | ].
      exists [], rest, d. repeat split; auto. intros e' d' [].
    + destruct IH as [r [Hr Hspec]]; [intros e' He'; apply Hheap; right; exact He' | ].
      exists r. split; [exact Hr | ].
      destruct r as [found | ].
      * destruct Hspec as (before & after & d0 & -> & Hd0 & Hfound & Hbefore).
        exists (e :: before), after, d0. repeat split; auto.
        intros e' d' [<- | Hin] Hd'; [congruence | eauto].
      * intros e' d' [<- | Hin] Hd'; [congruence | eauto].
Qed.

(** X17.  [getName] finds the first match: in a collection whose entities
    all have their record, [getName(name)] returns the first entity, in
    insertion order, whose [data.name] is the name, or [null] when no entity
    has that name; with [strict] it returns the same entity, and throws
    instead of returning [null].  The collection is left as it is. *)
Theorem getName_finds (name : value) (w : World) :
  (forall e, In e (EntityCollection.entities w) -> exists d, heap w !! data e = Some d) ->
  exists r,
    EntityCollection.getName name false w = Ret r w
    /\ EntityCollection.getName name true w
       = match r with Some e => Ret (Some e) w | None => Throw KeyMissing w end
    /\ match r with
       | Some e =>
           exists before after d,
             EntityCollection.entities w = (before ++ e :: after)%list
             /\ heap w !! data e = Some d
             /\ strict_equal (prop d "name") name = true
             /\ forall e' d', In e' before -> heap w !! data e' = Some d' ->
                              strict_equal (prop d' "name") name = false
       | None => forall e d, In e (EntityCollection.entities w) ->
                             heap w !! data e = Some d ->
                             strict_equal (prop d "name") name = false
       end.
Proof.
  intros Hheap.
  destruct (find_value_by_name name w _ Hheap) as [r [Hr Hspec]].
  exists r. unfold EntityCollection.getName.
  assert (Hfind : EntityCollection.find
                    (fun e => let! d := read (data e) in
                              ret (strict_equal (prop d "name") name)) w = Ret r w)
    by exact Hr.
  rewrite !(bind_Ret _ _ w w r Hfind).
  destruct r; repeat split; try reflexivity; apply Hspec.
Qed.

Lemma getName_finds_witness :
  exists e,
    EntityCollection.getName (VStr "Mage") false bootstrapped = Ret (Some e) bootstrapped
    /\ EntityCollection.getName (VStr "Mage") true bootstrapped = Ret (Some e) bootstrapped
    /\ data e = 2
    /\ EntityCollection.getName (VStr "Rogue") true bootstrapped
       = Throw KeyMissing bootstrapped.
Proof.
  assert (Hheap : forall e, In e (EntityCollection.entities bootstrapped) ->
                            exists d, heap bootstrapped !! data e = Some d).
  { intros e [<- | [<- | [<- | []]]]; eexists; reflexivity. }
  destruct (getName_finds (VStr "Mage") bootstrapped Hheap) as [r [Hr [Hstrict _]]].
  destruct (getName_finds (VStr "Rogue") bootstrapped Hheap) as [r' [Hr' [Hstrict' _]]].
  assert (Hmage : EntityCollection.getName (VStr "Mage") false bootstrapped
                  = Ret (Some {| class_name := "Actor"; data := 2; apps := [];
                                 embedded := [("items", [])] |}) bootstrapped)
    by reflexivity.
  assert (Hrogue : EntityCollection.getName (VStr "Rogue") false bootstrapped
                   = Ret None bootstrapped) by reflexivity.
  rewrite Hr in Hmage. injection Hmage as ->.
  rewrite Hr' in Hrogue. injection Hrogue as ->.
  eexists. split; [exact Hr | ]. split; [exact Hstrict | ].
  split; [reflexivity | exact Hstrict'].
Defined.

(** * Further properties of the entity workflows *)

(** X18.  [prepareData] may be called again: once it has returned, a second
    call returns without changing anything, and a [name] the data holds is
    not an empty one. *)
Theorem prepareData_idempotent (cls : Entity.Class) (this : EntityInstance) (w w1 : World) :
  Entity.prepareData cls this w = Ret tt w1 ->
  Entity.prepareData cls this w1 = Ret tt w1
  /\ exists d, heap w1 !! data this = Some d
               /\ (hasOwnProperty d "name" = true -> truthy (prop d "name") = true).
Proof.
  unfold Entity.prepareData, bind, read. intros Hfirst.
  destruct (heap w !! data this) as [d | ] eqn:Hd; [ | discriminate].
  destruct (hasOwnProperty d "name" && negb (truthy (prop d "name"))) eqn:Hname.
  - destruct (Entity.entity cls) as [entityName | e]; simpl in Hfirst; [ | discriminate].
    unfold write in Hfirst. rewrite Hd in Hfirst. injection Hfirst as <-. simpl.
    assert (Hwritten : <[data this := set d "name" (VStr ("New " ++ entityName))]> (heap w)
                       !! data this
                       = Some (set d "name" (VStr ("New " ++ entityName)))).
    { apply list_lookup_insert_eq. apply (lookup_lt_Some _ _ _ Hd). }
    simpl in Hwritten. rewrite Hwritten. unfold hasOwnProperty, prop.
    rewrite get_set_same. simpl.
    split; [reflexivity | ]. eexists. split; [reflexivity | ].
    rewrite get_set_same. reflexivity.
  - injection Hfirst as <-. rewrite Hd, Hname. split; [reflexivity | ].
    exists d. split; [reflexivity | ]. intros Hhas. rewrite Hhas in Hname.
    simpl in Hname. apply negb_false_iff in Hname. exact Hname.
Qed.

Lemma prepareData_idempotent_witness :
  let this := {| class_name := "Actor"; data := 1; apps := []; embedded := [] |} in
  exists w1,
    Entity.prepareData Actor this snapshot = Ret tt w1
    /\ heap w1 !! 1 = Some [("_id", VStr "a2"); ("name", VStr "New Actor")]
    /\ Entity.prepareData Actor this w1 = Ret tt w1.
Proof.
  eexists. split; [reflexivity | ]. split; [reflexivity | ].
  apply (prepareData_idempotent Actor _ snapshot). reflexivity.
Defined.

(** ** Validation comes before the transport *)

Ltac case_step :=
  match goal with
  | |- context [match ?x with _ => _ end] =>
      lazymatch x with
      | context [match _ with _ => _ end] => fail
      | _ => destruct x
      end
  end; cbv beta iota.

Lemma stage_updates_step (opts : obj) (d : value) (rest arr : list value) (w : World) :
  (exists e, Entity.stage_updates opts (d :: rest) arr w = Throw e w)
  \/ (exists arr', Entity.stage_updates opts (d :: rest) arr w
                   = Entity.stage_updates opts rest arr' w).
Proof.
  simpl Entity.stage_updates.
  unfold bind, lift, read, EntityCollection.get, Entity.id, throw, isObjectEmpty.
  unfold bind, read, ret. cbv beta iota.
  repeat case_step; eauto.
Qed.

Lemma stage_updates_read_only (opts : obj) (items : list value) :
  forall arr w,
    (exists arr', Entity.stage_updates opts items arr w = Ret arr' w)
    \/ (exists e, Entity.stage_updates opts items arr w = Throw e w).
Proof.
  induction items as [ | d rest IH ]; intros arr w.
  - left. exists arr. reflexivity.
  - destruct (stage_updates_step opts d rest arr w) as [[e He] | [arr' Harr]].
    + right. eauto.
    + rewrite Harr. apply IH.
Qed.

Lemma stage_updates_rejects (opts : obj) (d key : value) (w : World) (items : list value) :
  In d items ->
  member d "_id" = Ok key ->
  truthy key = false \/ map_get (store w) key = None ->
  forall arr, exists e, Entity.stage_updates opts items arr w = Throw e w.
Proof.
  intros Hin Hkey Hbad. induction items as [ | d0 rest IH ]; intros arr; [destruct Hin | ].
  destruct Hin as [-> | Hin].
  - simpl Entity.stage_updates. unfold bind at 1. unfold lift. rewrite Hkey.
    unfold ret at 1. cbv beta iota.
    destruct (truthy key) eqn:Htruthy; cbv beta iota delta [negb]; [ | eexists; reflexivity].
    destruct Hbad as [Hfalsy | Hunknown]; [discriminate | ].
    unfold bind, EntityCollection.get. rewrite Hunknown. eexists. reflexivity.
  - destruct (stage_updates_step opts d0 rest arr w) as [[e He] | [arr' Harr]]; [eauto | ].
    rewrite Harr. apply (IH Hin).
Qed.

(** X19.  [Entity.update] validates the whole batch before anything is
    sent: when an item of the batch has no [_id] (or a falsy one), or an
    [_id] the collection does not hold, the call throws with the world as it
    was, nothing dispatched and nothing changed, wherever the item stands in
    the batch. *)
Theorem update_validates_first (cls : Entity.Class) (user : User)
  (server : string -> Request -> res Response) (data : value) (opts : obj)
  (d key : value) (w : World) :
  In d (match data with VArr items => items | _ => [data] end) ->
  member d "_id" = Ok key ->
  truthy key = false \/ map_get (store w) key = None ->
  exists e, Entity.update cls user server data opts w = Throw e w.
Proof.
  intros Hin Hkey Hbad. unfold Entity.update.
  unfold bind at 1. unfold lift at 1.
  destruct (Entity.entity cls) as [entityName | e]; [ | eexists; reflexivity].
  unfold ret at 1. cbv beta iota.
  unfold bind at 1. unfold lift at 1.
  destruct (Entity.collection_of cls) as [classes | e]; [ | eexists; reflexivity].
  unfold ret at 1. cbv beta iota.
  unfold bind at 1. unfold lift at 1.
  destruct (mergeObject _ opts default_options) as [merged | e]; [ | eexists; reflexivity].
  unfold ret at 1. cbv beta iota.
  destruct (stage_updates_rejects merged d key w _ Hin Hkey Hbad []) as [e He].
  exists e. apply bind_Throw. exact He.
Qed.

Lemma update_validates_first_witness :
  let data := VArr [VObj [("_id", VStr "a1"); ("name", VStr "Heroine")];
                    VObj [("name", VStr "Nobody")]] in
  exists e, Entity.update Actor player one_record_server data [] bootstrapped
            = Throw e bootstrapped.
Proof.
  apply (update_validates_first Actor player one_record_server _ []
           (VObj [("name", VStr "Nobody")]) VUndefined bootstrapped).
  - right. left. reflexivity.
  - reflexivity.
  - left. reflexivity.
Defined.

Lemma delete_lookup (cls : Entity.Class) (d : value) (w : World) :
  (exists live, map_get (store w) d = Some live
                /\ (let! _ := lift (Entity.collection_of cls) in
                    let! _ := EntityCollection.get d true in
                    ret tt) w = Ret tt w)
  \/ (exists e, (let! _ := lift (Entity.collection_of cls) in
                 let! _ := EntityCollection.get d true in
                 ret tt) w = Throw e w).
Proof.
  unfold bind, lift, EntityCollection.get, throw.
  destruct (Entity.collection_of cls) as [classes | e]; [ | right; eauto].
  unfold ret. destruct (map_get (store w) d) as [live | ]; [left | right]; eauto.
Qed.

Lemma delete_lookup_rejects (cls : Entity.Class) (key : value) (w : World)
  (ids : list value) :
  In key ids -> map_get (store w) key = None ->
  exists e, for_each (fun d => let! _ := lift (Entity.collection_of cls) in
                               let! _ := EntityCollection.get d true in
                               ret tt) ids w = Throw e w.
Proof.
  intros Hin Hkey. induction ids as [ | d rest IH ]; [destruct Hin | ].
  simpl for_each.
  destruct (delete_lookup cls d w) as [[live [Hlive Hstep]] | [e He]].
  - rewrite (bind_Ret _ _ _ _ _ Hstep).
    destruct Hin as [-> | Hin]; [congruence | apply (IH Hin)].
  - exists e. apply bind_Throw. exact He.
Qed.

(** X20.  [Entity.delete] checks every id before anything is sent: when one
    of the ids is no key of the collection the call throws with the world as
    it was, nothing dispatched and nothing removed, wherever the id stands in
    the batch. *)
Theorem delete_validates_first (cls : Entity.Class)
  (server : string -> Request -> res Response) (close : string -> M unit)
  (data : value) (opts : obj) (key : value) (w : World) :
  In key (match data with VArr items => items | _ => [data] end) ->
  map_get (store w) key = None ->
  exists e, Entity.delete cls server close data opts w = Throw e w.
Proof.
  intros Hin Hkey. unfold Entity.delete.
  unfold bind at 1. unfold lift at 1.
  destruct (Entity.entity cls) as [entityName | e]; [ | eexists; reflexivity].
  unfold ret at 1. cbv beta iota.
  unfold bind at 1. unfold lift at 1.
  destruct (mergeObject _ opts default_options) as [merged | e]; [ | eexists; reflexivity].
  unfold ret at 1. cbv beta iota.
  destruct (delete_lookup_rejects cls key w _ Hin Hkey) as [e He].
  exists e. apply bind_Throw. exact He.
Qed.

Lemma delete_validates_first_witness :
  exists e, Entity.delete Actor one_record_server (fun _ => ret tt)
                          (VArr [VStr "a1"; VStr "zz"]) [] bootstrapped
            = Throw e bootstrapped.
Proof.
  apply (delete_validates_first Actor one_record_server _ _ [] (VStr "zz") bootstrapped).
  - right. left. reflexivity.
  - reflexivity.
Defined.

(** ** A rejected request *)

Lemma dispatch_rejected (server : string -> Request -> res Response) (eventName : string)
  (req : Request) (e : error) (w : World) :
  server eventName req = Err e ->
  Entity.dispatch server eventName req w = Throw e (add_log w [Dispatched eventName req]).
Proof.
  intros Hserver. unfold Entity.dispatch, bind, emit, lift. rewrite Hserver. reflexivity.
Qed.

Lemma delete_lookup_read_only (cls : Entity.Class) (w : World) (ids : list value) :
  for_each (fun d => let! _ := lift (Entity.collection_of cls) in
                     let! _ := EntityCollection.get d true in
                     ret tt) ids w = Ret tt w
  \/ exists e, for_each (fun d => let! _ := lift (Entity.collection_of cls) in
                                  let! _ := EntityCollection.get d true in
                                  ret tt) ids w = Throw e w.
Proof.
  induction ids as [ | d rest IH ]; [left; reflexivity | ].
  simpl for_each.
  destruct (delete_lookup cls d w) as [[live [Hlive Hstep]] | [e He]].
  - rewrite (bind_Ret _ _ _ _ _ Hstep). exact IH.
  - right. exists e. apply bind_Throw. exact He.
Qed.

(** X21.  A request the server rejects changes nothing in the cache:
    whatever the data and the options, when the transport answers with an
    error, [Entity.create] and [Entity.delete] throw and [Entity.update]
    throws or resolves to the empty array without dispatching, and in each
    case the records, the store and the raw source array are what they
    were. *)
Theorem rejected_request_changes_nothing (cls : Entity.Class) (user : User)
  (server : string -> Request -> res Response) (close : string -> M unit)
  (data : value) (opts : obj) (w : World) :
  (forall eventName req, exists e, server eventName req = Err e) ->
  let unchanged := fun w' => heap w' = heap w /\ store w' = store w
                             /\ _source w' = _source w in
  match Entity.create cls server data opts w with
  | Ret _ _ => False
  | Throw _ w' => unchanged w'
  end
  /\ match Entity.update cls user server data opts w with
     | Ret r w' => r = Entity.Entities [] /\ w' = w
     | Throw _ w' => unchanged w'
     end
  /\ match Entity.delete cls server close data opts w with
     | Ret _ _ => False
     | Throw _ w' => unchanged w'
     end.
Proof.
  intros Hserver unchanged.
  assert (Hw : unchanged w) by (repeat split).
  assert (Hlog : forall events, unchanged (add_log w events)) by (intros; repeat split).
  split; [ | split].
  - unfold Entity.create.
    unfold bind at 1. unfold lift at 1.
    destruct (Entity.entity cls) as [entityName | e]; [ | exact Hw].
    unfold ret at 1. cbv beta iota.
    unfold bind at 1. unfold lift at 1.
    destruct (mergeObject _ opts default_options) as [merged | e]; [ | exact Hw].
    unfold ret at 1. cbv beta iota.
    match goal with
    | |- context [Entity.dispatch server ?ev ?req] =>
        destruct (Hserver ev req) as [e He];
        rewrite (bind_Throw _ _ _ _ _ (dispatch_rejected server ev req e w He))
    end.
    apply Hlog.
  - unfold Entity.update.
    unfold bind at 1. unfold lift at 1.
    destruct (Entity.entity cls) as [entityName | e]; [ | exact Hw].
    unfold ret at 1. cbv beta iota.
    unfold bind at 1. unfold lift at 1.
    destruct (Entity.collection_of cls) as [classes | e]; [ | exact Hw].
    unfold ret at 1. cbv beta iota.
    unfold bind at 1. unfold lift at 1.
    destruct (mergeObject _ opts default_options) as [merged | e]; [ | exact Hw].
    unfold ret at 1. cbv beta iota.
    match goal with
    | |- context [Entity.stage_updates ?o ?items ?arr] =>
        destruct (stage_updates_read_only o items arr w) as [[updates Hu] | [e He]]
    end.
    + rewrite (bind_Ret _ _ _ _ _ Hu).
      destruct (List.length updates =? 0)%nat; [split; reflexivity | ].
      match goal with
      | |- context [Entity.dispatch server ?ev ?req] =>
          destruct (Hserver ev req) as [e He];
          rewrite (bind_Throw _ _ _ _ _ (dispatch_rejected server ev req e w He))
      end.
      apply Hlog.
    + rewrite (bind_Throw _ _ _ _ _ He). exact Hw.
  - unfold Entity.delete.
    unfold bind at 1. unfold lift at 1.
    destruct (Entity.entity cls) as [entityName | e]; [ | exact Hw].
    unfold ret at 1. cbv beta iota.
    unfold bind at 1. unfold lift at 1.
    destruct (mergeObject _ opts default_options) as [merged | e]; [ | exact Hw].
    unfold ret at 1. cbv beta iota.
    match goal with
    | |- context [for_each ?f ?ids] =>
        destruct (delete_lookup_read_only cls w ids) as [Hids | [e He]]
    end.
    + rewrite (bind_Ret _ _ _ _ _ Hids).
      match goal with
      | |- context [Entity.dispatch server ?ev ?req] =>
          destruct (Hserver ev req) as [e He];
          rewrite (bind_Throw _ _ _ _ _ (dispatch_rejected server ev req e w He))
      end.
      apply Hlog.
    + rewrite (bind_Throw _ _ _ _ _ He). exact Hw.
Qed.

Lemma rejected_request_changes_nothing_witness :
  let refusing := fun (_ : string) (_ : Request) => @Err Response ServerError in
  let data := VObj [("_id", VStr "a1"); ("name", VStr "Heroine")] in
  let unchanged := fun w' => heap w' = heap bootstrapped /\ store w' = store bootstrapped
                             /\ _source w' = _source bootstrapped in
  match Entity.create Actor refusing data [] bootstrapped with
  | Ret _ _ => False
  | Throw _ w' => unchanged w'
  end
  /\ match Entity.update Actor player refusing data [] bootstrapped with
     | Ret r w' => r = Entity.Entities [] /\ w' = bootstrapped
     | Throw _ w' => unchanged w'
     end
  /\ match Entity.delete Actor refusing (fun _ => ret tt) data [] bootstrapped with
     | Ret _ _ => False
     | Throw _ w' => unchanged w'
     end.
Proof.
  intros refusing data unchanged.
  apply (rejected_request_changes_nothing Actor player refusing (fun _ => ret tt) data []
                                          bootstrapped).
  intros eventName req. exists ServerError. reflexivity.
Defined.

(** ** What the update handler keeps *)

Lemma same_collection_refl (w : World) : same_collection w w.
Proof. repeat split. Qed.

Lemma same_collection_trans (w1 w2 w3 : World) :
  same_collection w1 w2 -> same_collection w2 w3 -> same_collection w1 w3.
Proof.
  intros (Hs & Hr & Ha & Hh) (Hs' & Hr' & Ha' & Hh'). repeat split; congruence.
Qed.

Lemma keeps_ret {A : Type} (a : A) : keeps_collection (ret a).
Proof. intros w. apply same_collection_refl. Qed.

Lemma keeps_throw {A : Type} (e : error) : keeps_collection (@throw A e).
Proof. intros w. apply same_collection_refl. Qed.

Lemma keeps_lift {A : Type} (r : res A) : keeps_collection (lift r).
Proof. destruct r; [apply keeps_ret | apply keeps_throw]. Qed.

Lemma keeps_bind {A B : Type} (m : M A) (f : A -> M B) :
  keeps_collection m -> (forall a, keeps_collection (f a)) -> keeps_collection (bind m f).
Proof.
  intros Hm Hf w. unfold bind. specialize (Hm w).
  destruct (m w) as [a w1 | e w1]; [ | exact Hm].
  specialize (Hf a w1). destruct (f a w1);
    apply (same_collection_trans _ _ _ Hm Hf).
Qed.

Lemma keeps_emit (ev : Event) : keeps_collection (emit ev).
Proof. intros w. repeat split. Qed.

Lemma keeps_read (l : nat) : keeps_collection (read l).
Proof. intros w. unfold read. destruct (heap w !! l); apply same_collection_refl. Qed.

Lemma keeps_write (l : nat) (d : obj) : keeps_collection (write l d).
Proof.
  intros w. unfold write. destruct (heap w !! l); [ | apply same_collection_refl].
  repeat split. simpl. apply length_insert.
Qed.

Lemma keeps_for_each {A : Type} (f : A -> M unit) (l : list A) :
  (forall x, keeps_collection (f x)) -> keeps_collection (for_each f l).
Proof.
  intros Hf. induction l as [ | x rest IH ]; simpl; [apply keeps_ret | ].
  apply keeps_bind; auto.
Qed.

Lemma keeps_get (key : value) (strict : bool) :
  keeps_collection (EntityCollection.get key strict).
Proof.
  intros w. unfold EntityCollection.get.
  destruct (map_get (store w) key); [ | destruct strict]; apply same_collection_refl.
Qed.

Lemma keeps_collection_render : keeps_collection EntityCollection.render.
Proof.
  intros w. unfold EntityCollection.render.
  apply (keeps_for_each (fun a => emit (AppRendered a)) (collection_apps w)).
  intros a. apply keeps_emit.
Qed.

Lemma keeps_prepareData (cls : Entity.Class) (this : EntityInstance) :
  keeps_collection (Entity.prepareData cls this).
Proof.
  unfold Entity.prepareData. apply keeps_bind; [apply keeps_read | ]. intros d.
  destruct (hasOwnProperty d "name" && negb (truthy (prop d "name")));
    [ | apply keeps_ret].
  apply keeps_bind; [apply keeps_lift | ]. intros entityName. apply keeps_write.
Qed.

Lemma keeps_render (user : User) (this : EntityInstance) (context_data : option value) :
  keeps_collection (Entity.render user this context_data).
Proof.
  unfold Entity.render. apply keeps_bind.
  - destruct context_data as [[ | | | | | | ] | ];
      try apply keeps_ret; simpl; try apply keeps_throw;
      match goal with |- context [if ?c then _ else _] => destruct c end;
      try apply keeps_ret; apply keeps_throw.
  - intros permChange. apply keeps_for_each. intros app.
    apply keeps_bind; [ | intros _; apply keeps_emit].
    destruct permChange; [ | apply keeps_ret].
    apply keeps_bind; [apply keeps_read | ]. intros d.
    apply keeps_bind; [apply keeps_lift | ]. intros editable. apply keeps_emit.
Qed.

Lemma keeps_apply_update (this : EntityInstance) (record : value) :
  keeps_collection (Entity.apply_update this record).
Proof.
  unfold Entity.apply_update.
  apply keeps_bind; [apply keeps_read | ]. intros d.
  apply keeps_bind; [apply keeps_lift | ]. intros other.
  apply keeps_bind; [apply keeps_lift | ]. intros merged.
  apply keeps_bind; [apply keeps_write | ]. intros _.
  apply keeps_bind; [apply keeps_lift | ]. intros incoming.
  destruct (truthy incoming && truthy (prop merged "permission"));
    [apply keeps_write | apply keeps_ret].
Qed.

Lemma keeps_onUpdate (cls : Entity.Class) (user : User) (this : EntityInstance)
  (record : value) :
  keeps_collection (Entity._onUpdate cls user this record).
Proof.
  unfold Entity._onUpdate.
  apply keeps_bind; [apply keeps_emit | ]. intros _.
  apply keeps_bind; [apply keeps_prepareData | ]. intros _. apply keeps_render.
Qed.

Lemma map_M_Forall2 {A B : Type} (f : A -> M B) (I : World -> Prop) (Q : A -> B -> Prop) :
  (forall x w, I w -> match f x w with
                      | Ret y w' => I w' /\ Q x y
                      | Throw _ w' => I w'
                      end) ->
  forall l w, I w -> match map_M f l w with
                     | Ret ys w' => I w' /\ Forall2 Q l ys
                     | Throw _ w' => I w'
                     end.
Proof.
  intros Hf. induction l as [ | x rest IH ]; intros w Hw; simpl.
  - split; [exact Hw | constructor].
  - unfold bind at 1. specialize (Hf x w Hw).
    destruct (f x w) as [y w1 | e w1]; [ | exact Hf].
    destruct Hf as [Hw1 Hxy]. unfold bind at 1. specialize (IH w1 Hw1).
    destruct (map_M f rest w1) as [ys w2 | e w2]; [ | exact IH].
    destruct IH as [Hw2 Hrest]. split; [exact Hw2 | constructor; assumption].
Qed.

(** X22.  The update handler keeps the instances: whether
    [_handleUpdate] returns or throws on a response, the store, the raw
    source array and the number of records are what they were, no Entity is
    added, replaced or dropped; and when it returns, the Entities it returns
    are, record by record, the ones the store held under the [_id] of the
    record before the call. *)
Theorem handleUpdate_keeps_instances (cls : Entity.Class) (user : User)
  (response : Response) (w : World) :
  match Entity._handleUpdate cls user response w with
  | Ret updated w' =>
      same_collection w w'
      /\ Forall2 (fun record live => exists key, member record "_id" = Ok key
                                                /\ map_get (store w) key = Some live)
                 (result response) updated
  | Throw _ w' => same_collection w w'
  end.
Proof.
  unfold Entity._handleUpdate. unfold bind at 1. unfold lift at 1.
  destruct (Entity.collection_of cls) as [classes | e]; [ | apply same_collection_refl].
  unfold ret at 1. cbv beta iota. unfold bind at 1.
  match goal with
  | |- context [map_M ?f (result response) w] =>
      pose proof (map_M_Forall2 f (same_collection w)
                    (fun record live => exists key, member record "_id" = Ok key
                                                    /\ map_get (store w) key = Some live))
        as Hloop
  end.
  match type of Hloop with
  | ?P -> _ => assert (Hstep : P)
  end.
  { intros record w1 Hw1. unfold bind at 1. unfold lift at 1.
    destruct (member record "_id") as [key | e] eqn:Hkey; [ | exact Hw1].
    unfold ret at 1. cbv beta iota. unfold bind at 1. unfold EntityCollection.get.
    destruct (map_get (store w1) key) as [live | ] eqn:Hlive; [ | exact Hw1].
    pose proof (keeps_apply_update live record w1) as Happly.
    unfold bind at 1.
    destruct (Entity.apply_update live record w1) as [[] w2 | e w2];
      [ | apply (same_collection_trans _ _ _ Hw1 Happly)].
    pose proof (keeps_onUpdate cls user live record w2) as Hon.
    unfold bind at 1.
    destruct (Entity._onUpdate cls user live record w2) as [[] w3 | e w3];
      [ | apply (same_collection_trans _ _ _ Hw1 (same_collection_trans _ _ _ Happly Hon))].
    unfold ret. split.
    - apply (same_collection_trans _ _ _ Hw1 (same_collection_trans _ _ _ Happly Hon)).
    - exists key. split; [reflexivity | ].
      destruct Hw1 as [Hstore _]. rewrite <- Hstore. exact Hlive. }
  specialize (Hloop Hstep (result response) w (same_collection_refl w)).
  destruct (map_M _ (result response) w) as [updated w1 | e w1]; [ | exact Hloop].
  destruct Hloop as [Hw1 Hupdated].
  unfold bind at 1.
  match goal with
  | |- context [(if ?c then ?m else ret tt) w1] =>
      assert (Hrender : keeps_collection (if c then m else ret tt))
  end.
  { destruct (negb _); [ | apply keeps_ret].
    apply keeps_bind; [apply keeps_lift | ]. intros _.
    apply keeps_bind; [apply keeps_lift | ]. intros _.
    apply keeps_collection_render. }
  specialize (Hrender w1).
  match goal with
  | |- context [match ?m w1 with _ => _ end] => destruct (m w1) as [[] w2 | e w2]
  end.
  - unfold ret. split; [apply (same_collection_trans _ _ _ Hw1 Hrender) | exact Hupdated].
  - apply (same_collection_trans _ _ _ Hw1 Hrender).
Qed.


(** ** A temporary creation *)

Lemma prepareData_other_records (cls : Entity.Class) (this : EntityInstance) (w : World) :
  match Entity.prepareData cls this w with
  | Ret _ w' | Throw _ w' => forall l, l <> data this -> heap w' !! l = heap w !! l
  end.
Proof.
  unfold Entity.prepareData, bind, read.
  destruct (heap w !! data this) as [d | ] eqn:Hd; [ | auto].
  destruct (hasOwnProperty d "name" && negb (truthy (prop d "name"))); [ | unfold ret; auto].
  unfold lift. destruct (Entity.entity cls) as [n | e]; simpl; [ | auto].
  unfold write. rewrite Hd. simpl. intros l Hl.
  apply list_lookup_insert_ne. congruence.
Qed.

Lemma initialize_other_records (cls : Entity.Class) (this : EntityInstance) (w : World) :
  forall l, l <> data this -> heap (snd (Entity.initialize cls this w)) !! l = heap w !! l.
Proof.
  intros l Hl. unfold Entity.initialize.
  pose proof (prepareData_other_records cls this w) as H1.
  destruct (Entity.prepareData cls this w) as [[] w1 | e w1]; [ | simpl; auto].
  pose proof (prepareEmbeddedEntities_spec cls this w1) as (Hd & _ & Hw).
  destruct (Entity.prepareEmbeddedEntities cls this w1) as [this1 [[] w2 | e w2]];
    simpl in Hd, Hw; subst w2; [ | simpl; auto].
  pose proof (prepareData_other_records cls this1 w1) as H3. rewrite Hd in H3.
  destruct (Entity.prepareData cls this1 w1) as [[] w3 | e w3]; simpl;
    rewrite H3 by exact Hl; auto.
Qed.

Lemma map_M_returns {A B : Type} (f : A -> M B) (I : World -> Prop) (P : A -> Prop)
  (Q : A -> B -> Prop) :
  (forall x w, P x -> I w -> exists y w', f x w = Ret y w' /\ I w' /\ Q x y) ->
  forall l w, Forall P l -> I w ->
              exists ys w', map_M f l w = Ret ys w' /\ I w' /\ Forall2 Q l ys.
Proof.
  intros Hf l w Hl. revert w. induction Hl as [ | x rest Hx _ IH ]; intros w Hw; simpl.
  - exists [], w. repeat split; [exact Hw | constructor].
  - destruct (Hf x w Hx Hw) as (y & w1 & Hy & Hw1 & Hxy).
    destruct (IH w1 Hw1) as (ys & w2 & Hys & Hw2 & Hrest).
    exists (y :: ys), w2. unfold bind. rewrite Hy, Hys.
    repeat split; [exact Hw2 | constructor; assumption].
Qed.

Lemma for_each_emit {A : Type} (event : A -> Event) (l : list A) (w : World) :
  for_each (fun a => emit (event a)) l w = Ret tt (add_log w (map event l)).
Proof.
  revert w. induction l as [ | a rest IH ]; intros w; simpl.
  - rewrite add_log_nil. reflexivity.
  - unfold bind. simpl. rewrite IH. unfold add_log. simpl.
    rewrite <- app_assoc. reflexivity.
Qed.

(** X23.  A temporary creation stays out of the collection: for a
    configured class and a response whose options hold a truthy
    [temporary], [_handleCreate] returns one Entity per record of the
    response, each on a fresh record; the store and the raw source array are
    what they were, and no record that existed is changed. *)
Theorem handleCreate_temporary (cls : Entity.Class) (response : Response) (w : World)
  (entityName : string) (classes : list string) :
  Entity.entity cls = Ok entityName ->
  Entity.collection_of cls = Ok classes ->
  truthy (prop (options (request response)) "temporary") = true ->
  Forall (fun record => exists o, record = VObj o) (result response) ->
  exists created w',
    Entity._handleCreate cls response w = Ret created w'
    /\ List.length created = List.length (result response)
    /\ Forall (fun e => List.length (heap w) <= data e) created
    /\ store w' = store w /\ _source w' = _source w
    /\ forall l, l < List.length (heap w) -> heap w' !! l = heap w !! l.
Proof.
  intros Hname Hclasses Htemporary Hrecords.
  set (J := fun w1 : World =>
              store w1 = store w /\ _source w1 = _source w
              /\ List.length (heap w) <= List.length (heap w1)
              /\ forall l, l < List.length (heap w) -> heap w1 !! l = heap w !! l).
  assert (HJ : J w) by (repeat split; lia).
  unfold Entity._handleCreate. rewrite Htemporary.
  match goal with
  | |- context [map_M ?f (result response)] =>
      destruct (map_M_returns f J (fun record => exists o, record = VObj o)
                  (fun _ e => List.length (heap w) <= data e)) with
        (l := result response) (w := w) as (created & w1 & Hcreated & Hw1 & Hfresh);
      [ | exact Hrecords | exact HJ | ]
  end.
  - intros record w0 [o ->] (Hs & Hr & Hlen & Hold).
    unfold bind at 1. unfold alloc at 1. cbv beta iota.
    match goal with
    | |- context [bind (Entity.new cls ?d) _ ?w2] =>
        pose proof (initialize_spec cls
                      {| class_name := Entity.name cls; data := d; apps := [];
                         embedded := [] |} w2) as (Hd & _ & Hsame);
        pose proof (initialize_other_records cls
                      {| class_name := Entity.name cls; data := d; apps := [];
                         embedded := [] |} w2) as Hother;
        unfold bind at 1; unfold Entity.new;
        destruct (Entity.initialize cls _ w2) as [this w3]
    end.
    simpl in Hd, Hsame, Hother. destruct Hsame as (Hs3 & Hr3 & _ & Hlen3 & _).
    simpl in Hs3, Hr3, Hlen3. rewrite length_app in Hlen3. simpl in Hlen3.
    exists this, w3. unfold ret. split; [reflexivity | ]. split.
    + repeat split; try congruence; try lia.
      intros l Hl. rewrite Hother by lia.
      rewrite lookup_app_l by lia. apply Hold. exact Hl.
    + rewrite Hd. exact Hlen.
  - exists created, (add_log w1 (if negb (strict_equal (prop (options (request response))
                                                         "render") (VBool false))
                               then map AppRendered (collection_apps w1) else [])).
    destruct Hw1 as (Hs & Hr & Hlen & Hold).
    split; [ | split; [ | split; [ | repeat split; assumption ] ] ].
    + rewrite (bind_Ret _ _ _ _ _ Hcreated).
      destruct (negb (strict_equal _ (VBool false))).
      * rewrite Hclasses, Hname. unfold bind, lift, ret. unfold EntityCollection.render.
        rewrite for_each_emit. reflexivity.
      * unfold bind, ret. rewrite add_log_nil. reflexivity.
    + symmetry. apply (Forall2_length _ _ _ Hfresh).
    + clear - Hfresh. induction Hfresh; constructor; assumption.
Qed.

Lemma handleCreate_temporary_witness :
  let response :=
    {| request := {| type := "Actor"; action := "create"; payload := VArr [];
                     options := [("temporary", VBool true)]; parentType := "";
                     parentId := VUndefined |};
       result := [VObj [("_id", VStr "a9"); ("name", VStr ""); ("items", VArr [])]];
       userId := "u1" |} in
  exists created w',
    Entity._handleCreate Actor response bootstrapped = Ret created w'
    /\ List.length created = 1
    /\ store w' = store bootstrapped /\ _source w' = _source bootstrapped.
Proof.
  intros response.
  destruct (handleCreate_temporary Actor response bootstrapped "Actor" ["Actor"]
              eq_refl eq_refl eq_refl)
    as (created & w' & Hcreated & Hlen & _ & Hstore & Hsource & _).
  - repeat constructor. eexists. reflexivity.
  - exists created, w'. repeat split; assumption.
Defined.

(** ** Deletion *)

Lemma strict_equal_sym (a b : value) : strict_equal a b = strict_equal b a.
Proof.
  destruct a, b; simpl; try reflexivity.
  - destruct b, b0; reflexivity.
  - apply Z.eqb_sym.
  - apply String.eqb_sym.
Qed.

Lemma strict_equal_trans (a b c : value) :
  strict_equal a b = true -> strict_equal b c = true -> strict_equal a c = true.
Proof.
  intros Hab Hbc. apply strict_equal_eq in Hab. subst. exact Hbc.
Qed.

Lemma map_get_delete_other (m : list (value * EntityInstance)) (key key' : value) :
  strict_equal key key' = false ->
  map_get (map_delete m key) key' = map_get m key'.
Proof.
  intros Hne. induction m as [ | [k e] rest IH ]; simpl; [reflexivity | ].
  destruct (strict_equal k key) eqn:Hk; simpl.
  - destruct (strict_equal k key') eqn:Hk'; [ | reflexivity].
    rewrite strict_equal_sym in Hk.
    rewrite (strict_equal_trans _ _ _ Hk Hk') in Hne. discriminate.
  - rewrite IH. reflexivity.
Qed.

Lemma map_get_absent (m : list (value * EntityInstance)) (key : value) :
  existsb (strict_equal key) (map fst m) = false -> map_get m key = None.
Proof.
  induction m as [ | [k e] rest IH ]; simpl; [reflexivity | ].
  intros H. apply orb_false_iff in H as [Hk Hrest].
  rewrite strict_equal_sym, Hk. apply IH. exact Hrest.
Qed.

Lemma map_get_delete_same (m : list (value * EntityInstance)) (key : value) :
  distinct_values (map fst m) = true -> map_get (map_delete m key) key = None.
Proof.
  induction m as [ | [k e] rest IH ]; simpl; [reflexivity | ].
  intros H. apply andb_true_iff in H as [Hk Hrest]. apply negb_true_iff in Hk.
  destruct (strict_equal k key) eqn:Hkey; simpl.
  - apply strict_equal_eq in Hkey. subst. apply map_get_absent. exact Hk.
  - rewrite Hkey. apply IH. exact Hrest.
Qed.

Lemma map_delete_length (m : list (value * EntityInstance)) (key : value)
  (e : EntityInstance) :
  map_get m key = Some e -> S (List.length (map_delete m key)) = List.length m.
Proof.
  induction m as [ | [k e'] rest IH ]; simpl; [discriminate | ].
  destruct (strict_equal k key); [reflexivity | ].
  intros H. simpl. rewrite IH by exact H. reflexivity.
Qed.

Lemma map_delete_distinct (m : list (value * EntityInstance)) (key : value) :
  distinct_values (map fst m) = true -> distinct_values (map fst (map_delete m key)) = true.
Proof.
  induction m as [ | [k e] rest IH ]; simpl; [reflexivity | ].
  intros H. apply andb_true_iff in H as [Hk Hrest].
  destruct (strict_equal k key); [exact Hrest | ].
  simpl. rewrite (IH Hrest), andb_true_r.
  apply negb_true_iff. apply negb_true_iff in Hk.
  clear - Hk. induction rest as [ | [k' e'] more IHm ]; simpl in *; [reflexivity | ].
  apply orb_false_iff in Hk as [Hk' Hmore].
  destruct (strict_equal k' key); [exact Hmore | ].
  simpl. rewrite Hk'. apply IHm. exact Hmore.
Qed.


Lemma for_each_benign (close : string -> M unit) (Hclose : benign close)
  (apps : list string) :
  forall w, exists w', for_each close apps w = Ret tt w'
                       /\ heap w' = heap w /\ store w' = store w
                       /\ _source w' = _source w
                       /\ collection_apps w' = collection_apps w.
Proof.
  induction apps as [ | a rest IH ]; intros w; simpl.
  - exists w. unfold ret. auto.
  - destruct (Hclose a w) as (w1 & Ha & Hh & Hs & Hr & Hc).
    destruct (IH w1) as (w2 & Hrest & Hh2 & Hs2 & Hr2 & Hc2).
    exists w2. unfold bind. rewrite Ha, Hrest. repeat split; congruence.
Qed.

Lemma existsb_strict_equal_false (key : value) (ids : list value) (id : value) :
  existsb (strict_equal key) ids = false -> In id ids -> strict_equal key id = false.
Proof.
  intros Hnone Hin. destruct (strict_equal key id) eqn:Heq; [ | reflexivity].
  rewrite <- Hnone. symmetry. apply existsb_exists. exists id. auto.
Qed.

Lemma delete_loop (close : string -> M unit) (Hclose : benign close) (ids : list value) :
  forall w,
    distinct_values ids = true ->
    distinct_values (map fst (store w)) = true ->
    Forall (fun id => map_get (store w) id <> None) ids ->
    exists deleted w',
      map_M (fun key =>
               let! found := EntityCollection.get key true in
               match found with
               | Some live =>
                   EntityCollection.remove key ;;;
                   Entity._onDelete close live ;;;
                   ret live
               | None => throw KeyMissing
               end) ids w = Ret deleted w'
      /\ Forall2 (fun id live => map_get (store w) id = Some live) ids deleted
      /\ (forall id, In id ids -> map_get (store w') id = None)
      /\ (forall key, existsb (strict_equal key) ids = false ->
                      map_get (store w') key = map_get (store w) key)
      /\ List.length (store w') + List.length ids = List.length (store w)
      /\ heap w' = heap w /\ collection_apps w' = collection_apps w.
Proof.
  induction ids as [ | id rest IH ]; intros w Hids Hstore Hpresent.
  - exists [], w. simpl. unfold ret. repeat split; auto; try constructor.
    intros id [].
  - simpl in Hids. apply andb_true_iff in Hids as [Hfresh Hrest].
    apply negb_true_iff in Hfresh.
    inversion Hpresent as [ | ? ? Hid Hothers ]; subst.
    destruct (map_get (store w) id) as [live | ] eqn:Hlive; [ | contradiction].
    set (w1 := {| heap := heap w; store := map_delete (store w) id;
                  _source := snd (findSplice
                                    (fun e => match heap w !! e with
                                              | Some record => strict_equal (prop record "_id") id
                                              | None => false
                                              end) (_source w));
                  collection_apps := collection_apps w; log := log w |}).
    destruct (for_each_benign close Hclose (apps live) w1) as (w2 & Hw2 & Hh2 & Hs2 & _ & Hc2).
    assert (Hother : forall id', In id' rest ->
                                 map_get (store w2) id' = map_get (store w) id').
    { intros id' Hin. rewrite Hs2. simpl.
      apply map_get_delete_other. apply (existsb_strict_equal_false _ _ _ Hfresh Hin). }
    destruct (IH w2 Hrest) as (deleted & w3 & Hloop & Hlives & Hgone & Hframe & Hlen & Hh3 & Hc3).
    { rewrite Hs2. simpl. apply map_delete_distinct. exact Hstore. }
    { rewrite List.Forall_forall in Hothers. apply List.Forall_forall. intros id' Hin.
      rewrite (Hother id' Hin). apply (Hothers id' Hin). }
    exists (live :: deleted), w3. split; [ | split; [ | split; [ | split; [ | split] ] ] ].
    + simpl map_M.
      match goal with
      | |- bind ?m _ w = _ => assert (Hstep : m w = Ret live w2)
      end.
      { unfold bind at 1. unfold EntityCollection.get. rewrite Hlive.
        unfold bind at 1.
        change (EntityCollection.remove id w) with (Ret tt w1). cbv beta iota.
        unfold bind at 1. unfold Entity._onDelete. rewrite Hw2. reflexivity. }
      rewrite (bind_Ret _ _ _ _ _ Hstep), (bind_Ret _ _ _ _ _ Hloop). reflexivity.
    + constructor; [exact Hlive | ].
      clear - Hlives Hother. induction Hlives as [ | id' live' ids' lives' Hhead _ IHl ];
        constructor.
      * rewrite <- (Hother id' (or_introl eq_refl)). exact Hhead.
      * apply IHl. intros id'' Hin. apply Hother. right. exact Hin.
    + intros id' [<- | Hin]; [ | apply (Hgone id' Hin)].
      rewrite (Hframe id Hfresh), Hs2. simpl.
      apply map_get_delete_same. exact Hstore.
    + intros key Hkey. simpl in Hkey. apply orb_false_iff in Hkey as [Hkid Hkrest].
      rewrite (Hframe key Hkrest), Hs2. simpl.
      apply map_get_delete_other. rewrite strict_equal_sym. exact Hkid.
    + simpl List.length. rewrite Hs2 in Hlen. simpl in Hlen.
      pose proof (map_delete_length _ _ _ Hlive) as Hdel. lia.
    + split; [rewrite Hh3, Hh2 | rewrite Hc3, Hc2]; reflexivity.
Qed.

(** X24.  What the delete handler removes: for a configured class, a store
    with distinct keys and a response naming distinct ids the store holds (or
    asking, with [deleteAll], for every key of the store), [_handleDelete]
    returns the Entities the store held under these ids, in order; [get] then
    answers [null] for each of the ids, every other key is looked up as
    before, the store has shrunk by the number of ids (to nothing with
    [deleteAll]), and no record is changed. *)
Theorem handleDelete_removes (cls : Entity.Class) (close : string -> M unit)
  (response : Response) (w : World) (entityName : string) (classes : list string)
  (ids : list value) :
  Entity.entity cls = Ok entityName ->
  Entity.collection_of cls = Ok classes ->
  benign close ->
  distinct_values (map fst (store w)) = true ->
  ids = (if truthy (prop (options (request response)) "deleteAll")
         then map fst (store w) else result response) ->
  distinct_values ids = true ->
  Forall (fun id => map_get (store w) id <> None) ids ->
  exists deleted w',
    Entity._handleDelete cls close response w = Ret deleted w'
    /\ Forall2 (fun id live => map_get (store w) id = Some live) ids deleted
    /\ (forall id, In id ids -> EntityCollection.get id false w' = Ret None w')
    /\ (forall key, existsb (strict_equal key) ids = false ->
                    map_get (store w') key = map_get (store w) key)
    /\ List.length (store w') + List.length ids = List.length (store w)
    /\ (truthy (prop (options (request response)) "deleteAll") = true -> store w' = [])
    /\ heap w' = heap w.
Proof.
  intros Hname Hclasses Hclose Hstore Hids Hdistinct Hpresent.
  destruct (delete_loop close Hclose ids w Hdistinct Hstore Hpresent)
    as (deleted & w1 & Hloop & Hlives & Hgone & Hframe & Hlen & Hheap & Happs).
  exists deleted,
    (add_log w1 (if negb (strict_equal (prop (options (request response)) "render")
                                       (VBool false))
                 then map AppRendered (collection_apps w1) else [])).
  split; [ | split; [exact Hlives | split; [ | split; [exact Hframe | split;
    [exact Hlen | split; [ | exact Hheap] ] ] ] ] ].
  - unfold Entity._handleDelete. rewrite Hclasses.
    unfold bind at 1. unfold lift at 1. unfold ret at 1. cbv beta iota.
    unfold bind at 1. rewrite <- Hids. unfold bind at 1. rewrite Hloop.
    unfold bind at 1.
    destruct (negb (strict_equal _ (VBool false))).
    + rewrite Hname. unfold bind, lift, ret. unfold EntityCollection.render.
      rewrite for_each_emit. reflexivity.
    + unfold ret. rewrite add_log_nil. reflexivity.
  - intros id Hin. unfold EntityCollection.get. simpl. rewrite (Hgone id Hin). reflexivity.
  - intros Hall. rewrite Hall in Hids. subst ids. rewrite length_map in Hlen.
    simpl. destruct (store w1); [reflexivity | simpl in Hlen; lia].
Qed.

Lemma handleDelete_removes_witness :
  let response :=
    {| request := {| type := "Actor"; action := "delete"; payload := VArr [VStr "a1"];
                     options := []; parentType := ""; parentId := VUndefined |};
       result := [VStr "a1"]; userId := "u1" |} in
  exists deleted w',
    Entity._handleDelete Actor (fun _ => ret tt) response bootstrapped = Ret deleted w'
    /\ List.length deleted = 1
    /\ EntityCollection.get (VStr "a1") false w' = Ret None w'
    /\ map_get (store w') (VStr "a3") = map_get (store bootstrapped) (VStr "a3")
    /\ List.length (store w') = 2.
Proof.
  intros response.
  destruct (handleDelete_removes Actor (fun _ => ret tt) response bootstrapped
              "Actor" ["Actor"] [VStr "a1"] eq_refl eq_refl)
    as (deleted & w' & Hdeleted & Hlives & Hgone & Hframe & Hlen & _ & _).
  - intros a w0. exists w0. repeat split.
  - reflexivity.
  - reflexivity.
  - reflexivity.
  - repeat constructor. discriminate.
  - exists deleted, w'. split; [exact Hdeleted | ]. split; [ | split; [ | split] ].
    + symmetry. apply (Forall2_length _ _ _ Hlives).
    + apply Hgone. left. reflexivity.
    + apply Hframe. reflexivity.
    + simpl in Hlen. change (List.length (store bootstrapped)) with 3 in Hlen. lia.
Defined.

(** ** Embedded documents *)

Lemma for_each_member_id (records : list value) (w : World) :
  Forall (fun r => exists o, r = VObj o) records ->
  for_each (fun r => let! _ := lift (member r "_id") in ret tt) records w = Ret tt w.
Proof.
  induction 1 as [ | r rest [o ->] _ IH ]; simpl; [reflexivity | ].
  unfold bind at 1. unfold bind at 1. simpl. exact IH.
Qed.

Lemma for_each_onCreateEmbeddedEntity (this : EntityInstance) (embeddedName : string)
  (records : list value) (w : World) :
  for_each (Entity._onCreateEmbeddedEntity this embeddedName) records w = Ret tt w.
Proof.
  induction records as [ | r rest IH ]; simpl; [reflexivity | ].
  unfold bind at 1. simpl. exact IH.
Qed.

(** X25.  What the embedded create handler adds: for a configured class, a
    parent held by the store and a raw embedded array under the field of the
    embedded type, the handler returns the records of the response; with a
    truthy [temporary] option nothing at all is changed; otherwise the raw
    embedded array of the parent is the prior array followed by the records,
    in order, the store is what it was, and the per-batch modification hook
    and the render of the parent have run once. *)
Theorem handleCreateEmbeddedEntity_appends (cls : Entity.Class) (user : User)
  (response : Response) (w : World) (cfg : Entity.Config) (entityName : string)
  (classes : list string) (field : string) (parent : EntityInstance) (d : obj)
  (docs : list value) :
  Entity.config cls = Ok cfg ->
  Entity.baseEntity cfg = Some entityName ->
  Entity.collection cfg = Some classes ->
  Entity.lookup_embedded (Entity.embeddedEntities cfg) (type (request response)) = Some field ->
  field <> "" ->
  map_get (store w) (parentId (request response)) = Some parent ->
  heap w !! data parent = Some d ->
  get d field = Some (VArr docs) ->
  Forall (fun r => exists o, r = VObj o) (result response) ->
  if truthy (prop (options (request response)) "temporary")
  then Entity._handleCreateEmbeddedEntity cls user response w = Ret (result response) w
  else
    exists w' d',
      Entity._handleCreateEmbeddedEntity cls user response w = Ret (result response) w'
      /\ heap w' !! data parent = Some d'
      /\ get d' field = Some (VArr (docs ++ result response))
      /\ store w' = store w
      /\ log w' = (log w ++ [OnModifyEmbedded (data parent) (type (request response))]
                   ++ map AppRendered (apps parent))%list.
Proof.
  intros Hcfg Hbase Hcoll Hfield Hne Hparent Hd Hdocs Hrecords.
  set (embeddedName := type (request response)) in *.
  assert (Harr : prop d field = VArr docs) by (unfold prop; now rewrite Hdocs).
  assert (Hstart :
             Entity._handleCreateEmbeddedEntity cls user response w
             = (if truthy (prop (options (request response)) "temporary")
                then Ret (result response) w
                else (let! cfg' := lift (Entity.config cls) in
                      match Entity.lookup_embedded (Entity.embeddedEntities cfg') embeddedName
                      with
                      | None => throw InvalidEmbedded
                      | Some field' =>
                          let! d0 := read (data parent) in
                          write (data parent)
                                (set d0 field' (VArr (docs ++ result response))) ;;;
                          for_each (Entity._onCreateEmbeddedEntity parent embeddedName)
                                   (result response) ;;;
                          Entity._onModifyEmbeddedEntity cls user parent embeddedName ;;;
                          (if (List.length (result response) <=? 5)%nat
                           then for_each (fun r => let! _ := lift (member r "_id") in ret tt)
                                         (result response)
                           else ret tt) ;;;
                          ret (result response)
                      end) w)).
  { unfold Entity._handleCreateEmbeddedEntity. fold embeddedName.
    unfold bind at 1. unfold Entity.collection_of. rewrite Hcfg. simpl rbind.
    rewrite Hcoll. simpl lift. unfold ret at 1. cbv beta iota.
    unfold bind at 1. unfold EntityCollection.get. rewrite Hparent.
    unfold bind at 1. unfold Entity.getEmbeddedCollection.
    unfold bind at 1. rewrite Hcfg. simpl lift. unfold ret at 1. cbv beta iota.
    rewrite Hfield.
    destruct (String.eqb_spec field "") as [E | _]; [contradiction | ].
    unfold bind at 1. unfold read at 1. rewrite Hd. unfold ret at 1. rewrite Harr.
    destruct (truthy (prop (options (request response)) "temporary")); reflexivity. }
  rewrite Hstart.
  destruct (truthy (prop (options (request response)) "temporary")); [reflexivity | ].
  destruct (write_then_read w (data parent) d (set d field (VArr (docs ++ result response)))
              Hd) as (w2 & Hw2 & Hl2 & Hs2 & Hr2 & Ha2 & Hlog2).
  set (w3 := add_log w2 [OnModifyEmbedded (data parent) embeddedName]).
  assert (Hname : Entity.entity cls = Ok entityName).
  { unfold Entity.entity. rewrite Hcfg. simpl. now rewrite Hbase. }
  destruct (prepareData_configured cls entityName parent _ w3 Hname Hl2)
    as (w4 & d' & Hprep & Hl4 & Hkeep & Hs4 & Hlog4).
  exists (add_log w4 (map AppRendered (apps parent))), d'.
  split; [ | split; [exact Hl4 | split; [ | split]]].
  - rewrite Hcfg. simpl lift. unfold bind at 1. unfold ret at 1. cbv beta iota.
    rewrite Hfield.
    unfold bind at 1. unfold read at 1. rewrite Hd.
    unfold bind at 1. rewrite Hw2.
    unfold bind at 1. rewrite for_each_onCreateEmbeddedEntity.
    unfold bind at 1. unfold Entity._onModifyEmbeddedEntity.
    unfold bind at 1.
    change (emit (OnModifyEmbedded (data parent) embeddedName) w2) with (Ret tt w3).
    cbv beta iota. unfold bind at 1. rewrite Hprep.
    rewrite render_without_data.
    unfold bind at 1.
    destruct (List.length (result response) <=? 5)%nat;
      [rewrite (for_each_member_id _ _ Hrecords) | ]; reflexivity.
  - destruct (string_dec field "name") as [-> | Hfn].
    + rewrite Hkeep; [apply get_set_same | right].
      unfold prop. now rewrite get_set_same.
    + rewrite Hkeep; [apply get_set_same | left; congruence].
  - simpl. now rewrite Hs4.
  - simpl. rewrite Hlog4. simpl. rewrite Hlog2. now rewrite <- !app_assoc.
Qed.

Lemma handleCreateEmbeddedEntity_appends_witness :
  let response :=
    {| request := {| type := "OwnedItem"; action := "create"; payload := VArr [];
                     options := []; parentType := "Actor"; parentId := VStr "a1" |};
       result := [VObj [("_id", VStr "i3"); ("name", VStr "Bow")]]; userId := "u1" |} in
  exists parent w' d',
    map_get (store bootstrapped) (VStr "a1") = Some parent
    /\ Entity._handleCreateEmbeddedEntity Actor player response bootstrapped
       = Ret [VObj [("_id", VStr "i3"); ("name", VStr "Bow")]] w'
    /\ heap w' !! data parent = Some d'
    /\ get d' "items" = Some (VArr [VObj [("_id", VStr "i1"); ("name", VStr "Sword")];
                                    VObj [("_id", VStr "i2"); ("name", VStr "Shield")];
                                    VObj [("_id", VStr "i3"); ("name", VStr "Bow")]]).
Proof.
  intros response.
  pose proof (handleCreateEmbeddedEntity_appends Actor player response bootstrapped
                _ "Actor" ["Actor"] "items"
                {| class_name := "Actor"; data := 0; apps := [];
                   embedded := [("items", [VObj [("_id", VStr "i1"); ("name", VStr "Sword")];
                                           VObj [("_id", VStr "i2"); ("name", VStr "Shield")]])] |}
                hero [VObj [("_id", VStr "i1"); ("name", VStr "Sword")];
                      VObj [("_id", VStr "i2"); ("name", VStr "Shield")]]
                eq_refl eq_refl eq_refl eq_refl) as H.
  simpl in H. destruct H as (w' & d' & Hrun & Hd' & Hitems & _ & _).
  - discriminate.
  - reflexivity.
  - reflexivity.
  - reflexivity.
  - repeat constructor. eexists. reflexivity.
  - eexists. exists w', d'. split; [reflexivity | ]. split; [exact Hrun | ].
    split; [exact Hd' | exact Hitems].
Defined.

(** The run of the embedded delete handler on a raw embedded array of
    records, for use in the workflow below. *)
Lemma handleDeleteEmbeddedEntity_run (cls : Entity.Class) (user : User)
  (response : Response) (w : World) (cfg : Entity.Config) (entityName : string)
  (classes : list string) (field : string) (parent : EntityInstance) (d : obj)
  (docs : list value) :
  Entity.config cls = Ok cfg ->
  Entity.baseEntity cfg = Some entityName ->
  Entity.collection cfg = Some classes ->
  Entity.lookup_embedded (Entity.embeddedEntities cfg) (type (request response)) = Some field ->
  field <> "" ->
  map_get (store w) (parentId (request response)) = Some parent ->
  heap w !! data parent = Some d ->
  get d field = Some (VArr docs) ->
  Forall (fun doc => exists o, doc = VObj o) docs ->
  exists w' d',
    Entity._handleDeleteEmbeddedEntity cls user response w
    = Ret (List.filter (doomed (result response)) docs) w'
    /\ heap w' !! data parent = Some d'
    /\ get d' field
       = Some (VArr (List.filter (fun doc => negb (doomed (result response) doc)) docs))
    /\ log w'
       = (log w
          ++ map (OnDeleteEmbedded (data parent) (type (request response)))
                 (List.filter (doomed (result response)) docs)
          ++ [OnModifyEmbedded (data parent) (type (request response))]
          ++ map AppRendered (apps parent))%list
    /\ store w' = store w.
Proof.
  intros Hcfg Hbase Hcoll Hfield Hne Hparent Hd Hdocs Hrecords.
  set (embeddedName := type (request response)) in *.
  set (deleted := List.filter (doomed (result response)) docs).
  set (surviving := List.filter (fun doc => negb (doomed (result response) doc)) docs).
  set (w1 := add_log w (map (OnDeleteEmbedded (data parent) embeddedName) deleted)).
  assert (Hd1 : heap w1 !! data parent = Some d) by exact Hd.
  destruct (write_then_read w1 (data parent) d (set d field (VArr surviving)) Hd1)
    as (w2 & Hw2 & Hl2 & Hs2 & Hr2 & Ha2 & Hlog2).
  set (w3 := add_log w2 [OnModifyEmbedded (data parent) embeddedName]).
  assert (Hname : Entity.entity cls = Ok entityName).
  { unfold Entity.entity. rewrite Hcfg. simpl. now rewrite Hbase. }
  destruct (prepareData_configured cls entityName parent (set d field (VArr surviving)) w3
              Hname Hl2) as (w4 & d' & Hprep & Hl4 & Hkeep & Hs4 & Hlog4).
  exists (add_log w4 (map AppRendered (apps parent))), d'.
  split; [ | split; [exact Hl4 | split; [ | split]]].
  - unfold Entity._handleDeleteEmbeddedEntity. fold embeddedName.
    unfold bind at 1. unfold Entity.collection_of. rewrite Hcfg. simpl rbind.
    rewrite Hcoll. simpl lift. unfold ret at 1. cbv beta iota.
    unfold bind at 1. unfold EntityCollection.get. rewrite Hparent.
    unfold bind at 1. unfold Entity.getEmbeddedCollection.
    unfold bind at 1. rewrite Hcfg. simpl lift. unfold ret at 1. cbv beta iota.
    rewrite Hfield.
    destruct (String.eqb_spec field "") as [E | _]; [contradiction | ].
    unfold bind at 1. unfold read at 1. rewrite Hd. unfold ret at 1.
    assert (Harr : prop d field = VArr docs) by (unfold prop; now rewrite Hdocs).
    rewrite Harr.
    unfold bind at 1. rewrite (partition_deleted parent embeddedName _ docs Hrecords).
    fold deleted surviving w1. cbv beta iota. simpl fst. simpl snd.
    unfold bind at 1. unfold ret at 1. cbv beta iota.
    unfold bind at 1. unfold read at 1. rewrite Hd1. rewrite Hfield.
    unfold bind at 1. rewrite Hw2.
    unfold bind at 1. unfold Entity._onModifyEmbeddedEntity.
    unfold bind at 1.
    change (emit (OnModifyEmbedded (data parent) embeddedName) w2) with (Ret tt w3).
    cbv beta iota. unfold bind at 1. rewrite Hprep.
    rewrite render_without_data. reflexivity.
  - destruct (string_dec field "name") as [-> | Hfn].
    + rewrite Hkeep; [apply get_set_same | right].
      unfold prop. now rewrite get_set_same.
    + rewrite Hkeep; [apply get_set_same | left; congruence].
  - simpl. rewrite Hlog4. simpl. rewrite Hlog2. simpl.
    now rewrite <- !app_assoc.
  - simpl. now rewrite Hs4.
Qed.

Lemma stage_deletions_spec (ids docs : list value) :
  Forall (fun doc => exists o, doc = VObj o) docs ->
  forall arr,
    Entity.stage_deletions ids docs arr
    = Ok (arr ++ map child_id (List.filter (doomed ids) docs))%list.
Proof.
  induction 1 as [ | doc rest [o ->] _ IH ]; intros arr; simpl.
  - rewrite app_nil_r. reflexivity.
  - unfold doomed at 1. simpl child_id.
    destruct (existsb (strict_equal (prop o "_id")) ids); simpl.
    + rewrite IH, <- app_assoc. reflexivity.
    + apply IH.
Qed.

Lemma doomed_staged (ids docs : list value) (doc : value) :
  In doc docs ->
  doomed (map child_id (List.filter (doomed ids) docs)) doc = doomed ids doc.
Proof.
  intros Hin.
  change (existsb (strict_equal (child_id doc))
                  (map child_id (List.filter (doomed ids) docs))
          = existsb (strict_equal (child_id doc)) ids).
  destruct (existsb (strict_equal (child_id doc)) ids) eqn:Hids.
  - apply existsb_exists. exists (child_id doc). split.
    + apply in_map. apply filter_In. split; [exact Hin | exact Hids].
    + apply existsb_exists in Hids as [id [_ Hid]].
      pose proof (strict_equal_eq _ _ Hid) as <-. exact Hid.
  - apply not_true_is_false. intros Hstaged.
    apply existsb_exists in Hstaged as [key [Hkey Heq]].
    apply in_map_iff in Hkey as [doc' [<- Hdoc']].
    apply filter_In in Hdoc' as [_ Hdoomed]. unfold doomed in Hdoomed.
    apply strict_equal_eq in Heq. rewrite <- Heq in Hdoomed. congruence.
Qed.

Lemma filter_ext_in' {A : Type} (f g : A -> bool) (l : list A) :
  (forall x, In x l -> f x = g x) -> List.filter f l = List.filter g l.
Proof.
  induction l as [ | x rest IH ]; intros H; simpl; [reflexivity | ].
  rewrite (H x (or_introl eq_refl)), IH; [reflexivity | ].
  intros y Hy. apply H. right. exact Hy.
Qed.


Lemma filter_all {A : Type} (f : A -> bool) (l : list A) :
  (forall x, In x l -> f x = true) -> List.filter f l = l.
Proof.
  induction l as [ | x rest IH ]; intros H; simpl; [reflexivity | ].
  rewrite (H x (or_introl eq_refl)), IH; [reflexivity | ].
  intros y Hy. apply H. right. exact Hy.
Qed.

(** X26.  [deleteEmbeddedEntity] against a server that confirms what it is
    asked: for a configured class, a parent the store holds under its [_id]
    and a raw embedded array of records, the call resolves to the children
    whose [_id] is among the requested ids (to the child itself when there is
    one), and the raw embedded array of the parent is then the prior array
    without exactly those; the one request sent carries the ids of these
    children only (ids that name no child are dropped), and when no id names
    a child nothing is dispatched and nothing changes. *)
Theorem deleteEmbeddedEntity_removes (cls : Entity.Class) (user : User)
  (server : string -> Request -> res Response) (this : EntityInstance)
  (embeddedName : string) (requested : value) (opts : obj) (w : World)
  (cfg : Entity.Config)
  (entityName : string) (classes : list string) (field : string) (d : obj)
  (docs : list value) :
  Entity.config cls = Ok cfg ->
  Entity.baseEntity cfg = Some entityName ->
  Entity.collection cfg = Some classes ->
  Entity.lookup_embedded (Entity.embeddedEntities cfg) embeddedName = Some field ->
  field <> "" ->
  map_get (store w) (prop d "_id") = Some this ->
  heap w !! data this = Some d ->
  get d field = Some (VArr docs) ->
  Forall (fun doc => exists o, doc = VObj o) docs ->
  (forall req, exists u,
      server "modifyEmbeddedDocument" req
      = Ok {| request := req;
              result := match payload req with VArr confirmed => confirmed | _ => [] end;
              userId := u |}) ->
  let ids := match requested with VArr items => items | _ => [requested] end in
  let deleted := List.filter (doomed ids) docs in
  exists w' d',
    Entity.deleteEmbeddedEntity cls user server this embeddedName requested opts w
    = Ret (Entity.first_or_all (Nat.eqb (List.length deleted) 1) deleted) w'
    /\ heap w' !! data this = Some d'
    /\ get d' field = Some (VArr (List.filter (fun doc => negb (doomed ids doc)) docs))
    /\ store w' = store w
    /\ (deleted = [] -> w' = w)
    /\ (deleted <> [] ->
        exists later,
          log w'
          = (log w
             ++ Dispatched "modifyEmbeddedDocument"
                  {| type := embeddedName; action := "delete";
                     payload := VArr (map child_id deleted); options := opts;
                     parentType := entityName; parentId := prop d "_id" |}
             :: later)%list).
Proof.
  intros Hcfg Hbase Hcoll Hfield Hne Hparent Hd Hdocs Hrecords Hserver ids deleted.
  assert (Harr : prop d field = VArr docs) by (unfold prop; now rewrite Hdocs).
  assert (Hname : Entity.entity cls = Ok entityName).
  { unfold Entity.entity. rewrite Hcfg. simpl. now rewrite Hbase. }
  set (staged := map child_id deleted).
  assert (Hlen : List.length staged = List.length deleted) by apply length_map.
  assert (Hstart :
            Entity.deleteEmbeddedEntity cls user server this embeddedName requested opts w
            = (if Nat.eqb (List.length staged) 0 then ret (VArr [])
               else
                 let! entityName := lift (Entity.entity cls) in
                 let! parent_id := Entity.id this in
                 let! response :=
                   Entity.dispatch server "modifyEmbeddedDocument"
                     {| type := embeddedName; action := "delete";
                        payload := VArr staged; options := opts;
                        parentType := entityName; parentId := parent_id |} in
                 let! embedded := Entity._handleDeleteEmbeddedEntity cls user response in
                 ret (Entity.first_or_all (Nat.eqb (List.length staged) 1) embedded)) w).
  { unfold Entity.deleteEmbeddedEntity.
    unfold bind at 1. unfold Entity.getEmbeddedCollection.
    unfold bind at 1. rewrite Hcfg. simpl lift. unfold ret at 1. cbv beta iota.
    rewrite Hfield.
    destruct (String.eqb_spec field "") as [E | _]; [contradiction | ].
    unfold bind at 1. unfold read at 1. rewrite Hd. unfold ret at 1. rewrite Harr.
    fold ids. rewrite (stage_deletions_spec ids docs Hrecords []).
    unfold bind at 1. simpl lift. unfold ret at 1. reflexivity. }
  rewrite Hstart, Hlen.
  destruct (Nat.eqb (List.length deleted) 0) eqn:Hempty.
  - apply Nat.eqb_eq, length_zero_iff_nil in Hempty.
    exists w, d. rewrite Hempty. split; [reflexivity | ]. split; [exact Hd | ].
    split; [ | split; [auto | split; [auto | intros Hsome; now destruct Hsome]]].
    rewrite Hdocs. do 2 f_equal. symmetry. apply filter_all.
    intros x Hx. apply negb_true_iff.
    destruct (doomed ids x) eqn:Hdoomed; [ | reflexivity].
    assert (Hin : In x deleted) by (apply filter_In; auto).
    rewrite Hempty in Hin. destruct Hin.
  - rewrite Hname. unfold bind at 1. simpl lift. unfold ret at 1. cbv beta iota.
    unfold bind at 1. unfold Entity.id. unfold bind at 1. unfold read at 1. rewrite Hd.
    unfold ret at 1. cbv beta iota.
    set (req := {| type := embeddedName; action := "delete"; payload := VArr staged;
                   options := opts; parentType := entityName;
                   parentId := prop d "_id" |}).
    destruct (Hserver req) as [u Hreq].
    set (response := {| request := req; result := staged; userId := u |}).
    set (w1 := add_log w [Dispatched "modifyEmbeddedDocument" req]).
    assert (Hdispatch : Entity.dispatch server "modifyEmbeddedDocument" req w
                        = Ret response w1).
    { unfold Entity.dispatch, bind, emit, lift. rewrite Hreq. reflexivity. }
    rewrite (bind_Ret _ _ _ _ _ Hdispatch).
    destruct (handleDeleteEmbeddedEntity_run cls user response w1 cfg entityName classes
                field this d docs Hcfg Hbase Hcoll Hfield Hne Hparent Hd Hdocs Hrecords)
      as (w' & d' & Hrun & Hd' & Hfield' & Hlog & Hstore).
    assert (Hsame : forall x, In x docs -> doomed staged x = doomed ids x).
    { intros x Hx. apply doomed_staged. exact Hx. }
    simpl result in Hrun, Hfield'.
    rewrite (filter_ext_in' _ _ _ Hsame) in Hrun.
    rewrite (filter_ext_in' (fun doc => negb (doomed staged doc))
                            (fun doc => negb (doomed ids doc))) in Hfield'
      by (intros x Hx; rewrite (Hsame x Hx); reflexivity).
    exists w', d'. rewrite (bind_Ret _ _ _ _ _ Hrun).
    split; [reflexivity | ]. split; [exact Hd' | ]. split; [exact Hfield' | ].
    split; [exact Hstore | ].
    split; [intros Hnone; rewrite Hnone in Hempty; discriminate | ].
    intros _. eexists. rewrite Hlog. unfold w1. simpl log.
    rewrite <- app_assoc. reflexivity.
Qed.

Lemma deleteEmbeddedEntity_removes_witness :
  let confirming := fun (_ : string) (req : Request) =>
    Ok {| request := req;
          result := match payload req with VArr confirmed => confirmed | _ => [] end;
          userId := "u1" |} in
  let sword := VObj [("_id", VStr "i1"); ("name", VStr "Sword")] in
  let shield := VObj [("_id", VStr "i2"); ("name", VStr "Shield")] in
  let this := {| class_name := "Actor"; data := 0; apps := [];
                 embedded := [("items", [sword; shield])] |} in
  exists w' d',
    map_get (store bootstrapped) (VStr "a1") = Some this
    /\ Entity.deleteEmbeddedEntity Actor player confirming this "OwnedItem"
                                   (VArr [VStr "i1"; VStr "zz"]) [] bootstrapped
       = Ret sword w'
    /\ heap w' !! 0 = Some d'
    /\ get d' "items" = Some (VArr [shield]).
Proof.
  intros confirming sword shield this.
  destruct (deleteEmbeddedEntity_removes Actor player confirming this "OwnedItem"
              (VArr [VStr "i1"; VStr "zz"]) [] bootstrapped _ "Actor" ["Actor"] "items"
              hero [sword; shield] eq_refl eq_refl eq_refl eq_refl)
    as (w' & d' & Hrun & Hd' & Hitems & _ & _).
  - discriminate.
  - reflexivity.
  - reflexivity.
  - reflexivity.
  - repeat constructor; eexists; reflexivity.
  - intros req. exists "u1". reflexivity.
  - exists w', d'. split; [reflexivity | ]. split; [exact Hrun | ].
    split; [exact Hd' | exact Hitems].
Defined.

(** ** Creation *)

Lemma prepareData_content (cls : Entity.Class) (this : EntityInstance) (o : obj)
  (w : World) :
  heap w !! data this = Some o ->
  match Entity.prepareData cls this w with
  | Ret _ w' | Throw _ w' =>
      exists o', heap w' !! data this = Some o'
                 /\ forall k, k <> "name" \/ truthy (prop o "name") = true ->
                              get o' k = get o k
  end.
Proof.
  intros Ho. unfold Entity.prepareData, bind, read. rewrite Ho.
  destruct (hasOwnProperty o "name" && negb (truthy (prop o "name"))) eqn:Hcond;
    [ | exists o; unfold ret; auto].
  unfold lift. destruct (Entity.entity cls) as [n | e]; simpl; [ | exists o; auto].
  unfold write. rewrite Ho. simpl. eexists. split.
  - apply list_lookup_insert_eq. apply (lookup_lt_Some _ _ _ Ho).
  - intros k [Hk | Htruthy].
    + apply get_set_other. congruence.
    + apply andb_prop in Hcond as [_ Hfalsy]. rewrite Htruthy in Hfalsy. discriminate.
Qed.

Lemma initialize_content (cls : Entity.Class) (this : EntityInstance) (o : obj)
  (w : World) :
  heap w !! data this = Some o ->
  exists o', heap (snd (Entity.initialize cls this w)) !! data this = Some o'
             /\ forall k, k <> "name" \/ truthy (prop o "name") = true ->
                          get o' k = get o k.
Proof.
  intros Ho. unfold Entity.initialize.
  pose proof (prepareData_content cls this o w Ho) as H1.
  destruct (Entity.prepareData cls this w) as [[] w1 | e w1]; [ | exact H1].
  destruct H1 as (o1 & Ho1 & Hkeep1).
  pose proof (prepareEmbeddedEntities_spec cls this w1) as (Hd & _ & Hw).
  destruct (Entity.prepareEmbeddedEntities cls this w1) as [this1 [[] w2 | e w2]];
    simpl in Hd, Hw; subst w2; [ | simpl; eauto].
  rewrite <- Hd in Ho1.
  pose proof (prepareData_content cls this1 o1 w1 Ho1) as H3. rewrite Hd in H3.
  assert (Hchain : forall o2, (forall k, k <> "name" \/ truthy (prop o1 "name") = true ->
                                         get o2 k = get o1 k) ->
                              forall k, k <> "name" \/ truthy (prop o "name") = true ->
                                        get o2 k = get o k).
  { intros o2 Hkeep2 k Hk. rewrite <- (Hkeep1 k Hk). apply Hkeep2.
    destruct Hk as [Hk | Htruthy]; [left; exact Hk | right].
    unfold prop. rewrite (Hkeep1 "name" (or_intror Htruthy)). exact Htruthy. }
  destruct (Entity.prepareData cls this1 w1) as [[] w3 | e w3]; simpl;
    destruct H3 as (o2 & Ho2 & Hkeep2); exists o2; split; auto.
Qed.

Lemma create_step (cls : Entity.Class) (classes : list string) (o : obj) (w : World) :
  Entity.collection_of cls = Ok classes ->
  existsb (String.eqb (Entity.name cls)) classes = true ->
  exists this w' o',
    (let! d := alloc o in
     let! created := Entity.new cls d in
     let! classes := lift (Entity.collection_of cls) in
     EntityCollection.insert classes created ;;;
     Entity._onCreate created ;;;
     ret created) w = Ret this w'
    /\ data this = List.length (heap w) /\ class_name this = Entity.name cls
    /\ heap w' !! data this = Some o'
    /\ (forall k, k <> "name" \/ truthy (prop o "name") = true -> get o' k = get o k)
    /\ store w' = map_set (store w) (prop o "_id") this
    /\ _source w' = (_source w ++ [data this])%list
    /\ collection_apps w' = collection_apps w
    /\ List.length (heap w') = S (List.length (heap w))
    /\ (forall l, l < List.length (heap w) -> heap w' !! l = heap w !! l).
Proof.
  intros Hclasses Hinstance.
  set (d := List.length (heap w)).
  set (w1 := {| heap := heap w ++ [o]; store := store w; _source := _source w;
                collection_apps := collection_apps w; log := log w |}).
  set (blank := {| class_name := Entity.name cls; data := d; apps := []; embedded := [] |}).
  assert (Ho : heap w1 !! data blank = Some o).
  { simpl. unfold d. rewrite lookup_app_r by lia. rewrite Nat.sub_diag. reflexivity. }
  pose proof (initialize_spec cls blank w1) as (Hd & Hc & Hsame).
  pose proof (initialize_other_records cls blank w1) as Hother.
  destruct (initialize_content cls blank o w1 Ho) as (o' & Ho' & Hkeep).
  destruct (Entity.initialize cls blank w1) as [this w2] eqn:Hinit.
  simpl in Hd, Hc, Hsame, Hother, Ho'.
  destruct Hsame as (Hs2 & Hr2 & Ha2 & Hlen2 & _). simpl in Hs2, Hr2, Ha2, Hlen2.
  rewrite length_app in Hlen2. simpl in Hlen2.
  assert (Hid : prop o' "_id" = prop o "_id").
  { unfold prop. rewrite Hkeep; [reflexivity | left; discriminate]. }
  eexists this, _, o'. split; [ | split; [exact Hd | split; [exact Hc | ] ] ].
  - unfold bind at 1. unfold alloc at 1. cbv beta iota. fold d w1.
    unfold bind at 1. unfold Entity.new. fold blank. rewrite Hinit.
    unfold bind at 1. rewrite Hclasses. simpl lift. unfold ret at 1. cbv beta iota.
    unfold bind at 1. unfold EntityCollection.insert. rewrite Hc, Hinstance.
    cbv beta iota delta [negb].
    unfold bind at 1. unfold read at 1. rewrite Hd, Ho'.
    unfold bind at 1. cbv beta iota. unfold EntityCollection.set.
    unfold bind at 1. unfold Entity._onCreate, emit. reflexivity.
  - simpl. rewrite Hd. split; [exact Ho' | ]. split; [exact Hkeep | ].
    rewrite Hid, Hs2, Hr2, Ha2. repeat split; try lia.
    intros l Hl. rewrite Hother by (unfold d; lia).
    apply lookup_app_l. exact Hl.
Qed.

Lemma primitive_distinct (a b : value) :
  primitive a = true -> strict_equal a b = false -> a <> b.
Proof.
  intros Hprim Hne <-. rewrite (strict_equal_primitive_refl _ Hprim) in Hne. discriminate.
Qed.

Lemma create_loop (cls : Entity.Class) (classes : list string) (os : list obj) :
  Entity.collection_of cls = Ok classes ->
  existsb (String.eqb (Entity.name cls)) classes = true ->
  forall w,
    Forall (fun o => primitive (prop o "_id") = true) os ->
    distinct_values (map (fun o => prop o "_id") os) = true ->
    Forall (fun o => map_get (store w) (prop o "_id") = None) os ->
    exists created w',
      map_M (fun record =>
               let! d := match record with
                         | VObj o => alloc o
                         | _ => if truthy record then throw Unmodelled else alloc []
                         end in
               let! created := Entity.new cls d in
               let! classes := lift (Entity.collection_of cls) in
               EntityCollection.insert classes created ;;;
               Entity._onCreate created ;;;
               ret created) (map VObj os) w = Ret created w'
      /\ Forall2 (fun o e =>
                    map_get (store w') (prop o "_id") = Some e
                    /\ class_name e = Entity.name cls
                    /\ List.length (heap w) <= data e
                    /\ exists o', heap w' !! data e = Some o'
                                  /\ forall k, k <> "name" \/ truthy (prop o "name") = true ->
                                               get o' k = get o k) os created
      /\ List.length (store w') = List.length (store w) + List.length os
      /\ _source w' = (_source w ++ map data created)%list
      /\ collection_apps w' = collection_apps w
      /\ List.length (heap w) <= List.length (heap w')
      /\ (forall l, l < List.length (heap w) -> heap w' !! l = heap w !! l)
      /\ (forall key, existsb (strict_equal key) (map (fun o => prop o "_id") os) = false ->
                      map_get (store w') key = map_get (store w) key).
Proof.
  intros Hclasses Hinstance.
  induction os as [ | o rest IH ]; intros w Hprim Hdistinct Hfresh.
  - exists [], w. simpl. unfold ret. rewrite app_nil_r, Nat.add_0_r.
    repeat split; auto.
  - inversion Hprim as [ | ? ? Hido Hprim' ]; subst.
    inversion Hfresh as [ | ? ? Hnew Hfresh' ]; subst.
    simpl in Hdistinct. apply andb_true_iff in Hdistinct as [Hothers Hdistinct'].
    apply negb_true_iff in Hothers.
    destruct (create_step cls classes o w Hclasses Hinstance)
      as (this & w1 & o' & Hstep & Hd & Hc & Ho' & Hkeep & Hs1 & Hr1 & Ha1 & Hlen1 & Hold1).
    assert (Hne : forall o2, In o2 rest -> prop o "_id" <> prop o2 "_id").
    { intros o2 Hin. apply (primitive_distinct _ _ Hido).
      apply (existsb_strict_equal_false _ _ _ Hothers). apply in_map_iff. eauto. }
    destruct (IH w1 Hprim' Hdistinct') as
      (created & w' & Hloop & Hall & Hlen & Hsrc & Happs & Hheap & Hold & Hframe).
    { rewrite List.Forall_forall in Hfresh'. apply List.Forall_forall. intros o2 Hin.
      rewrite Hs1, map_get_set_other by (apply Hne; exact Hin). apply (Hfresh' o2 Hin). }
    exists (this :: created), w'.
    split; [ | split; [ | split; [ | split; [ | split; [ | split; [ | split] ] ] ] ] ].
    + simpl map. simpl map_M. rewrite (bind_Ret _ _ _ _ _ Hstep).
      rewrite (bind_Ret _ _ _ _ _ Hloop). reflexivity.
    + constructor.
      * split; [ | split; [exact Hc | split; [lia | ] ] ].
        -- rewrite (Hframe _ Hothers), Hs1. apply map_get_set_same. exact Hido.
        -- exists o'. split; [ | exact Hkeep]. rewrite Hold by lia. exact Ho'.
      * clear - Hall Hlen1.
        induction Hall as [ | o2 e2 os2 es2 (H1 & H2 & H3 & H4) _ IHall ]; constructor;
          [ | exact IHall].
        split; [exact H1 | split; [exact H2 | split; [lia | exact H4] ] ].
    + rewrite Hlen, Hs1, (map_set_length _ _ _ Hnew). simpl. lia.
    + rewrite Hsrc, Hr1, <- app_assoc. reflexivity.
    + congruence.
    + lia.
    + intros l Hl. rewrite Hold by lia. apply Hold1. exact Hl.
    + intros key Hkey. simpl in Hkey. apply orb_false_iff in Hkey as [Hkid Hkrest].
      rewrite (Hframe key Hkrest), Hs1. apply map_get_set_other.
      intros Heq. rewrite <- Heq in Hkid.
      rewrite (strict_equal_primitive_refl _ Hido) in Hkid. discriminate.
Qed.

(** X27.  What the create handler adds: for a configured class whose
    instances the collection accepts, and a response (not a temporary one)
    whose records carry distinct primitive ids new to the store,
    [_handleCreate] returns one Entity per record; [get] under the [_id] of
    each record then returns its Entity, whose data is the record (a missing
    or empty [name] apart, which [prepareData] may fill); the store has grown
    by the number of records and the raw source array by their data, in
    order; every other key is looked up as before and no record that existed
    is changed. *)
Theorem handleCreate_inserts (cls : Entity.Class) (response : Response) (w : World)
  (entityName : string) (classes : list string) (os : list obj) :
  Entity.entity cls = Ok entityName ->
  Entity.collection_of cls = Ok classes ->
  existsb (String.eqb (Entity.name cls)) classes = true ->
  truthy (prop (options (request response)) "temporary") = false ->
  result response = map VObj os ->
  Forall (fun o => primitive (prop o "_id") = true) os ->
  distinct_values (map (fun o => prop o "_id") os) = true ->
  Forall (fun o => map_get (store w) (prop o "_id") = None) os ->
  exists created w',
    Entity._handleCreate cls response w = Ret created w'
    /\ Forall2 (fun o e =>
                  EntityCollection.get (prop o "_id") false w' = Ret (Some e) w'
                  /\ class_name e = Entity.name cls
                  /\ exists o', heap w' !! data e = Some o'
                                /\ forall k, k <> "name" \/ truthy (prop o "name") = true ->
                                             get o' k = get o k) os created
    /\ List.length (EntityCollection.entities w')
       = List.length (EntityCollection.entities w) + List.length os
    /\ _source w' = (_source w ++ map data created)%list
    /\ (forall key, existsb (strict_equal key) (map (fun o => prop o "_id") os) = false ->
                    map_get (store w') key = map_get (store w) key)
    /\ (forall l, l < List.length (heap w) -> heap w' !! l = heap w !! l).
Proof.
  intros Hname Hclasses Hinstance Htemporary Hresult Hprim Hdistinct Hfresh.
  destruct (create_loop cls classes os Hclasses Hinstance w Hprim Hdistinct Hfresh)
    as (created & w1 & Hloop & Hall & Hlen & Hsrc & Happs & Hheap & Hold & Hframe).
  exists created,
    (add_log w1 (if negb (strict_equal (prop (options (request response)) "render")
                                       (VBool false))
                 then map AppRendered (collection_apps w1) else [])).
  split; [ | split; [ | split; [ | split; [exact Hsrc | split; [exact Hframe | exact Hold] ] ] ] ].
  - unfold Entity._handleCreate. rewrite Htemporary, Hresult. cbv beta iota.
    rewrite (bind_Ret _ _ _ _ _ Hloop).
    destruct (negb (strict_equal _ (VBool false))).
    + rewrite Hclasses, Hname. unfold bind, lift, ret. unfold EntityCollection.render.
      rewrite for_each_emit. reflexivity.
    + unfold bind, ret. rewrite add_log_nil. reflexivity.
  - clear - Hall. induction Hall as [ | o e os' es (H1 & H2 & _ & H4) _ IH ]; constructor;
      [ | exact IH].
    split; [ | split; [exact H2 | exact H4] ].
    unfold EntityCollection.get. simpl. rewrite H1. reflexivity.
  - rewrite !length_entities. exact Hlen.
Qed.

Lemma handleCreate_inserts_witness :
  let record := [("_id", VStr "a9"); ("name", VStr ""); ("items", VArr [])] in
  let response :=
    {| request := {| type := "Actor"; action := "create"; payload := VArr [];
                     options := []; parentType := ""; parentId := VUndefined |};
       result := [VObj record]; userId := "u1" |} in
  exists e w' o',
    Entity._handleCreate Actor response bootstrapped = Ret [e] w'
    /\ EntityCollection.get (VStr "a9") false w' = Ret (Some e) w'
    /\ heap w' !! data e = Some o'
    /\ get o' "items" = Some (VArr [])
    /\ List.length (EntityCollection.entities w') = 4.
Proof.
  intros record response.
  destruct (handleCreate_inserts Actor response bootstrapped "Actor" ["Actor"] [record]
              eq_refl eq_refl eq_refl eq_refl eq_refl)
    as (created & w' & Hrun & Hall & Hlen & _ & _ & _).
  - repeat constructor.
  - reflexivity.
  - repeat constructor.
  - inversion Hall as [ | o e os' es (Hget & _ & o' & Ho' & Hkeep) Hrest ]; subst.
    inversion Hrest; subst.
    exists e, w', o'. split; [exact Hrun | ]. split; [exact Hget | ].
    split; [exact Ho' | ]. split; [ | exact Hlen].
    apply Hkeep. left. discriminate.
Defined.

(** ** Embedded updates *)

Lemma pending_get_In (pending : list (value * value)) (key record : value) :
  Entity.pending_get pending key = Some record -> exists k, In (k, record) pending.
Proof.
  induction pending as [ | [k d] rest IH ]; simpl; [discriminate | ].
  destruct (Entity.pending_get rest key) as [later | ] eqn:Hlater.
  - intros H. injection H as <-. destruct (IH eq_refl) as [k' Hk']. eauto.
  - destruct (strict_equal k key); [ | discriminate].
    intros H. injection H as <-. eauto.
Qed.

Lemma pending_of_records (records : list value) :
  Forall (fun r => exists o, r = VObj o) records ->
  map_res (fun d => let* key := member d "_id" in Ok (key, d)) records
  = Ok (map (fun r => (child_id r, r)) records).
Proof.
  induction 1 as [ | r rest [o ->] _ IH ]; simpl; [reflexivity | ].
  rewrite IH. reflexivity.
Qed.

Lemma update_children_spec (this : EntityInstance) (embeddedName field : string)
  (pending : list (value * value)) (d : obj) :
  (forall k record, In (k, record) pending ->
                    exists r, record = VObj r /\ undotted r = true
                              /\ no_deletion_keys (VObj r) = true
                              /\ well_formed (VObj r) = true) ->
  forall todo done w d0,
    Forall (fun doc => exists o, doc = VObj o /\ undotted o = true) todo ->
    heap w !! data this = Some d0 ->
    get d0 field = Some (VArr (done ++ todo)) ->
    (forall k, k <> field -> get d0 k = get d k) ->
    exists w' d' todo',
      Entity.update_children this embeddedName field pending done todo w = Ret tt w'
      /\ heap w' !! data this = Some d'
      /\ get d' field = Some (VArr (done ++ todo'))
      /\ (forall k, k <> field -> get d' k = get d k)
      /\ Forall2 (merged_child pending) todo todo'
      /\ store w' = store w /\ log w' = log w /\ _source w' = _source w
      /\ collection_apps w' = collection_apps w.
Proof.
  intros Hpending. induction todo as [ | doc rest IH ]; intros done w d0 Hdocs Hd0 Harr Hframe.
  - exists w, d0, []. simpl. unfold ret. repeat split; auto.
  - inversion Hdocs as [ | ? ? [o [-> Ho]] Hrest ]; subst.
    simpl Entity.update_children. unfold bind at 1. simpl lift. unfold ret at 1.
    cbv beta iota.
    destruct (Entity.pending_get pending (prop o "_id")) as [record | ] eqn:Hget.
    + destruct (pending_get_In _ _ _ Hget) as [k Hin].
      destruct (Hpending k record Hin) as (r & -> & Hr & Hndk & Hwf).
      destruct (mergeObject_default_spec o r Ho Hr Hndk Hwf) as (merged & Hmerged & _).
      assert (Hinplace : mergeObject_inplace o r default_options = Ok merged).
      { unfold mergeObject_inplace. rewrite Hmerged. simpl.
        unfold undotted in Ho. apply negb_true_iff in Ho. rewrite Ho. reflexivity. }
      unfold bind at 1. simpl lift. unfold ret at 1. cbv beta iota.
      unfold bind at 1. simpl lift. unfold ret at 1. cbv beta iota.
      unfold bind at 1. rewrite Hinplace. simpl lift. unfold ret at 1. cbv beta iota.
      unfold bind at 1. unfold read at 1. rewrite Hd0.
      destruct (write_then_read w (data this) d0
                  (set d0 field (VArr (done ++ VObj merged :: rest))) Hd0)
        as (w1 & Hw1 & Hl1 & Hs1 & Hr1 & Ha1 & Hlog1).
      unfold bind at 1. rewrite Hw1.
      unfold bind at 1. unfold Entity._onUpdateEmbeddedEntity at 1. unfold ret at 1.
      cbv beta iota.
      destruct (IH (done ++ [VObj merged])%list w1 _ Hrest Hl1)
        as (w' & d' & todo' & Hrun & Hd' & Harr' & Hframe' & Hall & Hs & Hlog & Hr' & Ha').
      { rewrite get_set_same, <- app_assoc. reflexivity. }
      { intros k' Hk'. rewrite get_set_other by congruence. apply Hframe. exact Hk'. }
      exists w', d', (VObj merged :: todo'). rewrite Hrun.
      split; [reflexivity | ]. split; [exact Hd' | ].
      split; [rewrite Harr', <- app_assoc; reflexivity | ].
      split; [exact Hframe' | ]. split; [ | repeat split; congruence].
      constructor; [ | exact Hall].
      unfold merged_child. simpl child_id. rewrite Hget. exists o, r, merged. auto.
    + destruct (IH (done ++ [VObj o])%list w d0 Hrest Hd0)
        as (w' & d' & todo' & Hrun & Hd' & Harr' & Hframe' & Hall & Hrest').
      { rewrite Harr, <- app_assoc. reflexivity. }
      { exact Hframe. }
      exists w', d', (VObj o :: todo'). rewrite Hrun.
      split; [reflexivity | ]. split; [exact Hd' | ].
      split; [rewrite Harr', <- app_assoc; reflexivity | ].
      split; [exact Hframe' | ]. split; [ | exact Hrest'].
      constructor; [ | exact Hall].
      unfold merged_child. simpl child_id. rewrite Hget. reflexivity.
Qed.


(** X28.  What the embedded update handler changes: for a configured
    class, a parent held by the store, a raw embedded array of records with
    undotted keys and a response whose records are plain updates (distinct
    undotted keys, no ["-="] key), the handler returns the records of the
    response; the raw embedded array of the parent keeps its length and its
    order, a document whose [_id] no record carries is kept as it is, and
    every other document is the merge into it of the last record carrying
    its [_id]; the store is what it was, and the per-batch modification hook
    and the render of the parent have run once. *)
Theorem handleUpdateEmbeddedEntity_merges (cls : Entity.Class) (user : User)
  (response : Response) (w : World) (cfg : Entity.Config) (entityName : string)
  (classes : list string) (field : string) (parent : EntityInstance) (d : obj)
  (docs : list value) :
  Entity.config cls = Ok cfg ->
  Entity.baseEntity cfg = Some entityName ->
  Entity.collection cfg = Some classes ->
  Entity.lookup_embedded (Entity.embeddedEntities cfg) (type (request response)) = Some field ->
  field <> "" ->
  map_get (store w) (parentId (request response)) = Some parent ->
  heap w !! data parent = Some d ->
  get d field = Some (VArr docs) ->
  Forall (fun doc => exists o, doc = VObj o /\ undotted o = true) docs ->
  Forall (fun record => exists r, record = VObj r /\ undotted r = true
                                  /\ no_deletion_keys (VObj r) = true
                                  /\ well_formed (VObj r) = true) (result response) ->
  exists w' d' docs',
    Entity._handleUpdateEmbeddedEntity cls user response w = Ret (result response) w'
    /\ heap w' !! data parent = Some d'
    /\ get d' field = Some (VArr docs')
    /\ Forall2 (merged_child (map (fun r => (child_id r, r)) (result response))) docs docs'
    /\ store w' = store w
    /\ log w' = (log w ++ [OnModifyEmbedded (data parent) (type (request response))]
                 ++ map AppRendered (apps parent))%list.
Proof.
  intros Hcfg Hbase Hcoll Hfield Hne Hparent Hd Hdocs Hobjects Hrecords.
  set (embeddedName := type (request response)) in *.
  set (pending := map (fun r => (child_id r, r)) (result response)).
  assert (Harr : prop d field = VArr docs) by (unfold prop; now rewrite Hdocs).
  assert (Hname : Entity.entity cls = Ok entityName).
  { unfold Entity.entity. rewrite Hcfg. simpl. now rewrite Hbase. }
  assert (Hpending : forall k record, In (k, record) pending ->
                       exists r, record = VObj r /\ undotted r = true
                                 /\ no_deletion_keys (VObj r) = true
                                 /\ well_formed (VObj r) = true).
  { intros k record Hin. apply in_map_iff in Hin as [r [Heq Hin]].
    injection Heq as _ <-. rewrite List.Forall_forall in Hrecords. apply (Hrecords r Hin). }
  assert (Hplain : Forall (fun r => exists o, r = VObj o) (result response)).
  { rewrite List.Forall_forall in Hrecords. apply List.Forall_forall. intros r Hin.
    destruct (Hrecords r Hin) as (o & -> & _). eauto. }
  destruct (update_children_spec parent embeddedName field pending d Hpending docs [] w d
              Hobjects Hd Hdocs (fun k _ => eq_refl))
    as (w1 & d1 & docs' & Hrun & Hd1 & Harr1 & Hframe1 & Hall & Hs1 & Hlog1 & _ & _).
  set (w2 := add_log w1 [OnModifyEmbedded (data parent) embeddedName]).
  destruct (prepareData_configured cls entityName parent d1 w2 Hname Hd1)
    as (w3 & d' & Hprep & Hd' & Hkeep & Hs3 & Hlog3).
  exists (add_log w3 (map AppRendered (apps parent))), d', docs'.
  split; [ | split; [exact Hd' | split; [ | split; [exact Hall | split] ] ] ].
  - unfold Entity._handleUpdateEmbeddedEntity. fold embeddedName.
    unfold bind at 1. unfold Entity.collection_of. rewrite Hcfg. simpl rbind.
    rewrite Hcoll. simpl lift. unfold ret at 1. cbv beta iota.
    unfold bind at 1. unfold EntityCollection.get. rewrite Hparent.
    unfold bind at 1. unfold Entity.getEmbeddedCollection.
    unfold bind at 1. rewrite Hcfg. simpl lift. unfold ret at 1. cbv beta iota.
    rewrite Hfield.
    destruct (String.eqb_spec field "") as [E | _]; [contradiction | ].
    unfold bind at 1. unfold read at 1. rewrite Hd. unfold ret at 1. rewrite Harr.
    rewrite (pending_of_records _ Hplain). fold pending.
    unfold bind at 1. simpl lift. unfold ret at 1. cbv beta iota.
    unfold bind at 1. unfold ret at 1. cbv beta iota. rewrite Hfield.
    unfold bind at 1. rewrite Hrun.
    unfold bind at 1. unfold Entity._onModifyEmbeddedEntity.
    unfold bind at 1.
    change (emit (OnModifyEmbedded (data parent) embeddedName) w1) with (Ret tt w2).
    cbv beta iota. unfold bind at 1. rewrite Hprep.
    rewrite render_without_data. reflexivity.
  - destruct (string_dec field "name") as [-> | Hfn].
    + rewrite Hkeep; [exact Harr1 | right].
      unfold prop. now rewrite Harr1.
    + rewrite Hkeep; [exact Harr1 | left; congruence].
  - simpl. now rewrite Hs3.
  - simpl. rewrite Hlog3. simpl. rewrite Hlog1. now rewrite <- !app_assoc.
Qed.

Lemma handleUpdateEmbeddedEntity_merges_witness :
  let response :=
    {| request := {| type := "OwnedItem"; action := "update"; payload := VArr [];
                     options := []; parentType := "Actor"; parentId := VStr "a1" |};
       result := [VObj [("_id", VStr "i2"); ("name", VStr "Buckler")]]; userId := "u1" |} in
  let sword := VObj [("_id", VStr "i1"); ("name", VStr "Sword")] in
  let shield := VObj [("_id", VStr "i2"); ("name", VStr "Shield")] in
  let parent := {| class_name := "Actor"; data := 0; apps := [];
                   embedded := [("items", [sword; shield])] |} in
  exists w' d',
    map_get (store bootstrapped) (VStr "a1") = Some parent
    /\ Entity._handleUpdateEmbeddedEntity Actor player response bootstrapped
       = Ret [VObj [("_id", VStr "i2"); ("name", VStr "Buckler")]] w'
    /\ heap w' !! 0 = Some d'
    /\ get d' "items" = Some (VArr [sword; VObj [("_id", VStr "i2"); ("name", VStr "Buckler")]]).
Proof.
  intros response sword shield parent.
  destruct (handleUpdateEmbeddedEntity_merges Actor player response bootstrapped
              _ "Actor" ["Actor"] "items" parent hero [sword; shield]
              eq_refl eq_refl eq_refl eq_refl)
    as (w' & d' & docs' & Hrun & Hd' & Hitems & Hall & _ & _).
  - discriminate.
  - reflexivity.
  - reflexivity.
  - reflexivity.
  - repeat constructor; eexists; split; reflexivity.
  - repeat constructor. eexists. repeat split; reflexivity.
  - exists w', d'. split; [reflexivity | ]. split; [exact Hrun | ].
    split; [exact Hd' | ]. rewrite Hitems.
    inversion Hall as [ | a b la lb H1 Hrest ]; subst.
    inversion Hrest as [ | a2 b2 la2 lb2 H2 Hrest2 ]; subst.
    inversion Hrest2; subst.
    unfold merged_child in H1, H2. simpl in H1, H2.
    destruct H2 as (o & r & merged & Ho & Hr & Hmerged & ->).
    injection Ho as <-. injection Hr as <-.
    vm_compute in Hmerged. injection Hmerged as <-. rewrite H1. reflexivity.
Defined.

(** ** Validation of the embedded methods *)




Lemma stage_pending_spec (items : list value) :
  Forall (fun item => exists o, item = VObj o /\ truthy (prop o "_id") = true) items ->
  forall pending,
    Entity.stage_pending items pending
    = Ok (pending ++ map (fun item => (child_id item, item)) items)%list.
Proof.
  induction 1 as [ | item rest (o & -> & Hid) _ IH ]; intros pending; simpl.
  - rewrite app_nil_r. reflexivity.
  - rewrite Hid. simpl. rewrite IH, <- app_assoc. reflexivity.
Qed.

Lemma stage_pending_rejects (item key : value) (items : list value) :
  In item items -> member item "_id" = Ok key -> truthy key = false ->
  forall pending, exists e, Entity.stage_pending items pending = Err e.
Proof.
  intros Hin Hkey Hfalsy. induction items as [ | item0 rest IH ]; intros pending;
    [destruct Hin | ].
  simpl. destruct Hin as [-> | Hin].
  - rewrite Hkey. simpl. rewrite Hfalsy. simpl. eauto.
  - destruct (member item0 "_id") as [key0 | e]; simpl; [ | eauto].
    destruct (negb (truthy key0)); [eauto | apply (IH Hin)].
Qed.

Lemma pending_get_none (items : list value) (key : value) :
  Forall (fun item => strict_equal (child_id item) key = false) items ->
  Entity.pending_get (map (fun item => (child_id item, item)) items) key = None.
Proof.
  induction 1 as [ | item rest Hitem _ IH ]; simpl; [reflexivity | ].
  rewrite IH, Hitem. reflexivity.
Qed.

Lemma stage_embedded_updates_none (opts : obj) (pending : list (value * value))
  (docs : list value) :
  Forall (fun doc => exists o, doc = VObj o
                               /\ Entity.pending_get pending (prop o "_id") = None) docs ->
  forall arr, Entity.stage_embedded_updates opts pending docs arr = Ok arr.
Proof.
  induction 1 as [ | doc rest (o & -> & Hnone) _ IH ]; intros arr; simpl; [reflexivity | ].
  rewrite Hnone. apply IH.
Qed.

(** X30.  What [updateEmbeddedEntity] checks and what it drops: an item of
    the batch without an [_id] (or with a falsy one) makes the call throw
    with the world as it was, nothing sent, wherever the item stands; and a
    batch of items none of whose [_id] is that of an embedded document is
    dropped silently, the call resolving to the empty array without a
    request. *)
Theorem updateEmbeddedEntity_validates (cls : Entity.Class) (user : User)
  (server : string -> Request -> res Response) (this : EntityInstance)
  (embeddedName : string) (requested : value) (opts merged_opts : obj) (w : World)
  (cfg : Entity.Config) (field : string) (d : obj) (docs : list value) :
  Entity.config cls = Ok cfg ->
  Entity.lookup_embedded (Entity.embeddedEntities cfg) embeddedName = Some field ->
  field <> "" ->
  heap w !! data this = Some d ->
  get d field = Some (VArr docs) ->
  mergeObject [("diff", VBool true)] opts default_options = Ok merged_opts ->
  let items := match requested with VArr items => items | _ => [requested] end in
  (forall item key, In item items -> member item "_id" = Ok key -> truthy key = false ->
     exists e, Entity.updateEmbeddedEntity cls user server this embeddedName requested opts w
               = Throw e w)
  /\ (Forall (fun item => exists o, item = VObj o /\ truthy (prop o "_id") = true) items ->
      Forall (fun doc => exists o, doc = VObj o
                /\ Forall (fun item => strict_equal (child_id item) (prop o "_id") = false)
                          items) docs ->
      Entity.updateEmbeddedEntity cls user server this embeddedName requested opts w
      = Ret (VArr []) w).
Proof.
  intros Hcfg Hfield Hne Hd Hdocs Hopts items.
  assert (Harr : prop d field = VArr docs) by (unfold prop; now rewrite Hdocs).
  assert (Hstart :
            Entity.updateEmbeddedEntity cls user server this embeddedName requested opts w
            = (let! pending := lift (Entity.stage_pending items []) in
               let! updates := lift (Entity.stage_embedded_updates merged_opts pending docs [])
               in
               if Nat.eqb (List.length updates) 0 then ret (VArr [])
               else
                 let! entityName := lift (Entity.entity cls) in
                 let! parent_id := Entity.id this in
                 let! response :=
                   Entity.dispatch server "modifyEmbeddedDocument"
                     {| type := embeddedName; action := "update";
                        payload := VArr updates; options := merged_opts;
                        parentType := entityName; parentId := parent_id |} in
                 let! embedded := Entity._handleUpdateEmbeddedEntity cls user response in
                 ret (Entity.first_or_all (Nat.eqb (List.length items) 1) embedded)) w).
  { unfold Entity.updateEmbeddedEntity.
    unfold bind at 1. unfold Entity.getEmbeddedCollection.
    unfold bind at 1. rewrite Hcfg. simpl lift. unfold ret at 1. cbv beta iota.
    rewrite Hfield.
    destruct (String.eqb_spec field "") as [E | _]; [contradiction | ].
    unfold bind at 1. unfold read at 1. rewrite Hd. unfold ret at 1. rewrite Harr.
    unfold bind at 1. rewrite Hopts. simpl lift. unfold ret at 1. reflexivity. }
  rewrite Hstart. split.
  - intros item key Hin Hkey Hfalsy.
    destruct (stage_pending_rejects item key items Hin Hkey Hfalsy []) as [e He].
    exists e. unfold bind at 1. rewrite He. reflexivity.
  - intros Hitems Hunknown.
    rewrite (stage_pending_spec items Hitems []). simpl app.
    unfold bind at 1. simpl lift. unfold ret at 1. cbv beta iota.
    rewrite stage_embedded_updates_none; [reflexivity | ].
    rewrite List.Forall_forall in Hunknown. apply List.Forall_forall. intros doc Hin.
    destruct (Hunknown doc Hin) as (o & -> & Hnone).
    exists o. split; [reflexivity | ]. apply pending_get_none. exact Hnone.
Qed.

Lemma updateEmbeddedEntity_validates_witness :
  let this := {| class_name := "Actor"; data := 0; apps := []; embedded := [] |} in
  (exists e, Entity.updateEmbeddedEntity Actor player one_record_server this "OwnedItem"
               (VArr [VObj [("_id", VStr "i1"); ("name", VStr "Axe")];
                      VObj [("name", VStr "Bow")]]) [] bootstrapped
             = Throw e bootstrapped)
  /\ Entity.updateEmbeddedEntity Actor player one_record_server this "OwnedItem"
       (VObj [("_id", VStr "i9"); ("name", VStr "Bow")]) [] bootstrapped
     = Ret (VArr []) bootstrapped.
Proof.
  intros this. split.
  - apply (updateEmbeddedEntity_validates Actor player one_record_server this "OwnedItem"
             _ [] [("diff", VBool true)] bootstrapped _ "items" hero
             [VObj [("_id", VStr "i1"); ("name", VStr "Sword")];
              VObj [("_id", VStr "i2"); ("name", VStr "Shield")]]
             eq_refl eq_refl ltac:(discriminate) eq_refl eq_refl eq_refl)
      with (item := VObj [("name", VStr "Bow")]) (key := VUndefined).
    + right. left. reflexivity.
    + reflexivity.
    + reflexivity.
  - apply (updateEmbeddedEntity_validates Actor player one_record_server this "OwnedItem"
             _ [] [("diff", VBool true)] bootstrapped _ "items" hero
             [VObj [("_id", VStr "i1"); ("name", VStr "Sword")];
              VObj [("_id", VStr "i2"); ("name", VStr "Shield")]]
             eq_refl eq_refl ltac:(discriminate) eq_refl eq_refl eq_refl).
    + repeat constructor. eexists. split; reflexivity.
    + repeat constructor; eexists; (split; [reflexivity | repeat constructor]).
Defined.
